(** * Old-School-Game: the AI gateway core, embedded in Rocq

    A shallow embedding of the validation, sanitisation, difficulty and
    gateway code of the repository, with the properties of its
    specification stated and settled against it.

    Source files embedded here:
    - [src/utils/constants.js]          (the LEVEL table)
    - [src/game/ai/difficultyEngine.js] (calculateNextDifficulty,
                                         difficultyToDescription)
    - [src/game/ai/levelValidator.js]   (validateLevelData)
    - [src/game/ai/levelPrompt.js]      (getThemeForLevel)
    - [src/utils/sanitize.js]           (sanitizeInput, isCleanInput)
    - [src/stores/gameStore.js]         (DEFAULT_LEVEL, useGameStore)
    - the Express API proxy             (rateLimit, the two POST routes)

    Modelling conventions.
    - A JavaScript number is a [num]: NaN, the two infinities, or a finite
      value.  Finite values are exact rationals: comparisons, [Math.max],
      [Math.min], [Math.abs], truthiness and [typeof] are as in IEEE-754,
      and a numeric literal beyond the range of a double reads as an
      infinity; the rounding of [+ - * /], their overflow, and the sign of
      zero are not modelled.
    - A JavaScript value is a tree ([value]): the shape [JSON.parse]
      produces, extended with [undefined] and the non-finite numbers.
      Objects are association lists in property insertion order.
    - Code that can raise returns an [outcome]; code that writes to its
      argument returns the argument's final state next to its outcome.
    - JavaScript strings are sequences of 8-bit code units.
    - [Array.prototype.sort] is a stable insertion sort, as the language
      requires of it since ES2019. *)

From Stdlib Require Import ZArith QArith Qabs Lqa Lia String Ascii List Bool.
From stdpp Require Import gmap strings list pretty.
Import ListNotations.

Local Open Scope Q_scope.

(* ===================================================================== *)
(** * JavaScript numbers *)
(* ===================================================================== *)

Inductive num : Type :=
| NaN
| PInf
| NInf
| Fin (q : Q).

Definition Qlt_bool (a b : Q) : bool := negb (Qle_bool b a).

Definition is_nan (a : num) : bool :=
  match a with NaN => true | _ => false end.

Definition is_finite (a : num) : bool :=
  match a with Fin _ => true | _ => false end.

(** [a < b]; false as soon as one side is NaN. *)
Definition num_lt (a b : num) : bool :=
  match a, b with
  | NaN, _ | _, NaN => false
  | _, NInf => false
  | NInf, _ => true
  | PInf, _ => false
  | Fin _, PInf => true
  | Fin x, Fin y => Qlt_bool x y
  end.

(** [a <= b]; false as soon as one side is NaN. *)
Definition num_le (a b : num) : bool :=
  match a, b with
  | NaN, _ | _, NaN => false
  | NInf, _ => true
  | _, PInf => true
  | _, NInf => false
  | PInf, _ => false
  | Fin x, Fin y => Qle_bool x y
  end.

Definition num_gt (a b : num) : bool := num_lt b a.
Definition num_ge (a b : num) : bool := num_le b a.

(** [a === b] on numbers: NaN differs from itself. *)
Definition num_eq (a b : num) : bool :=
  match a, b with
  | PInf, PInf | NInf, NInf => true
  | Fin x, Fin y => Qeq_bool x y
  | _, _ => false
  end.

Definition num_neg (a : num) : num :=
  match a with
  | NaN => NaN
  | PInf => NInf
  | NInf => PInf
  | Fin x => Fin (- x)
  end.

Definition num_add (a b : num) : num :=
  match a, b with
  | NaN, _ | _, NaN => NaN
  | PInf, NInf | NInf, PInf => NaN
  | PInf, _ | _, PInf => PInf
  | NInf, _ | _, NInf => NInf
  | Fin x, Fin y => Fin (x + y)
  end.

Definition num_sub (a b : num) : num := num_add a (num_neg b).

(** The sign of a number as seen by [*] and [/]: [None] for NaN, and for
    zero, which has no sign in this model. *)
Definition num_sign (a : num) : option bool :=
  match a with
  | NaN => None
  | PInf => Some false
  | NInf => Some true
  | Fin x => if Qlt_bool 0 x then Some false
             else if Qlt_bool x 0 then Some true else None
  end.

Definition signed_inf (negative : bool) : num :=
  if negative then NInf else PInf.

Definition num_mul (a b : num) : num :=
  match a, b with
  | Fin x, Fin y => Fin (x * y)
  | NaN, _ | _, NaN => NaN
  | _, _ =>
      match num_sign a, num_sign b with
      | Some sa, Some sb => signed_inf (xorb sa sb)
      | _, _ => NaN                       (* Infinity * 0 *)
      end
  end.

Definition num_div (a b : num) : num :=
  match a, b with
  | NaN, _ | _, NaN => NaN
  | Fin x, Fin y =>
      if Qeq_bool y 0
      then match num_sign a with           (* x / 0, zero taken as +0 *)
           | Some s => signed_inf s
           | None => NaN
           end
      else Fin (x / y)
  | Fin _, _ => Fin 0                      (* finite / Infinity *)
  | _, Fin _ =>
      match num_sign a, num_sign b with
      | Some sa, Some sb => signed_inf (xorb sa sb)
      | Some sa, None => signed_inf sa     (* Infinity / 0, zero taken as +0 *)
      | None, _ => NaN
      end
  | _, _ => NaN                            (* Infinity / Infinity *)
  end.

(** [Math.max(a, b)] and [Math.min(a, b)]: NaN if either argument is. *)
Definition Math_max (a b : num) : num :=
  if is_nan a || is_nan b then NaN
  else if num_lt a b then b else a.

Definition Math_min (a b : num) : num :=
  if is_nan a || is_nan b then NaN
  else if num_lt b a then b else a.

Definition Math_abs (a : num) : num :=
  match a with
  | NaN => NaN
  | PInf | NInf => PInf
  | Fin x => Fin (Qabs x)
  end.

(** Truthiness of a number: [0] and [NaN] are falsy. *)
Definition num_truthy (a : num) : bool :=
  match a with
  | NaN => false
  | PInf | NInf => true
  | Fin x => negb (Qeq_bool x 0)
  end.

Coercion Fin : Q >-> num.

(** Comparisons stay folded under [simpl]; proofs unfold them by name. *)
#[global] Arguments num_lt : simpl never.
#[global] Arguments num_le : simpl never.
#[global] Arguments num_gt : simpl never.
#[global] Arguments num_ge : simpl never.
#[global] Arguments num_eq : simpl never.
#[global] Arguments Math_max : simpl never.
#[global] Arguments Math_min : simpl never.

(* ===================================================================== *)
(** * src/utils/constants.js *)
(* ===================================================================== *)

Module LEVEL.
Definition MAX_PLATFORMS : nat := 50.
Definition MAX_ENEMIES : nat := 15.
Definition MAX_COINS : nat := 30.
Definition MIN_PLATFORM_WIDTH : num := Fin 2.
Definition MAX_GAP : num := Fin 8.
Definition MIN_DIFFICULTY : num := Fin 1.
Definition MAX_DIFFICULTY : num := Fin 10.
End LEVEL.

(* ===================================================================== *)
(** * src/game/ai/difficultyEngine.js *)
(* ===================================================================== *)

Module DifficultyEngine.

(** The stats object handed to [calculateNextDifficulty].  A field that
    is [None] is absent (or [undefined]) and takes the default of the
    destructuring pattern. *)
Record PerformanceStats : Type := {
  deaths : option num;
  completionTime : option num;
  coinsCollected : option num;
  totalCoins : option num;
  currentDifficulty : option num;
}.

Definition calculateNextDifficulty (stats : PerformanceStats) : num :=
  let deaths_ := default (Fin 0) (deaths stats) in
  let completionTime_ := default (Fin 60) (completionTime stats) in
  let coinsCollected_ := default (Fin 0) (coinsCollected stats) in
  let totalCoins_ := default (Fin 1) (totalCoins stats) in
  let currentDifficulty_ := default (Fin 1) (currentDifficulty stats) in
  let delta := Fin 0 in
  (* Factor 1: deaths *)
  let delta :=
    if num_ge deaths_ (Fin 5) then num_sub delta (Fin 2)
    else if num_ge deaths_ (Fin 3) then num_sub delta (Fin 1)
    else if num_eq deaths_ (Fin 0) then num_add delta (Fin 1)
    else delta in
  (* Factor 2: completion time *)
  let timePerPlatform :=
    num_div completionTime_
            (Math_max (Fin 1) (num_mul currentDifficulty_ (Fin 3))) in
  let delta :=
    if num_lt timePerPlatform (Fin 3) then num_add delta (Fin 1)
    else if num_gt timePerPlatform (Fin 10) then num_sub delta (Fin 1)
    else delta in
  (* Factor 3: coin collection ratio *)
  let coinRatio :=
    if num_gt totalCoins_ (Fin 0)
    then num_div coinsCollected_ totalCoins_ else Fin 0 in
  let delta :=
    if num_gt coinRatio (Fin 0.9) then num_add delta (Fin 1)
    else if num_lt coinRatio (Fin 0.3) then num_sub delta (Fin 1)
    else delta in
  let newDifficulty := num_add currentDifficulty_ delta in
  Math_min LEVEL.MAX_DIFFICULTY (Math_max LEVEL.MIN_DIFFICULTY newDifficulty).

(** Record update, one field at a time. *)
Definition with_deaths (s : PerformanceStats) (d : num) :=
  {| deaths := Some d; completionTime := completionTime s;
     coinsCollected := coinsCollected s; totalCoins := totalCoins s;
     currentDifficulty := currentDifficulty s |}.
Definition with_completionTime (s : PerformanceStats) (t : num) :=
  {| deaths := deaths s; completionTime := Some t;
     coinsCollected := coinsCollected s; totalCoins := totalCoins s;
     currentDifficulty := currentDifficulty s |}.
Definition with_coinsCollected (s : PerformanceStats) (c : num) :=
  {| deaths := deaths s; completionTime := completionTime s;
     coinsCollected := Some c; totalCoins := totalCoins s;
     currentDifficulty := currentDifficulty s |}.

(** The result is a difficulty: a number in [[1,10]]. *)
Definition in_range (r : num) : bool :=
  num_le LEVEL.MIN_DIFFICULTY r && num_le r LEVEL.MAX_DIFFICULTY.

(** The final clamp, and the three contributions to [delta], named so
    that the properties below can speak about each factor on its own. *)
Definition clamp (v : num) : num :=
  Math_min LEVEL.MAX_DIFFICULTY (Math_max LEVEL.MIN_DIFFICULTY v).

Definition deathsFactor (d : num) : Q :=
  if num_ge d (Fin 5) then - 2
  else if num_ge d (Fin 3) then - 1
  else if num_eq d (Fin 0) then 1 else 0.

Definition paceFactor (timePerPlatform : num) : Q :=
  if num_lt timePerPlatform (Fin 3) then 1
  else if num_gt timePerPlatform (Fin 10) then - 1 else 0.

Definition coinFactor (coinRatio : num) : Q :=
  if num_gt coinRatio (Fin 0.9) then 1
  else if num_lt coinRatio (Fin 0.3) then - 1 else 0.

Definition timePerPlatform_of (completionTime_ currentDifficulty_ : num) : num :=
  num_div completionTime_
          (Math_max (Fin 1) (num_mul currentDifficulty_ (Fin 3))).

Definition coinRatio_of (coinsCollected_ totalCoins_ : num) : num :=
  if num_gt totalCoins_ (Fin 0)
  then num_div coinsCollected_ totalCoins_ else Fin 0.

(** [totalCoins] is a finite positive number (or absent: the default 1). *)
Definition totalCoins_finite_positive (s : PerformanceStats) : bool :=
  match totalCoins s with
  | None => true
  | Some (Fin q) => Qlt_bool 0 q
  | Some _ => false
  end.

Definition currentDifficulty_is_nan (s : PerformanceStats) : bool :=
  match currentDifficulty s with
  | Some n => is_nan n
  | None => false
  end.

End DifficultyEngine.

(* ===================================================================== *)
(** * JavaScript values *)
(* ===================================================================== *)

(** A value is a tree.  The properties of an object are kept in insertion
    order; a property name occurs once. *)
#[warnings="-register-all"]
Inductive value : Type :=
| VUndefined
| VNull
| VBool (b : bool)
| VNum (n : num)
| VStr (s : string)
| VObj (fields : list (string * value))
| VArr (elems : list value).

(** What a call can end in: a returned value or a raised exception. *)
Inductive exn : Type :=
| TypeError (message : string)
| SyntaxError (message : string).

Inductive outcome (A : Type) : Type :=
| Returned (a : A)
| Thrown (e : exn).
Arguments Returned {A} a.
Arguments Thrown {A} e.

#[export] Instance outcome_ret : MRet outcome := fun A a => Returned a.
#[export] Instance outcome_bind : MBind outcome :=
  fun A B f m => match m with Returned a => f a | Thrown e => Thrown e end.

Definition returns {A : Type} (o : outcome A) : bool :=
  match o with Returned _ => true | Thrown _ => false end.

Definition truthy (v : value) : bool :=
  match v with
  | VUndefined | VNull => false
  | VBool b => b
  | VNum n => num_truthy n
  | VStr s => negb (String.eqb s "")
  | VObj _ | VArr _ => true
  end.

Definition typeof (v : value) : string :=
  match v with
  | VUndefined => "undefined"
  | VNull => "object"
  | VBool _ => "boolean"
  | VNum _ => "number"
  | VStr _ => "string"
  | VObj _ | VArr _ => "object"
  end.

(** [typeof v === 'number'] *)
Definition is_number (v : value) : bool := String.eqb (typeof v) "number".

(** [a || b] *)
Definition js_or (a b : value) : value := if truthy a then a else b.

Definition isArray (v : value) : bool :=
  match v with VArr _ => true | _ => false end.

Fixpoint lookup_field (k : string) (fields : list (string * value)) : value :=
  match fields with
  | [] => VUndefined
  | (k', v) :: rest => if String.eqb k k' then v else lookup_field k rest
  end.

(** Writing a property: in place when the object has it, else appended. *)
Fixpoint store_field (k : string) (v : value) (fields : list (string * value))
  : list (string * value) :=
  match fields with
  | [] => [(k, v)]
  | (k', v') :: rest =>
      if String.eqb k k' then (k, v) :: rest
      else (k', v') :: store_field k v rest
  end.

(** [v.k] for a [v] that is neither [null] nor [undefined].  Of the
    properties every array and string has, only [length] is modelled; the
    code under study reads no other. *)
Definition prop (v : value) (k : string) : value :=
  match v with
  | VObj fields => lookup_field k fields
  | VArr elems =>
      if String.eqb k "length"
      then VNum (Fin (inject_Z (Z.of_nat (List.length elems)))) else VUndefined
  | VStr s =>
      if String.eqb k "length"
      then VNum (Fin (inject_Z (Z.of_nat (String.length s)))) else VUndefined
  | _ => VUndefined
  end.

Definition nullish (v : value) : bool :=
  match v with VUndefined | VNull => true | _ => false end.

(** [v.k]: reading a property of [null] or [undefined] raises. *)
Definition getProp (v : value) (k : string) : outcome value :=
  if nullish v
  then Thrown (TypeError "Cannot read properties of null or undefined")
  else Returned (prop v k).

(** [v?.k] *)
Definition optProp (v : value) (k : string) : value :=
  if nullish v then VUndefined else prop v k.

(** [v.k = x] on an object. *)
Definition setProp (v : value) (k : string) (x : value) : value :=
  match v with
  | VObj fields => VObj (store_field k x fields)
  | _ => v
  end.

(** [names.includes(v)] for an array literal of strings. *)
Definition includes (names : list string) (v : value) : bool :=
  match v with
  | VStr s => existsb (String.eqb s) names
  | _ => false
  end.

(** ** ToNumber *)

Definition is_space (c : ascii) : bool :=
  let n := nat_of_ascii c in
  ((9 <=? n) && (n <=? 13) || (n =? 32) || (n =? 160))%nat.

Definition digit_of (c : ascii) : option Z :=
  let n := Z.of_nat (nat_of_ascii c) in
  if ((48 <=? n) && (n <=? 57))%Z then Some (n - 48)%Z else None.

Definition hex_digit_of (c : ascii) : option Z :=
  let n := Z.of_nat (nat_of_ascii c) in
  if ((48 <=? n) && (n <=? 57))%Z then Some (n - 48)%Z
  else if ((97 <=? n) && (n <=? 102))%Z then Some (n - 87)%Z
  else if ((65 <=? n) && (n <=? 70))%Z then Some (n - 55)%Z
  else None.

(** The longest prefix of digits, as (value so far, digits read, rest). *)
Fixpoint read_digits (acc : Z) (count : nat) (cs : list ascii)
  : Z * nat * list ascii :=
  match cs with
  | c :: rest =>
      match digit_of c with
      | Some d => read_digits (10 * acc + d)%Z (S count) rest
      | None => (acc, count, cs)
      end
  | [] => (acc, count, cs)
  end.

(** A whole string of digits in the given radix. *)
Fixpoint read_radix (radix : Z) (acc : Z) (cs : list ascii) : option Z :=
  match cs with
  | [] => Some acc
  | c :: rest =>
      match hex_digit_of c with
      | Some d => if (d <? radix)%Z then read_radix radix (radix * acc + d)%Z rest
                  else None
      | None => None
      end
  end.

(** A decimal literal of magnitude at or above [2^1024 - 2^970], the
    midpoint between the largest double and [2^1024], reads as an
    infinity. *)
Definition of_literal (q : Q) : num :=
  let limit := inject_Z (2 ^ 1024 - 2 ^ 970) in
  if Qle_bool limit q then PInf
  else if Qle_bool q (- limit) then NInf
  else Fin q.

Definition pow10 (e : Z) : Q :=
  match e with
  | Z0 => 1
  | Zpos p => inject_Z (10 ^ Zpos p)
  | Zneg p => 1 / inject_Z (10 ^ Zpos p)
  end.

(** [ExponentPart] (optional) up to the end of the string. *)
Definition read_exponent (cs : list ascii) : option Z :=
  match cs with
  | [] => Some 0%Z
  | c :: rest =>
      if (Ascii.eqb c "e" || Ascii.eqb c "E")%bool then
        let '(negative, rest) :=
          match rest with
          | "-"%char :: r => (true, r)
          | "+"%char :: r => (false, r)
          | _ => (false, rest)
          end in
        match read_digits 0 0 rest with
        | (_, O, _) => None
        | (e, _, []) => Some (if negative then - e else e)%Z
        | _ => None
        end
      else None
  end.

(** [StrUnsignedDecimalLiteral] up to the end of the string. *)
Definition read_unsigned_decimal (cs : list ascii) : option num :=
  if String.eqb (string_of_list_ascii cs) "Infinity" then Some PInf
  else
    let '(int_part, int_count, rest) := read_digits 0 0 cs in
    let '(mantissa, frac_count, rest) :=
      match rest with
      | "."%char :: r =>
          let '(m, n, r') := read_digits int_part 0 r in (m, n, r')
      | _ => (int_part, O, rest)
      end in
    match int_count, frac_count with
    | O, O => None
    | _, _ =>
        match read_exponent rest with
        | Some e =>
            Some (of_literal
                    (inject_Z mantissa * pow10 (e - Z.of_nat frac_count)))
        | None => None
        end
    end.

Fixpoint drop_space (cs : list ascii) : list ascii :=
  match cs with
  | c :: rest => if is_space c then drop_space rest else cs
  | [] => []
  end.

(** [String.prototype.trim] on code units. *)
Definition trim_chars (cs : list ascii) : list ascii :=
  rev (drop_space (rev (drop_space cs))).

(** [String.prototype.trim] *)
Definition trim (s : string) : string :=
  string_of_list_ascii (trim_chars (list_ascii_of_string s)).

(** The string a value of type string holds. *)
Definition string_of (v : value) : string :=
  match v with VStr s => s | _ => "" end.

(** [StringToNumber]: the number a string converts to, NaN when it is not
    a numeric literal. *)
Definition StringToNumber (s : string) : num :=
  match trim_chars (list_ascii_of_string s) with
  | [] => Fin 0
  | "0"%char :: x :: rest =>
      let radix :=
        if (Ascii.eqb x "x" || Ascii.eqb x "X")%bool then Some 16%Z
        else if (Ascii.eqb x "o" || Ascii.eqb x "O")%bool then Some 8%Z
        else if (Ascii.eqb x "b" || Ascii.eqb x "B")%bool then Some 2%Z
        else None in
      match radix, rest with
      | Some r, _ :: _ =>
          match read_radix r 0 rest with
          | Some n => of_literal (inject_Z n)
          | None => NaN
          end
      | Some _, [] => NaN
      | None, _ =>
          match read_unsigned_decimal ("0"%char :: x :: rest) with
          | Some n => n
          | None => NaN
          end
      end
  | "-"%char :: rest =>
      match read_unsigned_decimal rest with
      | Some n => num_neg n
      | None => NaN
      end
  | "+"%char :: rest =>
      match read_unsigned_decimal rest with
      | Some n => n
      | None => NaN
      end
  | cs =>
      match read_unsigned_decimal cs with
      | Some n => n
      | None => NaN
      end
  end.

(** [ToNumber].  A plain object converts through ["[object Object]"] to
    NaN; an array converts through its [join(",")]: the empty array is the
    empty string, a one-element array is its element as a string, and
    anything longer has a comma in it. *)
Fixpoint ToNumber (v : value) : num :=
  match v with
  | VUndefined => NaN
  | VNull => Fin 0
  | VBool b => if b then Fin 1 else Fin 0
  | VNum n => n
  | VStr s => StringToNumber s
  | VObj _ => NaN
  | VArr [] => Fin 0
  | VArr [x] =>
      match x with
      | VUndefined | VNull => Fin 0
      | VBool _ => NaN
      | _ => ToNumber x
      end
  | VArr _ => NaN
  end.

(* ===================================================================== *)
(** * src/game/ai/levelValidator.js *)
(* ===================================================================== *)

Module LevelValidator.

(** The messages pushed on [errors], with the values their templates
    interpolate:
    - [NotAnObject]: 'Level data is not a valid object'
    - [NoPlatforms]: 'No platforms defined'
    - [TooManyPlatforms n]: 'Too many platforms: n (max 50)'
    - [NoValidPlatforms]: 'No valid platforms after validation'
    - [BadSpawnPoint]: 'Missing or invalid spawn point'
    - [BadGoalPosition]: 'Missing or invalid goal position'
    - [UnreachableGap gap i j]: 'Unreachable gap of gap between platforms i and j' *)
Inductive error : Type :=
| NotAnObject
| NoPlatforms
| TooManyPlatforms (n : nat)
| NoValidPlatforms
| BadSpawnPoint
| BadGoalPosition
| UnreachableGap (gap : num) (i j : nat).

Record ValidationResult : Type := {
  valid : bool;
  errors : list error;
  data : value;
}.

(** [arr.filter(f)] for a callback that can raise: the elements are
    visited in order and the first exception ends the call.  Calling
    [filter] on a value that is not an array raises. *)
Fixpoint filter_list (f : value -> outcome bool) (elems : list value)
  : outcome (list value) :=
  match elems with
  | [] => Returned []
  | e :: rest =>
      keep ← f e;
      kept ← filter_list f rest;
      mret (if keep : bool then e :: kept else kept)
  end.

Definition js_filter (f : value -> outcome bool) (arr : value)
  : outcome (list value) :=
  match arr with
  | VArr elems => filter_list f elems
  | _ => Thrown (TypeError "filter is not a function")
  end.

(** The callback of the platforms filter. *)
Definition platform_ok (p : value) : outcome bool :=
  x ← getProp p "x";
  y ← getProp p "y";
  if negb (is_number x) || negb (is_number y) then mret false
  else
    width ← getProp p "width";
    if negb (is_number width)
       || num_lt (ToNumber width) LEVEL.MIN_PLATFORM_WIDTH then mret false
    else
      if num_lt (ToNumber y) (Fin (-5)) || num_gt (ToNumber y) (Fin 15)
      then mret false
      else mret true.

(** The callback of the enemies filter.  It writes to the entry it is
    given: the result is the entry as the callback leaves it, and whether
    it is kept. *)
Definition enemy_ok (e : value) : value * outcome bool :=
  match getProp e "x" with
  | Thrown ex => (e, Thrown ex)
  | Returned x =>
      let y := prop e "y" in
      if negb (is_number x) || negb (is_number y) then (e, Returned false)
      else if negb (includes ["goomba"; "koopa"] (prop e "type"))
      then (e, Returned false)
      else if negb (includes ["patrol"; "chase"] (prop e "behavior"))
      then (setProp e "behavior" (VStr "patrol"), Returned true)
      else (e, Returned true)
  end.

(** [arr.filter(enemy_ok)]: the entries as the call leaves them, and the
    entries kept.  When the callback raises at an entry, the entries
    before it have been written to and the ones after it are untouched. *)
Fixpoint filter_enemies (elems : list value) : list value * outcome (list value) :=
  match elems with
  | [] => ([], Returned [])
  | e :: rest =>
      match enemy_ok e with
      | (e', Thrown ex) => (e' :: rest, Thrown ex)
      | (e', Returned keep) =>
          let '(rest', r) := filter_enemies rest in
          (e' :: rest',
           kept ← r; mret (if keep : bool then e' :: kept else kept))
      end
  end.

(** The callback of the coins filter. *)
Definition coin_ok (c : value) : outcome bool :=
  x ← getProp c "x";
  y ← getProp c "y";
  mret (is_number x && is_number y).

(** The own properties an object spread copies. *)
Definition own_fields (v : value) : list (string * value) :=
  match v with
  | VObj fields => fields
  | _ => []
  end.

(** [{ ...c, z: 0, collected: false }] *)
Definition normalize_coin (c : value) : value :=
  VObj (store_field "collected" (VBool false)
          (store_field "z" (VNum (Fin 0)) (own_fields c))).

(** The comparator [(a, b) => a.x - b.x]. *)
Definition compare_x (a b : value) : num :=
  num_sub (ToNumber (prop a "x")) (ToNumber (prop b "x")).

(** [Array.prototype.sort] is stable: an element moves behind another
    only when the comparator puts it strictly after.  A comparator result
    of NaN counts as zero. *)
Fixpoint sort_insert (cmp : value -> value -> num) (a : value)
  (sorted : list value) : list value :=
  match sorted with
  | [] => [a]
  | b :: rest =>
      if num_gt (cmp a b) (Fin 0) then b :: sort_insert cmp a rest
      else a :: b :: rest
  end.

Definition js_sort (cmp : value -> value -> num) (elems : list value)
  : list value :=
  foldr (sort_insert cmp) [] elems.

(** The reachability loop, from index [i] on, [prev] being the platform
    at index [i - 1]. *)
Fixpoint gap_errors (i : nat) (prev : value) (rest : list value) : list error :=
  match rest with
  | [] => []
  | curr :: rest' =>
      let prevEnd :=
        num_add (ToNumber (prop prev "x"))
                (num_div (ToNumber (prop prev "width")) (Fin 2)) in
      let currStart :=
        num_sub (ToNumber (prop curr "x"))
                (num_div (ToNumber (prop curr "width")) (Fin 2)) in
      let gap := num_sub currStart prevEnd in
      let heightDiff :=
        Math_abs (num_sub (ToNumber (prop curr "y")) (ToNumber (prop prev "y"))) in
      (if num_gt gap LEVEL.MAX_GAP && num_lt heightDiff (Fin 4)
       then [UnreachableGap gap (i - 1) i] else [])
      ++ gap_errors (S i) curr rest'
  end.

Definition reachability_errors (sortedPlatforms : list value) : list error :=
  match sortedPlatforms with
  | [] => []
  | first :: rest => gap_errors 1 first rest
  end.

(** One entry of [data.platforms]. *)
Definition normalize_platform (p : value) : value :=
  VObj [ ("x", prop p "x");
         ("y", prop p "y");
         ("z", VNum (Fin 0));
         ("width", VNum (Math_max (ToNumber (prop p "width"))
                                  LEVEL.MIN_PLATFORM_WIDTH));
         ("height", js_or (prop p "height") (VNum (Fin 1)));
         ("depth", js_or (prop p "depth") (VNum (Fin 4)));
         ("type", if includes ["grass"; "brick"; "stone"; "ice"; "lava"]
                              (prop p "type")
                  then prop p "type" else VStr "grass") ].

(** One entry of [data.enemies]. *)
Definition normalize_enemy (e : value) : value :=
  VObj [ ("x", prop e "x");
         ("y", prop e "y");
         ("z", VNum (Fin 0));
         ("type", prop e "type");
         ("behavior", prop e "behavior") ].

(** [rawData] after the enemies filter has run over [rawData.enemies]. *)
Definition write_back_enemies (rawData : value) (entries : list value) : value :=
  match prop rawData "enemies" with
  | VArr _ => setProp rawData "enemies" (VArr entries)
  | _ => rawData
  end.

(** The blocks of [validateLevelData] that push on [errors]. *)

(** "Validate platforms": the raw list is absent, empty or too long. *)
Definition check_platform_count (errors : list error) (platforms : value)
  : list error :=
  match platforms with
  | VArr [] => errors ++ [NoPlatforms]
  | VArr elems =>
      if (LEVEL.MAX_PLATFORMS <? List.length elems)%nat
      then errors ++ [TooManyPlatforms (List.length elems)] else errors
  | _ => errors ++ [NoPlatforms]
  end.

(** [validPlatforms.length === 0 && !errors.length] *)
Definition check_valid_platforms (errors : list error)
  (validPlatforms : list value) : list error :=
  if (List.length validPlatforms =? 0)%nat && (List.length errors =? 0)%nat
  then errors ++ [NoValidPlatforms] else errors.

(** "Validate spawn point" and "Validate goal position":
    [!point || typeof point.x !== 'number'] *)
Definition check_point (message : error) (errors : list error) (point : value)
  : list error :=
  if negb (truthy point) || negb (is_number (prop point "x"))
  then errors ++ [message] else errors.

(** The object returned as [data]. *)
Definition build_data (rawData : value)
  (validPlatforms validCoins validEnemies : list value) : value :=
  VObj [
    ("platforms", VArr (map normalize_platform validPlatforms));
    ("coins", VArr validCoins);
    ("enemies", VArr (map normalize_enemy validEnemies));
    ("difficulty",
     VNum (Math_min (Fin 10)
             (Math_max (Fin 1)
                (ToNumber (js_or (prop rawData "difficulty") (VNum (Fin 1)))))));
    ("spawnPoint",
     VObj [
       ("x", js_or (optProp (prop rawData "spawnPoint") "x") (VNum (Fin 2)));
       ("y", js_or (optProp (prop rawData "spawnPoint") "y") (VNum (Fin 2)));
       ("z", VNum (Fin 0)) ]);
    ("goalPosition",
     VObj [
       ("x", js_or (optProp (prop rawData "goalPosition") "x") (VNum (Fin 80)));
       ("y", js_or (optProp (prop rawData "goalPosition") "y") (VNum (Fin 0)));
       ("z", VNum (Fin 0)) ]) ].

(** [validateLevelData(rawData)]: the argument as the call leaves it, and
    what the call ends in. *)
Definition validateLevelData (rawData : value)
  : value * outcome ValidationResult :=
  if negb (truthy rawData) || negb (String.eqb (typeof rawData) "object")
  then (rawData,
        Returned {| valid := false; errors := [NotAnObject]; data := VNull |})
  else
    let errors : list error := [] in
    (* Validate platforms *)
    let errors := check_platform_count errors (prop rawData "platforms") in
    (* Validate each platform *)
    match js_filter platform_ok (js_or (prop rawData "platforms") (VArr [])) with
    | Thrown ex => (rawData, Thrown ex)
    | Returned validPlatforms =>
        let errors := check_valid_platforms errors validPlatforms in
        (* Validate spawn point *)
        let errors :=
          check_point BadSpawnPoint errors (prop rawData "spawnPoint") in
        (* Validate goal position *)
        let errors :=
          check_point BadGoalPosition errors (prop rawData "goalPosition") in
        (* Validate enemies *)
        match js_or (prop rawData "enemies") (VArr []) with
        | VArr enemies =>
            let '(enemies', filtered) := filter_enemies enemies in
            let rawData' := write_back_enemies rawData enemies' in
            match filtered with
            | Thrown ex => (rawData', Thrown ex)
            | Returned keptEnemies =>
                let validEnemies := firstn LEVEL.MAX_ENEMIES keptEnemies in
                (* Validate coins *)
                match js_filter coin_ok
                        (js_or (prop rawData' "coins") (VArr [])) with
                | Thrown ex => (rawData', Thrown ex)
                | Returned keptCoins =>
                    let validCoins :=
                      firstn LEVEL.MAX_COINS (map normalize_coin keptCoins) in
                    (* Check platform reachability *)
                    let sortedPlatforms := js_sort compare_x validPlatforms in
                    let errors := errors ++ reachability_errors sortedPlatforms in
                    if (0 <? List.length errors)%nat
                    then (rawData',
                          Returned {| valid := false; errors := errors;
                                      data := VNull |})
                    else
                      (rawData',
                       Returned
                         {| valid := true;
                            errors := [];
                            data := build_data rawData' validPlatforms
                                      validCoins validEnemies |})
                end
            end
        | _ => (rawData, Thrown (TypeError "filter is not a function"))
        end
    end.

End LevelValidator.

(* ===================================================================== *)
(** * Regular expressions *)
(* ===================================================================== *)

(** The fragment of ECMAScript regular expressions the sources use, with
    the backtracking semantics of the language: alternatives are tried in
    order, greedy quantifiers take the longest run first, lazy ones the
    shortest.  Quantifiers stand on character classes only, which is all
    the sources do, except for [?], which stands on any expression. *)

Module Regex.

Inductive regex : Type :=
| Eps                                (* the empty expression *)
| Chr (c : ascii)                    (* a literal character *)
| Class (p : ascii -> bool)          (* one character of a class *)
| Seq (r1 r2 : regex)                (* r1 r2 *)
| Opt (r : regex)                    (* r?  (greedy) *)
| Star (p : ascii -> bool)           (* [class]*  (greedy) *)
| Plus (p : ascii -> bool)           (* [class]+  (greedy) *)
| LazyStar (p : ascii -> bool)       (* [class]*? *)
| WordBoundary                       (* \b *)
| LineStart                          (* ^  (no multiline flag) *)
| LineEnd                            (* $  (no multiline flag) *)
| Group (r : regex).                 (* ( r ), the capture group 1 *)

(** A literal string, character by character. *)
Fixpoint Str (cs : list ascii) : regex :=
  match cs with
  | [] => Eps
  | [c] => Chr c
  | c :: rest => Seq (Chr c) (Str rest)
  end.

Definition Lit (s : string) : regex := Str (list_ascii_of_string s).

(** A concatenation. *)
Fixpoint Cat (rs : list regex) : regex :=
  match rs with
  | [] => Eps
  | [r] => r
  | r :: rest => Seq r (Cat rest)
  end.

(** Character classes. *)
Definition any_char (_ : ascii) : bool := true.              (* [\s\S] *)
Definition white_space : ascii -> bool := is_space.           (* \s *)
Definition not_line_terminator (c : ascii) : bool :=          (* . *)
  negb ((nat_of_ascii c =? 10)%nat || (nat_of_ascii c =? 13)%nat).
Definition not_char (x : ascii) (c : ascii) : bool :=         (* [^x] *)
  negb (Ascii.eqb c x).
Definition word_char (c : ascii) : bool :=                    (* \w *)
  let n := nat_of_ascii c in
  ((48 <=? n) && (n <=? 57) || (65 <=? n) && (n <=? 90)
   || (97 <=? n) && (n <=? 122) || (n =? 95))%nat.

(** Canonicalisation under the [i] flag: upper case. *)
Definition to_upper (c : ascii) : ascii :=
  let n := nat_of_ascii c in
  if ((97 <=? n) && (n <=? 122))%nat then ascii_of_nat (n - 32) else c.

Definition char_matches (ignoreCase : bool) (pattern c : ascii) : bool :=
  if ignoreCase then Ascii.eqb (to_upper c) (to_upper pattern)
  else Ascii.eqb c pattern.

(** A position in the subject: the character before it, the characters
    from it on, and what group 1 has captured so far. *)
Record position : Type := {
  before : option ascii;
  rest : list ascii;
  group1 : option (list ascii);
}.

Definition advance (c : ascii) (cs : list ascii) (st : position) : position :=
  {| before := Some c; rest := cs; group1 := group1 st |}.

Definition at_word_boundary (st : position) : bool :=
  let a := match before st with Some c => word_char c | None => false end in
  let b := match rest st with c :: _ => word_char c | [] => false end in
  xorb a b.

(** [take_greedy p k]: take the longest run of [p] after which [k]
    matches. *)
Fixpoint take_greedy (p : ascii -> bool) (k : position -> option position)
  (prev : option ascii) (cap : option (list ascii)) (cs : list ascii)
  : option position :=
  let here := {| before := prev; rest := cs; group1 := cap |} in
  match cs with
  | c :: cs' =>
      if p c then
        match take_greedy p k (Some c) cap cs' with
        | Some r => Some r
        | None => k here
        end
      else k here
  | [] => k here
  end.

(** [take_lazy p k]: take the shortest run of [p] after which [k]
    matches. *)
Fixpoint take_lazy (p : ascii -> bool) (k : position -> option position)
  (prev : option ascii) (cap : option (list ascii)) (cs : list ascii)
  : option position :=
  let here := {| before := prev; rest := cs; group1 := cap |} in
  match k here with
  | Some r => Some r
  | None =>
      match cs with
      | c :: cs' => if p c then take_lazy p k (Some c) cap cs' else None
      | [] => None
      end
  end.

(** [matches r ignoreCase k st]: match [r] at [st], then [k]; the result
    is the position where the whole match ends. *)
Fixpoint matches (r : regex) (ignoreCase : bool)
  (k : position -> option position) (st : position) : option position :=
  match r with
  | Eps => k st
  | Chr x =>
      match rest st with
      | c :: cs => if char_matches ignoreCase x c then k (advance c cs st)
                   else None
      | [] => None
      end
  | Class p =>
      match rest st with
      | c :: cs => if p c then k (advance c cs st) else None
      | [] => None
      end
  | Seq r1 r2 => matches r1 ignoreCase (matches r2 ignoreCase k) st
  | Opt r' =>
      match matches r' ignoreCase k st with
      | Some res => Some res
      | None => k st
      end
  | Star p => take_greedy p k (before st) (group1 st) (rest st)
  | Plus p =>
      match rest st with
      | c :: cs => if p c then take_greedy p k (Some c) (group1 st) cs else None
      | [] => None
      end
  | LazyStar p => take_lazy p k (before st) (group1 st) (rest st)
  | WordBoundary => if at_word_boundary st then k st else None
  | LineStart => match before st with None => k st | Some _ => None end
  | LineEnd => match rest st with [] => k st | _ :: _ => None end
  | Group r' =>
      matches r' ignoreCase
        (fun st' =>
           k {| before := before st'; rest := rest st';
                group1 := Some (firstn (List.length (rest st)
                                        - List.length (rest st'))
                                       (rest st)) |})
        st
  end.

(** A match attempt at one position. *)
Definition match_here (r : regex) (ignoreCase : bool) (prev : option ascii)
  (cs : list ascii) : option position :=
  matches r ignoreCase Some {| before := prev; rest := cs; group1 := None |}.

(** [regex.exec(s)] without the [g] flag: the leftmost match.  The result
    is the text before the match and the position where the match ends. *)
Fixpoint exec_from (r : regex) (ignoreCase : bool) (prev : option ascii)
  (cs : list ascii) : option (list ascii * position) :=
  match match_here r ignoreCase prev cs with
  | Some st => Some ([], st)
  | None =>
      match cs with
      | [] => None
      | c :: cs' =>
          match exec_from r ignoreCase (Some c) cs' with
          | Some (pre, st) => Some (c :: pre, st)
          | None => None
          end
      end
  end.

Definition exec (r : regex) (ignoreCase : bool) (s : string)
  : option (list ascii * position) :=
  exec_from r ignoreCase None (list_ascii_of_string s).

(** [regex.test(s)] *)
Definition test (r : regex) (ignoreCase : bool) (s : string) : bool :=
  match exec r ignoreCase s with Some _ => true | None => false end.

(** [s.replace(regex, replacement)] with the [g] flag: the matches are
    found left to right, each search starting where the last match
    ended.  [skip] counts the characters of the current match still to be
    passed over.  An empty match is replaced and the search moves on by
    one character. *)
Fixpoint replace_from (r : regex) (ignoreCase : bool)
  (replacement : list ascii) (prev : option ascii) (skip : nat)
  (cs : list ascii) : list ascii :=
  match skip with
  | S skip' =>
      match cs with
      | c :: cs' => replace_from r ignoreCase replacement (Some c) skip' cs'
      | [] => []
      end
  | O =>
      match match_here r ignoreCase prev cs with
      | Some st =>
          let consumed := (List.length cs - List.length (rest st))%nat in
          match cs with
          | c :: cs' =>
              match consumed with
              | O => replacement
                     ++ c :: replace_from r ignoreCase replacement (Some c) 0 cs'
              | S n => replacement
                       ++ replace_from r ignoreCase replacement (Some c) n cs'
              end
          | [] => replacement
          end
      | None =>
          match cs with
          | c :: cs' =>
              c :: replace_from r ignoreCase replacement (Some c) 0 cs'
          | [] => []
          end
      end
  end.

Definition replace_all (r : regex) (ignoreCase : bool) (replacement : string)
  (s : string) : string :=
  string_of_list_ascii
    (replace_from r ignoreCase (list_ascii_of_string replacement) None 0
       (list_ascii_of_string s)).

End Regex.

(* ===================================================================== *)
(** * src/utils/sanitize.js *)
(* ===================================================================== *)

Module Sanitize.
Import Regex.

(** The patterns of [INJECTION_PATTERNS], each with its [i] flag; all
    carry the [g] flag. *)
Definition INJECTION_PATTERNS : list (regex * bool) :=
  [ (* /ignore\s+(all\s+)?previous\s+instructions/gi *)
    (Cat [Lit "ignore"; Plus white_space;
          Opt (Group (Cat [Lit "all"; Plus white_space]));
          Lit "previous"; Plus white_space; Lit "instructions"], true);
    (* /you\s+are\s+now/gi *)
    (Cat [Lit "you"; Plus white_space; Lit "are"; Plus white_space; Lit "now"],
     true);
    (* /system\s*:\s*/gi *)
    (Cat [Lit "system"; Star white_space; Chr ":"; Star white_space], true);
    (* /\bpretend\b.*\byou\b/gi *)
    (Cat [WordBoundary; Lit "pretend"; WordBoundary; Star not_line_terminator;
          WordBoundary; Lit "you"; WordBoundary], true);
    (* /```[\s\S]*```/g *)
    (Cat [Lit "```"; Star any_char; Lit "```"], false);
    (* /<script[\s\S]*?<\/script>/gi *)
    (Cat [Lit "<script"; LazyStar any_char; Lit "</script>"], true);
    (* /<[^>]+>/g *)
    (Cat [Chr "<"; Plus (not_char ">"); Chr ">"], false) ].

(** [sanitizeInput(input, maxLength = 200)]; [maxLength] is a length, or
    absent. *)
Definition sanitizeInput (input : value) (maxLength : option nat) : string :=
  let maxLength := default 200%nat maxLength in
  if negb (String.eqb (typeof input) "string") then ""
  else
    let cleaned := string_of input in
    (* Apply each injection pattern *)
    let cleaned :=
      fold_left (fun cleaned pattern =>
                   replace_all (fst pattern) (snd pattern) "" cleaned)
                INJECTION_PATTERNS cleaned in
    (* Normalize whitespace *)
    let cleaned := trim (replace_all (Plus white_space) false " " cleaned) in
    (* Enforce length limit *)
    if (maxLength <? String.length cleaned)%nat
    then substring 0 maxLength cleaned
    else cleaned.

(** The class [[a-zA-Z0-9\s.,!?'-]] *)
Definition clean_char (c : ascii) : bool :=
  let n := nat_of_ascii c in
  ((97 <=? n) && (n <=? 122) || (65 <=? n) && (n <=? 90)
   || (48 <=? n) && (n <=? 57))%nat
  || white_space c
  || existsb (Ascii.eqb c) (list_ascii_of_string ".,!?'-").

(** [isCleanInput(input)] *)
Definition isCleanInput (input : value) : bool :=
  if negb (String.eqb (typeof input) "string")
     || (String.length (string_of input) =? 0)%nat
  then false
  else test (Cat [LineStart; Plus clean_char; LineEnd]) false (string_of input).

(** A fenced block: an opening [```] closed by a later [```]. *)
Definition has_fenced_block (s : string) : bool :=
  test (Cat [Lit "```"; Star any_char; Lit "```"]) false s.

End Sanitize.

(* ===================================================================== *)
(** * JSON.parse *)
(* ===================================================================== *)

(** The JSON grammar of ECMA-404, which is what [JSON.parse] accepts.
    Strings are read as 8-bit code units: a [\u] escape above [00FF] is
    outside this model and is refused.  [fuel] bounds the depth of the
    recursion; every level of nesting and every element before the
    current one has taken a character, so [JSON_parse] starts with twice
    the length of the text. *)

Module JSON.

Definition json_space (c : ascii) : bool :=
  let n := nat_of_ascii c in
  ((n =? 32) || (n =? 9) || (n =? 10) || (n =? 13))%nat.

Fixpoint skip_space (cs : list ascii) : list ascii :=
  match cs with
  | c :: rest => if json_space c then skip_space rest else cs
  | [] => []
  end.

(** The double quote, code unit 34. *)
Definition dquote : ascii := ascii_of_nat 34.

(** The characters of a string after its opening quote, up to the
    closing one. *)
Fixpoint parse_string (acc : list ascii) (cs : list ascii)
  : option (string * list ascii) :=
  match cs with
  | [] => None
  | c :: rest =>
      if Ascii.eqb c dquote then Some (string_of_list_ascii (rev acc), rest)
      else if Ascii.eqb c "\" then
        match rest with
        | [] => None
        | e :: rest =>
            let escaped (x : ascii) := parse_string (x :: acc) rest in
            if Ascii.eqb e dquote then escaped dquote
            else if Ascii.eqb e "\" then escaped "\"%char
            else if Ascii.eqb e "/" then escaped "/"%char
            else if Ascii.eqb e "b" then escaped (ascii_of_nat 8)
            else if Ascii.eqb e "f" then escaped (ascii_of_nat 12)
            else if Ascii.eqb e "n" then escaped (ascii_of_nat 10)
            else if Ascii.eqb e "r" then escaped (ascii_of_nat 13)
            else if Ascii.eqb e "t" then escaped (ascii_of_nat 9)
            else if Ascii.eqb e "u" then
              match rest with
              | h1 :: h2 :: h3 :: h4 :: rest' =>
                  match hex_digit_of h1, hex_digit_of h2,
                        hex_digit_of h3, hex_digit_of h4 with
                  | Some 0%Z, Some 0%Z, Some x, Some y =>
                      parse_string
                        (ascii_of_nat (Z.to_nat (16 * x + y)) :: acc) rest'
                  | _, _, _, _ => None
                  end
              | _ => None
              end
            else None
        end
      else if (nat_of_ascii c <? 32)%nat then None
      else parse_string (c :: acc) rest
  end.

(** A JSON number: an optional minus, an integer part without a leading
    zero, an optional fraction and an optional exponent. *)
Definition parse_number (cs : list ascii) : option (num * list ascii) :=
  let '(negative, cs) :=
    match cs with
    | "-"%char :: r => (true, r)
    | _ => (false, cs)
    end in
  let '(int_part, int_count, after_int) := read_digits 0 0 cs in
  let leading_zero :=
    match cs with
    | "0"%char :: _ => (1 <? int_count)%nat
    | _ => false
    end in
  if (int_count =? 0)%nat || leading_zero then None
  else
    let fraction :=
      match after_int with
      | "."%char :: r =>
          match read_digits int_part 0 r with
          | (_, O, _) => None
          | (m, n, r') => Some (m, n, r')
          end
      | _ => Some (int_part, O, after_int)
      end in
    match fraction with
    | None => None
    | Some (mantissa, frac_count, after_frac) =>
        let exponent :=
          match after_frac with
          | e :: r =>
              if Ascii.eqb e "e" || Ascii.eqb e "E" then
                let '(exp_negative, r) :=
                  match r with
                  | "-"%char :: r' => (true, r')
                  | "+"%char :: r' => (false, r')
                  | _ => (false, r)
                  end in
                match read_digits 0 0 r with
                | (_, O, _) => None
                | (x, _, r') => Some (if exp_negative then (- x)%Z else x, r')
                end
              else Some (0%Z, after_frac)
          | [] => Some (0%Z, after_frac)
          end in
        match exponent with
        | None => None
        | Some (e, after) =>
            let magnitude :=
              (inject_Z mantissa * pow10 (e - Z.of_nat frac_count))%Q in
            Some (of_literal (if negative then (- magnitude)%Q else magnitude),
                  after)
        end
    end.

(** The literal [word] at the head of [cs]. *)
Fixpoint expect (word cs : list ascii) : option (list ascii) :=
  match word, cs with
  | [], _ => Some cs
  | w :: word', c :: cs' => if Ascii.eqb w c then expect word' cs' else None
  | _ :: _, [] => None
  end.

Fixpoint parse_value (fuel : nat) (cs : list ascii)
  : option (value * list ascii) :=
  match fuel with
  | O => None
  | S fuel =>
      match skip_space cs with
      | "{"%char :: rest =>
          match skip_space rest with
          | "}"%char :: rest' => Some (VObj [], rest')
          | _ =>
              match parse_members fuel [] rest with
              | Some (fields, rest') => Some (VObj fields, rest')
              | None => None
              end
          end
      | "["%char :: rest =>
          match skip_space rest with
          | "]"%char :: rest' => Some (VArr [], rest')
          | _ =>
              match parse_elements fuel [] rest with
              | Some (elems, rest') => Some (VArr elems, rest')
              | None => None
              end
          end
      | "t"%char :: rest =>
          match expect (list_ascii_of_string "rue") rest with
          | Some rest' => Some (VBool true, rest')
          | None => None
          end
      | "f"%char :: rest =>
          match expect (list_ascii_of_string "alse") rest with
          | Some rest' => Some (VBool false, rest')
          | None => None
          end
      | "n"%char :: rest =>
          match expect (list_ascii_of_string "ull") rest with
          | Some rest' => Some (VNull, rest')
          | None => None
          end
      | c :: rest =>
          if Ascii.eqb c dquote then
            match parse_string [] rest with
            | Some (s, rest') => Some (VStr s, rest')
            | None => None
            end
          else
            match parse_number (c :: rest) with
            | Some (n, rest') => Some (VNum n, rest')
            | None => None
            end
      | [] => None
      end
  end

(** The elements of an array after the opening bracket or a comma, up
    to the closing bracket. *)
with parse_elements (fuel : nat) (acc : list value) (cs : list ascii)
  : option (list value * list ascii) :=
  match fuel with
  | O => None
  | S fuel =>
      match parse_value fuel cs with
      | Some (v, rest) =>
          match skip_space rest with
          | ","%char :: rest' => parse_elements fuel (acc ++ [v]) rest'
          | "]"%char :: rest' => Some (acc ++ [v], rest')
          | _ => None
          end
      | None => None
      end
  end

(** The members of an object after the opening brace or a comma, up to
    the closing brace.  A repeated key keeps its first place and takes the last
    value. *)
with parse_members (fuel : nat) (acc : list (string * value)) (cs : list ascii)
  : option (list (string * value) * list ascii) :=
  match fuel with
  | O => None
  | S fuel =>
      match skip_space cs with
      | c :: rest =>
          if Ascii.eqb c dquote then
            match parse_string [] rest with
            | Some (k, rest') =>
                match skip_space rest' with
                | ":"%char :: rest'' =>
                    match parse_value fuel rest'' with
                    | Some (v, rest3) =>
                        match skip_space rest3 with
                        | ","%char :: rest4 =>
                            parse_members fuel (store_field k v acc) rest4
                        | "}"%char :: rest4 => Some (store_field k v acc, rest4)
                        | _ => None
                        end
                    | None => None
                    end
                | _ => None
                end
            | None => None
            end
          else None
      | [] => None
      end
  end.

(** [JSON.parse(text)]: one value, with nothing but white space after
    it; anything else is a [SyntaxError]. *)
Definition JSON_parse (text : string) : outcome value :=
  let cs := list_ascii_of_string text in
  match parse_value (2 * List.length cs + 2) cs with
  | Some (v, rest) =>
      match skip_space rest with
      | [] => Returned v
      | _ :: _ => Thrown (SyntaxError "Unexpected non-whitespace character after JSON")
      end
  | None => Thrown (SyntaxError "Unexpected token, not valid JSON")
  end.

End JSON.

(* ===================================================================== *)
(** * The Express API proxy: admission control and the dialog cache *)
(* ===================================================================== *)

Module Gateway.

Local Open Scope Z_scope.

(** What a route answers: [res.status(status).json(body)]; [res.json]
    alone answers with status 200. *)
Record response : Type := {
  status : Z;
  body : value;
}.

(** The generative backend, [model.generateContent(prompt)] followed by
    [result.response.text()]: the text of the completion, or an exception. *)
Definition backend : Type := string -> outcome string.

(** ** The rate limiter *)

Definition RATE_LIMIT_WINDOW : Z := 10000.
Definition MAX_REQUESTS : Z := 5.

(** A value of the [rateLimiter] map; times are [Date.now()] milliseconds. *)
Record windowData : Type := {
  count : Z;
  firstRequest : Z;
}.

(** A middleware either calls [next()] or answers the request itself. *)
Inductive middleware_result : Type :=
| Next
| Respond (r : response).

Definition rate_limited : response :=
  {| status := 429;
     body := VObj [("error", VStr "Rate limit exceeded. Try again shortly.")] |}.

(** [req.ip || 'unknown'] *)
Definition identity_of (ip : option string) : string :=
  match ip with
  | Some s => if String.eqb s "" then "unknown" else s
  | None => "unknown"
  end.

(** [rateLimit(req, res, next)] at time [now = Date.now()]. *)
Definition rateLimit (req_ip : option string) (now : Z)
  (rateLimiter : gmap string windowData)
  : gmap string windowData * middleware_result :=
  let ip := identity_of req_ip in
  let data := default {| count := 0; firstRequest := now |} (rateLimiter !! ip) in
  if now - firstRequest data >? RATE_LIMIT_WINDOW then
    (<[ip := {| count := 1; firstRequest := now |}]> rateLimiter, Next)
  else if count data >=? MAX_REQUESTS then
    (rateLimiter, Respond rate_limited)
  else
    (<[ip := {| count := count data + 1; firstRequest := firstRequest data |}]>
       rateLimiter,
     Next).

(** ** The NPC response cache, a [Map] in insertion order *)

Fixpoint Map_get (k : string) (m : list (string * string)) : option string :=
  match m with
  | [] => None
  | (k', v) :: rest => if String.eqb k k' then Some v else Map_get k rest
  end.

Definition Map_has (k : string) (m : list (string * string)) : bool :=
  match Map_get k m with Some _ => true | None => false end.

(** [m.set(k, v)]: a key the map has keeps its place; a new key goes last. *)
Fixpoint Map_set (k v : string) (m : list (string * string))
  : list (string * string) :=
  match m with
  | [] => [(k, v)]
  | (k', v') :: rest =>
      if String.eqb k k' then (k, v) :: rest else (k', v') :: Map_set k v rest
  end.

Fixpoint Map_delete (k : string) (m : list (string * string))
  : list (string * string) :=
  match m with
  | [] => []
  | (k', v') :: rest =>
      if String.eqb k k' then rest else (k', v') :: Map_delete k rest
  end.

Definition Map_size (m : list (string * string)) : Z :=
  Z.of_nat (List.length m).

(** [m.keys().next().value] *)
Definition Map_first_key (m : list (string * string)) : option string :=
  match m with
  | [] => None
  | (k, _) :: _ => Some k
  end.

Definition Map_keys (m : list (string * string)) : list string := map fst m.

(** ** POST /api/npc-dialog *)

(** The body of a dialog request: [{ prompt, cacheKey }], the cache key
    being the documented string, or absent. *)
Record dialogBody : Type := {
  prompt : value;
  cacheKey : option string;
}.

(** Truthiness of the cache key: absent and the empty string are falsy. *)
Definition key_truthy (k : option string) : bool :=
  match k with
  | Some s => negb (String.eqb s "")
  | None => false
  end.

Definition prompt_required : response :=
  {| status := 400; body := VObj [("error", VStr "Prompt is required")] |}.

Definition dialog_failed : response :=
  {| status := 500;
     body := VObj [("error", VStr "Failed to generate dialog");
                   ("dialog",
                    VStr "Mama mia! I seem to have lost my words. Try again!")] |}.

Definition dialog_response (dialog : string) (cached : bool) : response :=
  {| status := 200;
     body := VObj [("dialog", VStr dialog); ("cached", VBool cached)] |}.

(** The handler: the cache as it leaves it, its answer, and the prompts
    it sent to the backend. *)
Definition npc_dialog_handler (generate : backend) (req : dialogBody)
  (npcCache : list (string * string))
  : list (string * string) * response * list string :=
  if negb (truthy (prompt req))
     || negb (String.eqb (typeof (prompt req)) "string")
  then (npcCache, prompt_required, [])
  else
    let key := default "" (cacheKey req) in
    (* Check cache first *)
    if key_truthy (cacheKey req) && Map_has key npcCache
    then (npcCache, dialog_response (default "" (Map_get key npcCache)) true, [])
    else
      match generate (string_of (prompt req)) with
      | Thrown _ => (npcCache, dialog_failed, [string_of (prompt req)])
      | Returned text =>
          let dialog := trim text in
          (* Cache the response *)
          let npcCache :=
            if key_truthy (cacheKey req) then
              let npcCache := Map_set key dialog npcCache in
              (* Evict old entries if cache grows too large *)
              if Map_size npcCache >? 100 then
                match Map_first_key npcCache with
                | Some firstKey => Map_delete firstKey npcCache
                | None => npcCache
                end
              else npcCache
            else npcCache in
          (npcCache, dialog_response dialog false, [string_of (prompt req)])
      end.

(** ** POST /api/generate-level *)

(** [/```(?:json)?\s*([\s\S]*?)```/] *)
Definition fence_pattern : Regex.regex :=
  Regex.Cat [Regex.Lit "```"; Regex.Opt (Regex.Lit "json");
             Regex.Star Regex.white_space;
             Regex.Group (Regex.LazyStar Regex.any_char);
             Regex.Lit "```"].

(** The text handed to [JSON.parse]: the interior of the first fenced
    block when the completion has one, else the whole completion;
    trimmed. *)
Definition json_source (text : string) : string :=
  let jsonStr :=
    match Regex.exec fence_pattern false text with
    | Some (_, jsonMatch) =>
        string_of_list_ascii (default [] (Regex.group1 jsonMatch))
    | None => text
    end in
  trim jsonStr.

(** The extraction of the level path: fenced-block match, trim, parse. *)
Definition extract_level (text : string) : outcome value :=
  JSON.JSON_parse (json_source text).

(** A text wrapped as a fenced block tagged [json], on lines of its own. *)
Definition newline : string := String (ascii_of_nat 10) EmptyString.

Definition wrap_fenced (s : string) : string :=
  "```json" ++ newline ++ s ++ newline ++ "```".

(** Three backticks in a row, at the head of the text. *)
Definition starts_with_fence (cs : list ascii) : bool :=
  match cs with
  | c1 :: c2 :: c3 :: _ =>
      Ascii.eqb c1 "`" && Ascii.eqb c2 "`" && Ascii.eqb c3 "`"
  | _ => false
  end.

(** Three backticks in a row, somewhere in the text. *)
Fixpoint has_triple_backtick (cs : list ascii) : bool :=
  match cs with
  | [] => false
  | _ :: rest => starts_with_fence cs || has_triple_backtick rest
  end.

Definition prompt_too_long : response :=
  {| status := 400; body := VObj [("error", VStr "Prompt too long")] |}.

Definition level_failed : response :=
  {| status := 500;
     body := VObj [("error", VStr "Failed to generate level");
                   ("fallback", VBool true)] |}.

(** The handler: its answer and the prompts it sent to the backend. *)
Definition generate_level_handler (generate : backend) (prompt : value)
  : response * list string :=
  if negb (truthy prompt) || negb (String.eqb (typeof prompt) "string")
  then (prompt_required, [])
  else if (3000 <? String.length (string_of prompt))%nat
  then (prompt_too_long, [])
  else
    match generate (string_of prompt) with
    | Thrown _ => (level_failed, [string_of prompt])
    | Returned text =>
        match extract_level text with
        | Returned parsed =>
            ({| status := 200; body := VObj [("levelData", parsed)] |},
             [string_of prompt])
        | Thrown _ => (level_failed, [string_of prompt])
        end
    end.

(** ** The process-wide state and the routes *)

Record serverState : Type := {
  rateLimiter : gmap string windowData;
  npcCache : list (string * string);
}.

Definition initial_state : serverState :=
  {| rateLimiter := ∅; npcCache := [] |}.

(** [app.post(path, rateLimit, handler)]: the handler runs only when the
    middleware calls [next()].  A handler works on the cache and yields
    its answer and the prompts it sent to the backend. *)
Definition app_post
  (handler : list (string * string)
             -> list (string * string) * response * list string)
  (req_ip : option string) (now : Z) (st : serverState)
  : serverState * response * list string :=
  match rateLimit req_ip now (rateLimiter st) with
  | (limiter, Respond r) =>
      ({| rateLimiter := limiter; npcCache := npcCache st |}, r, [])
  | (limiter, Next) =>
      let '(cache, r, calls) := handler (npcCache st) in
      ({| rateLimiter := limiter; npcCache := cache |}, r, calls)
  end.

Definition post_generate_level (generate : backend) (prompt : value)
  : option string -> Z -> serverState -> serverState * response * list string :=
  app_post (fun cache =>
              let '(r, calls) := generate_level_handler generate prompt in
              (cache, r, calls)).

Definition post_npc_dialog (generate : backend) (req : dialogBody)
  : option string -> Z -> serverState -> serverState * response * list string :=
  app_post (npc_dialog_handler generate req).

(** A request to one of the two routes. *)
Inductive request : Type :=
| GenerateLevel (prompt : value)
| NpcDialog (body : dialogBody).

(** The server on one request: the backend as it would answer, the
    caller, the arrival time, the request. *)
Definition serve (event : backend * option string * Z * request)
  (st : serverState) : serverState * response * list string :=
  let '(generate, req_ip, now, req) := event in
  match req with
  | GenerateLevel prompt => post_generate_level generate prompt req_ip now st
  | NpcDialog body => post_npc_dialog generate body req_ip now st
  end.

(** The state after a sequence of requests. *)
Fixpoint serve_all (events : list (backend * option string * Z * request))
  (st : serverState) : serverState :=
  match events with
  | [] => st
  | event :: later => serve_all later (fst (fst (serve event st)))
  end.

(** The limiter alone, over the arrival times of one caller's requests. *)
Fixpoint rateLimit_all (req_ip : option string) (times : list Z)
  (limiter : gmap string windowData)
  : gmap string windowData * list middleware_result :=
  match times with
  | [] => (limiter, [])
  | now :: later =>
      let '(limiter, r) := rateLimit req_ip now limiter in
      let '(limiter, rs) := rateLimit_all req_ip later limiter in
      (limiter, r :: rs)
  end.

(** The dialog handler over a sequence of admitted requests, each with
    the backend that answers it. *)
Fixpoint npc_dialog_all (requests : list (backend * dialogBody))
  (cache : list (string * string)) : list (string * string) :=
  match requests with
  | [] => cache
  | (generate, req) :: later =>
      npc_dialog_all later (fst (fst (npc_dialog_handler generate req cache)))
  end.

End Gateway.

(* ===================================================================== *)
(** * JavaScript numbers and values, continued *)
(* ===================================================================== *)

(** [Math.trunc] of a finite number. *)
Definition Qtrunc (q : Q) : Z := Z.quot (Qnum q) (Zpos (Qden q)).

(** [a % b]: the remainder of the truncating division, which takes the
    sign of the dividend.  On doubles the operation is exact. *)
Definition num_rem (a b : num) : num :=
  match a, b with
  | Fin x, Fin y =>
      if Qeq_bool y 0 then NaN else Fin (x - y * inject_Z (Qtrunc (x / y)))
  | Fin x, PInf | Fin x, NInf => Fin x
  | _, _ => NaN
  end.

(** The integers from -2^53 to 2^53 are doubles, and a sum or a
    difference of two of them that lies in this range again is computed
    without rounding: on such operands [num_add] and [num_sub] are the
    code's [+] and [-]. *)
Definition exact_integer (z : Z) : Prop := (- 2 ^ 53 <= z <= 2 ^ 53)%Z.

(** The array index a number stands for as a property key: itself when
    it is a non-negative integer. *)
Definition index_of (n : num) : option nat :=
  match n with
  | Fin q =>
      if Qeq_bool q (inject_Z (Qtrunc q)) && Qle_bool 0 q
      then Some (Z.to_nat (Qtrunc q)) else None
  | _ => None
  end.

(** [elems[n]]: [undefined] unless [n] is an index within the array. *)
Definition js_index (elems : list value) (n : num) : value :=
  match index_of n with
  | Some i => default VUndefined (elems !! i)
  | None => VUndefined
  end.

(** [elems[n] = v] for an [n] that is an index within the array. *)
Definition js_assign (elems : list value) (n : num) (v : value) : list value :=
  match index_of n with
  | Some i => <[i := v]> elems
  | None => elems
  end.

(** One-character strings, as iterating a string yields them. *)
Definition chars_of (s : string) : list value :=
  map (fun c => VStr (String c EmptyString)) (list_ascii_of_string s).

(** [[...v]]: the elements of an array, the characters of a string;
    nothing else the model has is iterable. *)
Definition spread_array (v : value) : outcome (list value) :=
  match v with
  | VArr elems => Returned elems
  | VStr s => Returned (chars_of s)
  | _ => Thrown (TypeError "value is not iterable")
  end.

(** [{...v}]: the own enumerable properties of [v], in order.  Arrays and
    strings have their indices; the other primitives have none. *)
Definition spread_fields (v : value) : list (string * value) :=
  match v with
  | VObj fields => fields
  | VArr elems => imap (fun i e => (pretty i, e)) elems
  | VStr s => imap (fun i e => (pretty i, e)) (chars_of s)
  | _ => []
  end.

(* ===================================================================== *)
(** * src/game/ai/difficultyEngine.js: difficultyToDescription *)
(* ===================================================================== *)

Module DifficultyText.

Definition difficultyToDescription (difficulty : num) : string :=
  if num_le difficulty (Fin 2)
  then "very easy with wide platforms, few enemies, and short gaps"
  else if num_le difficulty (Fin 4)
  then "beginner-friendly with moderate platform spacing and a few patrolling enemies"
  else if num_le difficulty (Fin 6)
  then "moderate with narrower platforms, larger gaps, and enemies that chase the player"
  else if num_le difficulty (Fin 8)
  then "challenging with small platforms, long gaps, and aggressive enemies"
  else "extremely difficult with tiny platforms, maximum gaps, and many aggressive enemies".

End DifficultyText.

(* ===================================================================== *)
(** * src/game/ai/levelPrompt.js: getThemeForLevel *)
(* ===================================================================== *)

Module LevelPrompt.

Definition themes : list value :=
  [ VStr "Grassy plains with green platforms and blue sky";
    VStr "Underground cave with stone and brick platforms";
    VStr "Sky kingdom with floating platforms high above clouds";
    VStr "Desert canyon with stone platforms and wide gaps";
    VStr "Frost world with ice platforms (slippery!)";
    VStr "Lava castle with dangerous gaps and aggressive enemies" ].

(** [themes[(levelNumber - 1) % themes.length]]; the difference is the
    code's for the levels a double counts exactly ([exact_integer]). *)
Definition getThemeForLevel (levelNumber : num) : value :=
  js_index themes
    (num_rem (num_sub levelNumber (Fin 1))
             (ToNumber (prop (VArr themes) "length"))).

End LevelPrompt.

(* ===================================================================== *)
(** * src/stores/gameStore.js *)
(* ===================================================================== *)

(** The store holds the game state; an action hands [set] either a
    partial state or a function from the current state to one, and [set]
    merges what it gets into the state, field by field.  The fields have
    the types their JSDoc gives them; [levelData], [activeDialog] and the
    two vectors of the player are values as they come. *)

Module GameStore.

Record PlayerState : Type := {
  health : num;
  coins : num;
  score : num;
  position : value;
  velocity : value;
  isGrounded : bool;
  isInvincible : bool;
}.

Record GameState : Type := {
  phase : string;
  player : PlayerState;
  levelData : value;
  levelNumber : num;
  difficulty : num;
  deaths : num;
  completionTimes : list num;
  activeDialog : value;
  dialogHistory : list value;
  voiceTranscript : string;
  isListening : bool;
  levelStartTime : num;
}.

(** One property of a partial state. *)
Inductive field : Type :=
| Phase (v : string)
| Player (v : PlayerState)
| LevelData (v : value)
| LevelNumber (v : num)
| Difficulty (v : num)
| Deaths (v : num)
| CompletionTimes (v : list num)
| ActiveDialog (v : value)
| DialogHistory (v : list value)
| VoiceTranscript (v : string)
| IsListening (v : bool)
| LevelStartTime (v : num).

Definition assign (state : GameState) (f : field) : GameState :=
  let 'Build_GameState phase player levelData levelNumber difficulty deaths
         completionTimes activeDialog dialogHistory voiceTranscript
         isListening levelStartTime := state in
  match f with
  | Phase v =>
      Build_GameState v player levelData levelNumber difficulty deaths
        completionTimes activeDialog dialogHistory voiceTranscript
        isListening levelStartTime
  | Player v =>
      Build_GameState phase v levelData levelNumber difficulty deaths
        completionTimes activeDialog dialogHistory voiceTranscript
        isListening levelStartTime
  | LevelData v =>
      Build_GameState phase player v levelNumber difficulty deaths
        completionTimes activeDialog dialogHistory voiceTranscript
        isListening levelStartTime
  | LevelNumber v =>
      Build_GameState phase player levelData v difficulty deaths
        completionTimes activeDialog dialogHistory voiceTranscript
        isListening levelStartTime
  | Difficulty v =>
      Build_GameState phase player levelData levelNumber v deaths
        completionTimes activeDialog dialogHistory voiceTranscript
        isListening levelStartTime
  | Deaths v =>
      Build_GameState phase player levelData levelNumber difficulty v
        completionTimes activeDialog dialogHistory voiceTranscript
        isListening levelStartTime
  | CompletionTimes v =>
      Build_GameState phase player levelData levelNumber difficulty deaths
        v activeDialog dialogHistory voiceTranscript
        isListening levelStartTime
  | ActiveDialog v =>
      Build_GameState phase player levelData levelNumber difficulty deaths
        completionTimes v dialogHistory voiceTranscript
        isListening levelStartTime
  | DialogHistory v =>
      Build_GameState phase player levelData levelNumber difficulty deaths
        completionTimes activeDialog v voiceTranscript
        isListening levelStartTime
  | VoiceTranscript v =>
      Build_GameState phase player levelData levelNumber difficulty deaths
        completionTimes activeDialog dialogHistory v
        isListening levelStartTime
  | IsListening v =>
      Build_GameState phase player levelData levelNumber difficulty deaths
        completionTimes activeDialog dialogHistory voiceTranscript
        v levelStartTime
  | LevelStartTime v =>
      Build_GameState phase player levelData levelNumber difficulty deaths
        completionTimes activeDialog dialogHistory voiceTranscript
        isListening v
  end.

(** [set(partial)]: the properties of [partial] replace those of the
    state, the others stay. *)
Definition set (partial : list field) (state : GameState) : GameState :=
  fold_left assign partial state.

(** The state itself as a partial state, for the actions that
    [return state]. *)
Definition whole (state : GameState) : list field :=
  [ Phase (phase state); Player (player state); LevelData (levelData state);
    LevelNumber (levelNumber state); Difficulty (difficulty state);
    Deaths (deaths state); CompletionTimes (completionTimes state);
    ActiveDialog (activeDialog state); DialogHistory (dialogHistory state);
    VoiceTranscript (voiceTranscript state); IsListening (isListening state);
    LevelStartTime (levelStartTime state) ].

(** ** DEFAULT_LEVEL *)

Definition platform (x y z width height depth : num) (type : string) : value :=
  VObj [("x", VNum x); ("y", VNum y); ("z", VNum z); ("width", VNum width);
        ("height", VNum height); ("depth", VNum depth); ("type", VStr type)].

Definition coin (x y z : num) (collected : bool) : value :=
  VObj [("x", VNum x); ("y", VNum y); ("z", VNum z);
        ("collected", VBool collected)].

Definition enemy (x y z : num) (type behavior : string) : value :=
  VObj [("x", VNum x); ("y", VNum y); ("z", VNum z);
        ("type", VStr type); ("behavior", VStr behavior)].

Definition point (x y z : num) : value :=
  VObj [("x", VNum x); ("y", VNum y); ("z", VNum z)].

Definition DEFAULT_LEVEL : value :=
  VObj [
    ("platforms", VArr [
       platform 0 (-1) 0 20 1 4 "grass";
       platform 25 (-1) 0 8 1 4 "grass";
       platform 15 2 0 4 0.5 4 "brick";
       platform 20 4 0 3 0.5 4 "brick";
       platform 35 (-1) 0 6 1 4 "grass";
       platform 30 2 0 3 0.5 4 "stone";
       platform 45 (-1) 0 10 1 4 "grass";
       platform 42 1.5 0 2 0.5 4 "brick";
       platform 55 (-1) 0 15 1 4 "grass";
       platform 52 3 0 3 0.5 4 "brick";
       platform 58 5 0 3 0.5 4 "stone";
       platform 70 (-1) 0 20 1 4 "grass" ]);
    ("coins", VArr [
       coin 3 1 0 false; coin 5 1 0 false; coin 7 1 0 false;
       coin 15 4 0 false; coin 20 6 0 false; coin 26 1 0 false;
       coin 28 1 0 false; coin 30 4 0 false; coin 37 1 0 false;
       coin 45 1 0 false; coin 47 1 0 false; coin 52 5 0 false;
       coin 58 7 0 false; coin 72 1 0 false; coin 75 1 0 false ]);
    ("enemies", VArr [
       enemy 12 0.5 0 "goomba" "patrol";
       enemy 33 0.5 0 "goomba" "patrol";
       enemy 48 0.5 0 "koopa" "chase";
       enemy 65 0.5 0 "goomba" "patrol";
       enemy 73 0.5 0 "koopa" "chase" ]);
    ("difficulty", VNum 1);
    ("spawnPoint", point 0 2 0);
    ("goalPosition", point 80 0 0) ].

(** ** The state the store is created with *)

Definition vector (x y z : num) : value := VArr [VNum x; VNum y; VNum z].

Definition initial_state : GameState :=
  {| phase := "menu";
     player := {| health := 3; coins := 0; score := 0;
                  position := vector 0 2 0; velocity := vector 0 0 0;
                  isGrounded := false; isInvincible := false |};
     levelData := DEFAULT_LEVEL;
     levelNumber := 1;
     difficulty := 1;
     deaths := 0;
     completionTimes := [];
     activeDialog := VNull;
     dialogHistory := [];
     voiceTranscript := "";
     isListening := false;
     levelStartTime := 0 |}.

(** ** The actions *)

Definition setPhase (phase : string) : GameState -> GameState :=
  set [Phase phase].

Definition setPlayerPosition (pos : value) (state : GameState) : GameState :=
  set [Player {| health := health (player state);
                 coins := coins (player state);
                 score := score (player state);
                 position := pos;
                 velocity := velocity (player state);
                 isGrounded := isGrounded (player state);
                 isInvincible := isInvincible (player state) |}] state.

Definition setPlayerVelocity (vel : value) (state : GameState) : GameState :=
  set [Player {| health := health (player state);
                 coins := coins (player state);
                 score := score (player state);
                 position := position (player state);
                 velocity := vel;
                 isGrounded := isGrounded (player state);
                 isInvincible := isInvincible (player state) |}] state.

Definition setPlayerGrounded (grounded : bool) (state : GameState) : GameState :=
  set [Player {| health := health (player state);
                 coins := coins (player state);
                 score := score (player state);
                 position := position (player state);
                 velocity := velocity (player state);
                 isGrounded := grounded;
                 isInvincible := isInvincible (player state) |}] state.

(** [collectCoin(coinIndex)].  The callback raises when [levelData] has
    no iterable [coins]; [set] then never runs.  The two sums are the
    code's while the counters are integers a double counts exactly
    ([exact_integer]). *)
Definition collectCoin (coinIndex : num) (state : GameState)
  : outcome GameState :=
  coins_ ← getProp (levelData state) "coins";
  newCoins ← spread_array coins_;
  if truthy (js_index newCoins coinIndex)
     && negb (truthy (prop (js_index newCoins coinIndex) "collected"))
  then
    let newCoins :=
      js_assign newCoins coinIndex
        (VObj (store_field "collected" (VBool true)
                 (spread_fields (js_index newCoins coinIndex)))) in
    mret (set [ Player {| health := health (player state);
                          coins := num_add (coins (player state)) 1;
                          score := num_add (score (player state)) 100;
                          position := position (player state);
                          velocity := velocity (player state);
                          isGrounded := isGrounded (player state);
                          isInvincible := isInvincible (player state) |};
                LevelData (VObj (store_field "coins" (VArr newCoins)
                                   (spread_fields (levelData state)))) ]
              state)
  else mret (set (whole state) state).

Definition takeDamage (state : GameState) : GameState :=
  if isInvincible (player state) then set (whole state) state
  else
    let newHealth := num_sub (health (player state)) 1 in
    if num_le newHealth 0 then
      set [ Player {| health := 0;
                      coins := coins (player state);
                      score := score (player state);
                      position := position (player state);
                      velocity := velocity (player state);
                      isGrounded := isGrounded (player state);
                      isInvincible := isInvincible (player state) |};
            Phase "gameover" ] state
    else
      set [ Player {| health := newHealth;
                      coins := coins (player state);
                      score := score (player state);
                      position := position (player state);
                      velocity := velocity (player state);
                      isGrounded := isGrounded (player state);
                      isInvincible := true |} ] state.

Definition clearInvincibility (state : GameState) : GameState :=
  set [Player {| health := health (player state);
                 coins := coins (player state);
                 score := score (player state);
                 position := position (player state);
                 velocity := velocity (player state);
                 isGrounded := isGrounded (player state);
                 isInvincible := false |}] state.

Definition setLevelData (data : value) : GameState -> GameState :=
  set [LevelData data].

Definition incrementDeaths (state : GameState) : GameState :=
  set [Deaths (num_add (deaths state) 1)] state.

Definition addCompletionTime (time : num) (state : GameState) : GameState :=
  set [CompletionTimes (completionTimes state ++ [time])] state.

Definition setDifficulty (d : num) : GameState -> GameState :=
  set [Difficulty (Math_min 10 (Math_max 1 d))].

Definition setActiveDialog (dialog : value) : GameState -> GameState :=
  set [ActiveDialog dialog].

Definition addDialogEntry (entry : value) (state : GameState) : GameState :=
  set [DialogHistory (dialogHistory state ++ [entry])] state.

Definition setVoiceTranscript (t : string) : GameState -> GameState :=
  set [VoiceTranscript t].

Definition setIsListening (l : bool) : GameState -> GameState :=
  set [IsListening l].

Definition setLevelStartTime (t : num) : GameState -> GameState :=
  set [LevelStartTime t].

(** [resetGame()] at time [now = Date.now()]. *)
Definition resetGame (now : Z) : GameState -> GameState :=
  set [ Phase "playing";
        Player {| health := 3; coins := 0; score := 0;
                  position :=
                    (if truthy (prop DEFAULT_LEVEL "spawnPoint")
                     then VArr [prop (prop DEFAULT_LEVEL "spawnPoint") "x";
                                prop (prop DEFAULT_LEVEL "spawnPoint") "y";
                                prop (prop DEFAULT_LEVEL "spawnPoint") "z"]
                     else vector 0 2 0);
                  velocity := vector 0 0 0;
                  isGrounded := false; isInvincible := false |};
        LevelData DEFAULT_LEVEL;
        LevelNumber 1;
        Difficulty 1;
        Deaths 0;
        CompletionTimes [];
        ActiveDialog VNull;
        DialogHistory [];
        LevelStartTime (Fin (inject_Z now)) ].

(** [startGame()] at time [now = Date.now()]. *)
Definition startGame (now : Z) : GameState -> GameState :=
  set [ Phase "playing";
        LevelStartTime (Fin (inject_Z now));
        Player {| health := 3; coins := 0; score := 0;
                  position := vector 0 2 0; velocity := vector 0 0 0;
                  isGrounded := false; isInvincible := false |} ].

Definition nextLevel (state : GameState) : GameState :=
  set [Phase "loading"; LevelNumber (num_add (levelNumber state) 1)] state.

(** ** The store over a sequence of calls *)

Inductive action : Type :=
| SetPhase (phase : string)
| SetPlayerPosition (pos : value)
| SetPlayerVelocity (vel : value)
| SetPlayerGrounded (grounded : bool)
| CollectCoin (coinIndex : num)
| TakeDamage
| ClearInvincibility
| SetLevelData (data : value)
| IncrementDeaths
| AddCompletionTime (time : num)
| SetDifficulty (d : num)
| SetActiveDialog (dialog : value)
| AddDialogEntry (entry : value)
| SetVoiceTranscript (t : string)
| SetIsListening (l : bool)
| SetLevelStartTime (t : num)
| ResetGame (now : Z)
| StartGame (now : Z)
| NextLevel.

(** One call.  An action that raises leaves the state as it was. *)
Definition dispatch (state : GameState) (a : action) : GameState :=
  match a with
  | SetPhase phase => setPhase phase state
  | SetPlayerPosition pos => setPlayerPosition pos state
  | SetPlayerVelocity vel => setPlayerVelocity vel state
  | SetPlayerGrounded grounded => setPlayerGrounded grounded state
  | CollectCoin coinIndex =>
      match collectCoin coinIndex state with
      | Returned state' => state'
      | Thrown _ => state
      end
  | TakeDamage => takeDamage state
  | ClearInvincibility => clearInvincibility state
  | SetLevelData data => setLevelData data state
  | IncrementDeaths => incrementDeaths state
  | AddCompletionTime time => addCompletionTime time state
  | SetDifficulty d => setDifficulty d state
  | SetActiveDialog dialog => setActiveDialog dialog state
  | AddDialogEntry entry => addDialogEntry entry state
  | SetVoiceTranscript t => setVoiceTranscript t state
  | SetIsListening l => setIsListening l state
  | SetLevelStartTime t => setLevelStartTime t state
  | ResetGame now => resetGame now state
  | StartGame now => startGame now state
  | NextLevel => nextLevel state
  end.

Definition run (actions : list action) (state : GameState) : GameState :=
  fold_left dispatch actions state.

End GameStore.

(* ===================================================================== *)
(** * The Express API proxy with requests in flight *)
(* ===================================================================== *)

(** An [async] handler runs without interruption from its start to its
    [await], and again from there once the backend has settled; in
    between, the server goes on with other requests.  The dialog handler
    is cut here at its one [await]; [Gateway.npc_dialog_handler] is the
    two parts run back to back. *)

Module GatewayAsync.
Import Gateway.

Local Open Scope Z_scope.

(** Where the handler stands when it first yields: it has answered, or
    it has sent [sent] to the backend and waits, holding its [cacheKey]. *)
Inductive progress : Type :=
| Answered (r : response)
| Awaiting (sent : string) (key : option string).

(** The handler from its start to [await model.generateContent(prompt)]. *)
Definition npc_dialog_start (req : dialogBody)
  (npcCache : list (string * string)) : progress :=
  if negb (truthy (prompt req))
     || negb (String.eqb (typeof (prompt req)) "string")
  then Answered prompt_required
  else
    let key := default "" (cacheKey req) in
    (* Check cache first *)
    if key_truthy (cacheKey req) && Map_has key npcCache
    then Answered (dialog_response (default "" (Map_get key npcCache)) true)
    else Awaiting (string_of (prompt req)) (cacheKey req).

(** The handler from the [await] on, with what the backend settled to,
    on the cache as it is by then. *)
Definition npc_dialog_resume (cacheKey : option string)
  (result : outcome string) (npcCache : list (string * string))
  : list (string * string) * response :=
  match result with
  | Thrown _ => (npcCache, dialog_failed)
  | Returned text =>
      let dialog := trim text in
      (* Cache the response *)
      let npcCache :=
        if key_truthy cacheKey then
          let npcCache := Map_set (default "" cacheKey) dialog npcCache in
          (* Evict old entries if cache grows too large *)
          if Map_size npcCache >? 100 then
            match Map_first_key npcCache with
            | Some firstKey => Map_delete firstKey npcCache
            | None => npcCache
            end
          else npcCache
        else npcCache in
      (npcCache, dialog_response dialog false)
  end.

(** The process-wide state, and the cache keys of the dialog requests
    that wait for the backend, oldest first. *)
Record state : Type := {
  server : serverState;
  inFlight : list (option string);
}.

Definition initial : state :=
  {| server := initial_state; inFlight := [] |}.

(** What the event loop runs, one at a time: a request arrives, or the
    backend settles for the [i]-th of the requests in flight.  The level
    handler reads and writes nothing the requests share, so a level
    request is served whole. *)
Inductive event : Type :=
| LevelRequest (generate : backend) (req_ip : option string) (now : Z)
    (prompt : value)
| DialogArrives (req_ip : option string) (now : Z) (body : dialogBody)
| DialogSettles (i : nat) (result : outcome string).

(** One turn of the event loop: the state it leaves and the response it
    sends, if it sends one. *)
Definition step (ev : event) (st : state) : state * option response :=
  match ev with
  | LevelRequest generate req_ip now prompt =>
      let '(server, r, _) :=
        post_generate_level generate prompt req_ip now (server st) in
      ({| server := server; inFlight := inFlight st |}, Some r)
  | DialogArrives req_ip now body =>
      match rateLimit req_ip now (rateLimiter (server st)) with
      | (limiter, Respond r) =>
          ({| server := {| rateLimiter := limiter;
                           npcCache := npcCache (server st) |};
              inFlight := inFlight st |}, Some r)
      | (limiter, Next) =>
          match npc_dialog_start body (npcCache (server st)) with
          | Answered r =>
              ({| server := {| rateLimiter := limiter;
                               npcCache := npcCache (server st) |};
                  inFlight := inFlight st |}, Some r)
          | Awaiting _ key =>
              ({| server := {| rateLimiter := limiter;
                               npcCache := npcCache (server st) |};
                  inFlight := inFlight st ++ [key] |}, None)
          end
      end
  | DialogSettles i result =>
      match inFlight st !! i with
      | None => (st, None)
      | Some key =>
          let '(cache, r) :=
            npc_dialog_resume key result (npcCache (server st)) in
          ({| server := {| rateLimiter := rateLimiter (server st);
                           npcCache := cache |};
              inFlight := delete i (inFlight st) |}, Some r)
      end
  end.

(** The state after a sequence of turns. *)
Definition run (events : list event) (st : state) : state :=
  fold_left (fun st ev => fst (step ev st)) events st.

End GatewayAsync.

(* ===================================================================== *)
(** * PART II: properties *)
(* ===================================================================== *)

(* ===================================================================== *)
(** * Facts about numbers *)
(* ===================================================================== *)

Lemma Qlt_bool_iff (a b : Q) : Qlt_bool a b = true <-> a < b.
Proof.
  unfold Qlt_bool. rewrite negb_true_iff, <- not_true_iff_false, Qle_bool_iff.
  split; [apply Qnot_le_lt | apply Qlt_not_le].
Qed.

Lemma Qlt_bool_false (a b : Q) : Qlt_bool a b = false <-> b <= a.
Proof.
  unfold Qlt_bool. rewrite negb_false_iff. apply Qle_bool_iff.
Qed.

Lemma Qle_bool_false (a b : Q) : Qle_bool a b = false <-> b < a.
Proof.
  rewrite <- not_true_iff_false, Qle_bool_iff.
  split; [apply Qnot_le_lt | apply Qlt_not_le].
Qed.

Lemma Qeq_bool_false (a b : Q) : Qeq_bool a b = false <-> ~ a == b.
Proof.
  rewrite <- not_true_iff_false, Qeq_bool_iff. reflexivity.
Qed.

(** Turn every boolean comparison of rationals, in the goal and in the
    hypotheses, into the proposition it decides. *)
Ltac q2p :=
  repeat match goal with
  | H : Qlt_bool _ _ = true |- _ => apply Qlt_bool_iff in H
  | H : Qlt_bool _ _ = false |- _ => apply Qlt_bool_false in H
  | H : Qle_bool _ _ = true |- _ => apply Qle_bool_iff in H
  | H : Qle_bool _ _ = false |- _ => apply Qle_bool_false in H
  | H : Qeq_bool _ _ = true |- _ => apply Qeq_bool_iff in H
  | H : Qeq_bool _ _ = false |- _ => apply Qeq_bool_false in H
  | |- Qlt_bool _ _ = true => apply Qlt_bool_iff
  | |- Qlt_bool _ _ = false => apply Qlt_bool_false
  | |- Qle_bool _ _ = true => apply Qle_bool_iff
  | |- Qle_bool _ _ = false => apply Qle_bool_false
  | |- Qeq_bool _ _ = true => apply Qeq_bool_iff
  | |- Qeq_bool _ _ = false => apply Qeq_bool_false
  end.

(** Case analysis on every comparison of rationals the goal still tests. *)
Ltac qcases :=
  repeat match goal with
  | |- context [Qlt_bool ?a ?b] => destruct (Qlt_bool a b) eqn:?; simpl
  | |- context [Qle_bool ?a ?b] => destruct (Qle_bool a b) eqn:?; simpl
  | |- context [Qeq_bool ?a ?b] => destruct (Qeq_bool a b) eqn:?; simpl
  end.

(** Open the comparisons on numbers, wherever they stand. *)
Ltac num_unfold :=
  cbv beta iota delta [num_lt num_le num_gt num_ge num_eq Math_max Math_min
                       is_nan] in *.

Lemma num_le_refl (a : num) : is_nan a = false -> num_le a a = true.
Proof. destruct a; num_unfold; try easy. intros _. q2p. lra. Qed.

Lemma num_le_trans (a b c : num) :
  num_le a b = true -> num_le b c = true -> num_le a c = true.
Proof. destruct a, b, c; num_unfold; try easy. intros. q2p. lra. Qed.

Lemma num_lt_le (a b : num) : num_lt a b = true -> num_le a b = true.
Proof. destruct a, b; num_unfold; try easy. intros. q2p. lra. Qed.

Lemma num_lt_false_le (a b : num) :
  is_nan a = false -> is_nan b = false ->
  num_lt a b = false -> num_le b a = true.
Proof. destruct a, b; num_unfold; try easy. intros. q2p. lra. Qed.

Lemma Qdiv_le_mono (a b m : Q) : 0 < m -> a <= b -> a / m <= b / m.
Proof.
  intros Hm Hab. apply Qmult_le_compat_r; [exact Hab|].
  apply Qlt_le_weak, Qinv_lt_0_compat, Hm.
Qed.

Lemma Qdiv_lt_bound (a m c : Q) : 0 < m -> (a / m < c <-> a < c * m).
Proof.
  intros Hm.
  assert (E : a / m * m == a) by (field; lra).
  split; intros H.
  - apply (Qmult_lt_compat_r _ _ m) in H; [|exact Hm]. lra.
  - apply Qlt_shift_div_r; [exact Hm|exact H].
Qed.

Lemma Qdiv_gt_bound (a m c : Q) : 0 < m -> (c < a / m <-> c * m < a).
Proof.
  intros Hm.
  assert (E : a / m * m == a) by (field; lra).
  split; intros H.
  - apply (Qmult_lt_compat_r _ _ m) in H; [|exact Hm]. lra.
  - apply Qlt_shift_div_l; [exact Hm|exact H].
Qed.

(* ===================================================================== *)
(** * The difficulty controller *)
(* ===================================================================== *)

Module DifficultyProps.
Import DifficultyEngine.

(** [calculateNextDifficulty] is the clamp of the current difficulty plus
    the sum of the three factors. *)
Lemma calculateNextDifficulty_factors (s : PerformanceStats) :
  calculateNextDifficulty s =
  clamp (num_add (default (Fin 1) (currentDifficulty s))
           (Fin (deathsFactor (default (Fin 0) (deaths s))
                 + paceFactor (timePerPlatform_of
                                 (default (Fin 60) (completionTime s))
                                 (default (Fin 1) (currentDifficulty s)))
                 + coinFactor (coinRatio_of
                                 (default (Fin 0) (coinsCollected s))
                                 (default (Fin 1) (totalCoins s)))))).
Proof.
  unfold calculateNextDifficulty, clamp, deathsFactor, paceFactor, coinFactor,
    timePerPlatform_of, coinRatio_of.
  generalize (num_div (default (Fin 60) (completionTime s))
                (Math_max (Fin 1)
                   (num_mul (default (Fin 1) (currentDifficulty s)) (Fin 3))));
    intros tpp.
  generalize (if num_gt (default (Fin 1) (totalCoins s)) (Fin 0)
              then num_div (default (Fin 0) (coinsCollected s))
                           (default (Fin 1) (totalCoins s))
              else Fin 0); intros ratio.
  generalize (default (Fin 0) (deaths s)); intros d.
  generalize (default (Fin 1) (currentDifficulty s)); intros cd.
  destruct (num_ge d (Fin 5)); [|destruct (num_ge d (Fin 3)); [|destruct (num_eq d (Fin 0))]];
    (destruct (num_lt tpp (Fin 3)); [|destruct (num_gt tpp (Fin 10))]);
    (destruct (num_gt ratio (Fin 0.9)); [|destruct (num_lt ratio (Fin 0.3))]);
    destruct cd; reflexivity.
Qed.

Lemma clamp_in_range (v : num) :
  is_nan v = false -> in_range (clamp v) = true.
Proof.
  unfold in_range, clamp, LEVEL.MIN_DIFFICULTY, LEVEL.MAX_DIFFICULTY.
  destruct v as [| | |q]; num_unfold; simpl; try easy. intros _.
  qcases; try reflexivity; exfalso; q2p; lra.
Qed.

Lemma clamp_mono (a b : num) :
  num_le a b = true -> num_le (clamp a) (clamp b) = true.
Proof.
  unfold clamp, LEVEL.MIN_DIFFICULTY, LEVEL.MAX_DIFFICULTY.
  destruct a as [| | |x], b as [| | |y]; num_unfold; simpl; try easy;
    intros H; qcases; try reflexivity; exfalso; q2p; lra.
Qed.

Lemma num_add_mono_r (c : num) (x y : Q) :
  is_nan c = false -> x <= y ->
  num_le (num_add c (Fin x)) (num_add c (Fin y)) = true.
Proof.
  destruct c; num_unfold; simpl; try easy. intros _ H. q2p. lra.
Qed.

Lemma num_add_fin_not_nan (c : num) (x : Q) :
  is_nan c = false -> is_nan (num_add c (Fin x)) = false.
Proof. destruct c; simpl; easy. Qed.

(** More deaths never raise the deaths factor, from zero deaths on. *)
Lemma deathsFactor_antitone (d1 d2 : num) :
  num_le (Fin 0) d1 = true -> num_le d1 d2 = true ->
  deathsFactor d2 <= deathsFactor d1.
Proof.
  unfold deathsFactor.
  destruct d1 as [| | |x], d2 as [| | |y]; num_unfold; simpl; try easy;
    intros H0 H; qcases; q2p; lra.
Qed.

Lemma paceFactor_antitone (t1 t2 : num) :
  num_le t1 t2 = true -> paceFactor t2 <= paceFactor t1.
Proof.
  unfold paceFactor.
  destruct t1 as [| | |x], t2 as [| | |y]; num_unfold; simpl; try easy;
    intros H; qcases; q2p; lra.
Qed.

Lemma coinFactor_monotone (r1 r2 : num) :
  num_le r1 r2 = true -> coinFactor r1 <= coinFactor r2.
Proof.
  unfold coinFactor.
  destruct r1 as [| | |x], r2 as [| | |y]; num_unfold; simpl; try easy;
    intros H; qcases; q2p; lra.
Qed.

(** Dividing by a finite positive number keeps the order. *)
Lemma num_div_mono_l (a b : num) (m : Q) :
  0 < m -> num_le a b = true ->
  num_le (num_div a (Fin m)) (num_div b (Fin m)) = true.
Proof.
  intros Hm.
  assert (Em : Qeq_bool m 0 = false) by (q2p; lra).
  assert (Hs : Qlt_bool 0 m = true) by (q2p; lra).
  destruct a as [| | |x], b as [| | |y]; num_unfold; simpl; try easy;
    rewrite ?Em, ?Hs; simpl; try easy.
  intros H. q2p. apply Qdiv_le_mono; assumption.
Qed.

(** The divisor of the pace factor is a finite number, at least 1, unless
    the current difficulty is NaN or +Infinity. *)
Lemma pace_divisor (c : num) :
  is_nan c = false -> c <> PInf ->
  exists m : Q, Math_max (Fin 1) (num_mul c (Fin 3)) = Fin m /\ 0 < m.
Proof.
  destruct c as [| | |x]; num_unfold; simpl; try easy; intros _ _.
  - exists 1. split; [reflexivity|lra].
  - destruct (Qlt_bool 1 (x * 3)) eqn:H.
    + exists (x * 3). split; [reflexivity|]. q2p. lra.
    + exists 1. split; [reflexivity|lra].
Qed.

Lemma clamp_add_mono (c : num) (x y : Q) :
  is_nan c = false -> x <= y ->
  num_le (clamp (num_add c (Fin x))) (clamp (num_add c (Fin y))) = true.
Proof.
  intros Hc Hxy. apply clamp_mono, num_add_mono_r; assumption.
Qed.

Lemma default_not_nan (s : PerformanceStats) :
  currentDifficulty_is_nan s = false ->
  is_nan (default (Fin 1) (currentDifficulty s)) = false.
Proof.
  unfold currentDifficulty_is_nan. destruct (currentDifficulty s); simpl; easy.
Qed.

(** A NaN current difficulty comes back as NaN, whatever the other stats. *)
Lemma calculateNextDifficulty_nan (s : PerformanceStats) :
  currentDifficulty s = Some NaN -> calculateNextDifficulty s = NaN.
Proof.
  intros H. rewrite calculateNextDifficulty_factors, H. reflexivity.
Qed.

Definition stats_level5 : PerformanceStats :=
  {| deaths := None; completionTime := None; coinsCollected := None;
     totalCoins := None; currentDifficulty := Some (Fin 5) |}.

Definition stats_nan : PerformanceStats :=
  {| deaths := Some (Fin 0); completionTime := Some (Fin 60);
     coinsCollected := Some (Fin 0); totalCoins := Some (Fin 1);
     currentDifficulty := Some NaN |}.

Definition stats_unbounded_coins : PerformanceStats :=
  {| deaths := None; completionTime := None; coinsCollected := None;
     totalCoins := Some PInf; currentDifficulty := Some (Fin 5) |}.

(** C4, as the code has it.  For a current difficulty that is not NaN the
    result lies in [[1,10]]; and, the other fields held fixed, the result
    does not increase with deaths (from zero deaths on), does not increase
    with the completion time, and does not decrease with the coins
    collected when the total of coins is a finite positive number. *)
Theorem nextDifficulty_range_and_monotone (s : PerformanceStats) :
  currentDifficulty_is_nan s = false ->
  in_range (calculateNextDifficulty s) = true
  /\ (forall d1 d2 : num,
        num_le (Fin 0) d1 = true -> num_le d1 d2 = true ->
        num_le (calculateNextDifficulty (with_deaths s d2))
               (calculateNextDifficulty (with_deaths s d1)) = true)
  /\ (forall t1 t2 : num,
        num_le t1 t2 = true ->
        num_le (calculateNextDifficulty (with_completionTime s t2))
               (calculateNextDifficulty (with_completionTime s t1)) = true)
  /\ (totalCoins_finite_positive s = true ->
      forall c1 c2 : num,
        num_le c1 c2 = true ->
        num_le (calculateNextDifficulty (with_coinsCollected s c1))
               (calculateNextDifficulty (with_coinsCollected s c2)) = true).
Proof.
  intros Hnan. pose proof (default_not_nan s Hnan) as Hcd.
  repeat split.
  - rewrite calculateNextDifficulty_factors.
    apply clamp_in_range, num_add_fin_not_nan, Hcd.
  - intros d1 d2 H0 H. rewrite !calculateNextDifficulty_factors. simpl.
    apply clamp_add_mono; [exact Hcd|].
    pose proof (deathsFactor_antitone d1 d2 H0 H). lra.
  - intros t1 t2 H. rewrite !calculateNextDifficulty_factors. simpl.
    destruct (default (Fin 1) (currentDifficulty s)) as [| | |c] eqn:Ec;
      try discriminate Hcd.
    + reflexivity.
    + apply clamp_add_mono; [reflexivity|].
      pose proof (paceFactor_antitone _ _
                    (num_div_mono_l t1 t2 1 ltac:(lra) H)) as Hp.
      unfold timePerPlatform_of. change (Math_max (Fin 1) (num_mul NInf (Fin 3)))
        with (Fin 1). lra.
    + destruct (pace_divisor (Fin c) eq_refl ltac:(discriminate)) as [m [Em Hm]].
      apply clamp_add_mono; [reflexivity|].
      unfold timePerPlatform_of. rewrite Em.
      pose proof (paceFactor_antitone _ _ (num_div_mono_l t1 t2 m Hm H)). lra.
  - intros Htc c1 c2 H. rewrite !calculateNextDifficulty_factors. simpl.
    apply clamp_add_mono; [exact Hcd|].
    assert (Hq : exists q, default (Fin 1) (totalCoins s) = Fin q /\ 0 < q).
    { unfold totalCoins_finite_positive in Htc.
      destruct (totalCoins s) as [[| | |q]|]; try discriminate Htc; simpl.
      - exists q. split; [reflexivity|]. q2p. exact Htc.
      - exists 1. split; [reflexivity|lra]. }
    destruct Hq as [q [Eq Hq]]. rewrite Eq. unfold coinRatio_of, num_gt, num_lt.
    assert (Hs : Qlt_bool 0 q = true) by (q2p; exact Hq). rewrite Hs.
    pose proof (coinFactor_monotone _ _ (num_div_mono_l c1 c2 q Hq H)). lra.
Qed.

(** The theorem at level 5: the result is in range, two deaths give no
    more than one, a minute gives no more than a second, and nine coins
    of ten give no less than one of ten. *)
Lemma nextDifficulty_range_and_monotone_witness :
  in_range (calculateNextDifficulty stats_level5) = true
  /\ num_le (calculateNextDifficulty (with_deaths stats_level5 (Fin 2)))
            (calculateNextDifficulty (with_deaths stats_level5 (Fin 1))) = true
  /\ num_le (calculateNextDifficulty (with_completionTime stats_level5 (Fin 60)))
            (calculateNextDifficulty (with_completionTime stats_level5 (Fin 1))) = true
  /\ num_le (calculateNextDifficulty (with_coinsCollected stats_level5 (Fin 0)))
            (calculateNextDifficulty (with_coinsCollected stats_level5 (Fin 1))) = true.
Proof.
  destruct (nextDifficulty_range_and_monotone stats_level5 eq_refl)
    as [Hr [Hd [Ht Hc]]].
  split; [exact Hr|]. split; [apply Hd; reflexivity|].
  split; [apply Ht; reflexivity|]. apply Hc; reflexivity.
Defined.

(** C4 as stated fails at three inputs: a NaN current difficulty gives
    NaN, which is not in [[1,10]]; going from -1 deaths to 0 deaths raises
    the result from 4 to 5; and with an infinite total of coins, going
    from -Infinity to 0 coins collected lowers the result from 6 to 5. *)
Lemma nextDifficulty_counterexample :
  in_range (calculateNextDifficulty stats_nan) = false
  /\ (num_le (Fin (-1)) (Fin 0) = true
      /\ calculateNextDifficulty (with_deaths stats_level5 (Fin (-1))) = Fin 4
      /\ calculateNextDifficulty (with_deaths stats_level5 (Fin 0)) = Fin 5
      /\ num_le (calculateNextDifficulty (with_deaths stats_level5 (Fin 0)))
                (calculateNextDifficulty (with_deaths stats_level5 (Fin (-1))))
         = false)
  /\ (num_gt PInf (Fin 0) = true /\ num_le NInf (Fin 0) = true
      /\ calculateNextDifficulty (with_coinsCollected stats_unbounded_coins NInf)
         = Fin 6
      /\ calculateNextDifficulty (with_coinsCollected stats_unbounded_coins (Fin 0))
         = Fin 5
      /\ num_le (calculateNextDifficulty
                   (with_coinsCollected stats_unbounded_coins NInf))
                (calculateNextDifficulty
                   (with_coinsCollected stats_unbounded_coins (Fin 0)))
         = false).
Proof. repeat split; vm_compute; reflexivity. Qed.

End DifficultyProps.

(* ===================================================================== *)
(** * The level validator *)
(* ===================================================================== *)

Module ValidatorProps.
Import LevelValidator.

Lemma is_number_inv (v : value) : is_number v = true -> exists n, v = VNum n.
Proof. destruct v; simpl; try discriminate. intros _. eexists; reflexivity. Qed.

Lemma lookup_store_eq (k : string) (v : value) (fields : list (string * value)) :
  lookup_field k (store_field k v fields) = v.
Proof.
  induction fields as [|[k' v'] rest IH]; simpl.
  - rewrite String.eqb_refl. reflexivity.
  - destruct (String.eqb k k') eqn:E; simpl.
    + rewrite String.eqb_refl. reflexivity.
    + rewrite E. exact IH.
Qed.

Lemma lookup_store_ne (k k' : string) (v : value) (fields : list (string * value)) :
  k <> k' -> lookup_field k' (store_field k v fields) = lookup_field k' fields.
Proof.
  intros Hne. induction fields as [|[k0 v0] rest IH]; simpl.
  - destruct (String.eqb k' k) eqn:E;
      [apply String.eqb_eq in E; congruence|reflexivity].
  - destruct (String.eqb k k0) eqn:E; simpl.
    + apply String.eqb_eq in E. subst k0.
      destruct (String.eqb k' k) eqn:E';
        [apply String.eqb_eq in E'; congruence|reflexivity].
    + destruct (String.eqb k' k0); [reflexivity|exact IH].
Qed.

(** The enemies filter writes to [rawData.enemies] only. *)
Lemma prop_write_back_ne (raw : value) (entries : list value) (k : string) :
  k <> "enemies" ->
  prop (write_back_enemies raw entries) k = prop raw k.
Proof.
  intros Hne. unfold write_back_enemies.
  destruct (prop raw "enemies") eqn:E; try reflexivity.
  destruct raw; simpl; try reflexivity.
  apply lookup_store_ne. congruence.
Qed.

Lemma check_point_nil (message : error) (errors : list error) (point : value) :
  check_point message errors point = [] ->
  errors = [] /\ truthy point = true /\ is_number (prop point "x") = true.
Proof.
  unfold check_point.
  destruct (truthy point), (is_number (prop point "x")); simpl;
    intros H; try (destruct errors; discriminate H); auto.
Qed.

Lemma check_valid_platforms_nil (errors : list error) (validPlatforms : list value) :
  check_valid_platforms errors validPlatforms = [] ->
  errors = [] /\ validPlatforms <> [].
Proof.
  unfold check_valid_platforms.
  destruct validPlatforms, errors; simpl; intros H; try discriminate H.
  split; [reflexivity|discriminate].
Qed.

Lemma check_platform_count_nil (platforms : value) :
  check_platform_count [] platforms = [] ->
  exists elems, platforms = VArr elems /\ elems <> []
                /\ (List.length elems <= LEVEL.MAX_PLATFORMS)%nat.
Proof.
  unfold check_platform_count.
  destruct platforms as [| | | | | |elems]; simpl; try discriminate.
  destruct elems as [|e rest]; [discriminate|].
  destruct (LEVEL.MAX_PLATFORMS <? List.length (e :: rest))%nat eqn:E;
    [discriminate|].
  intros _. exists (e :: rest). split; [reflexivity|]. split; [discriminate|].
  apply Nat.ltb_ge in E. exact E.
Qed.

(** What a successful validation went through. *)
Lemma validate_valid_inv (raw raw' : value) (r : ValidationResult) :
  validateLevelData raw = (raw', Returned r) -> valid r = true ->
  exists elems validPlatforms enemies enemies' keptEnemies keptCoins,
    prop raw "platforms" = VArr elems
    /\ (List.length elems <= LEVEL.MAX_PLATFORMS)%nat
    /\ filter_list platform_ok elems = Returned validPlatforms
    /\ validPlatforms <> []
    /\ is_number (prop (prop raw "spawnPoint") "x") = true
    /\ is_number (prop (prop raw "goalPosition") "x") = true
    /\ js_or (prop raw "enemies") (VArr []) = VArr enemies
    /\ filter_enemies enemies = (enemies', Returned keptEnemies)
    /\ raw' = write_back_enemies raw enemies'
    /\ js_filter coin_ok (js_or (prop raw' "coins") (VArr [])) = Returned keptCoins
    /\ reachability_errors (js_sort compare_x validPlatforms) = []
    /\ data r = build_data raw' validPlatforms
                  (firstn LEVEL.MAX_COINS (map normalize_coin keptCoins))
                  (firstn LEVEL.MAX_ENEMIES keptEnemies).
Proof.
  unfold validateLevelData. intros H Hv.
  destruct (negb (truthy raw) || negb (String.eqb (typeof raw) "object")) eqn:Hg.
  { inversion H; subst. discriminate Hv. }
  destruct (js_filter platform_ok (js_or (prop raw "platforms") (VArr [])))
    as [validPlatforms|] eqn:Hf; [|discriminate H].
  destruct (js_or (prop raw "enemies") (VArr []))
    as [| | | | | |enemies] eqn:He; try discriminate H.
  destruct (filter_enemies enemies) as [enemies' [keptEnemies|]] eqn:Hfe;
    [|discriminate H].
  destruct (js_filter coin_ok _) as [keptCoins|] eqn:Hc; [|discriminate H].
  match type of H with
  | (if (0 <? List.length ?errs)%nat then _ else _) = _ =>
      destruct errs as [|e errs'] eqn:Herrs
  end; simpl in H; inversion H; subst; [|discriminate Hv].
  apply app_eq_nil in Herrs. destruct Herrs as [Herrs Hreach].
  apply check_point_nil in Herrs. destruct Herrs as [Herrs [_ Hgoal]].
  apply check_point_nil in Herrs. destruct Herrs as [Herrs [_ Hspawn]].
  apply check_valid_platforms_nil in Herrs. destruct Herrs as [Herrs Hne].
  apply check_platform_count_nil in Herrs.
  destruct Herrs as [elems [Hp [_ Hlen]]].
  rewrite Hp in Hf. simpl in Hf.
  exists elems, validPlatforms, enemies, enemies', keptEnemies, keptCoins.
  repeat split; auto.
Qed.

(** ** What the platforms filter keeps *)

Definition platform_checked (p : value) : Prop :=
  nullish p = false /\
  exists x y w : num,
    prop p "x" = VNum x /\ prop p "y" = VNum y /\ prop p "width" = VNum w
    /\ num_lt w LEVEL.MIN_PLATFORM_WIDTH = false
    /\ num_lt y (Fin (-5)) = false /\ num_gt y (Fin 15) = false.

Lemma platform_ok_true_inv (p : value) :
  platform_ok p = Returned true -> platform_checked p.
Proof.
  unfold platform_ok, getProp, platform_checked.
  destruct (nullish p); [discriminate|]. simpl.
  destruct (is_number (prop p "x")) eqn:Hx; [|discriminate].
  destruct (is_number (prop p "y")) eqn:Hy; [|discriminate].
  destruct (is_number (prop p "width")) eqn:Hw; [|discriminate].
  apply is_number_inv in Hx, Hy, Hw.
  destruct Hx as [x Hx], Hy as [y Hy], Hw as [w Hw]. rewrite Hx, Hy, Hw.
  simpl.
  destruct (num_lt w LEVEL.MIN_PLATFORM_WIDTH) eqn:H1; [discriminate|].
  destruct (num_lt y (Fin (-5))) eqn:H2; [discriminate|].
  destruct (num_gt y (Fin 15)) eqn:H3; [discriminate|].
  intros _. split; [reflexivity|]. exists x, y, w. auto 10.
Qed.

Lemma platform_checked_ok (p : value) :
  platform_checked p -> platform_ok p = Returned true.
Proof.
  intros [Hn [x [y [w [Hx [Hy [Hw [H1 [H2 H3]]]]]]]]].
  unfold platform_ok, getProp. rewrite Hn, Hx, Hy, Hw. simpl.
  rewrite H1, H2, H3. reflexivity.
Qed.

(** [Math.max(width, MIN)] leaves a width that passed the filter as it is. *)
Lemma Math_max_checked_width (w : num) :
  num_lt w LEVEL.MIN_PLATFORM_WIDTH = false ->
  Math_max w LEVEL.MIN_PLATFORM_WIDTH = w.
Proof.
  unfold Math_max. intros H. rewrite H. destruct w; reflexivity.
Qed.

Lemma normalize_platform_checked (p : value) :
  platform_checked p -> platform_checked (normalize_platform p).
Proof.
  intros [Hn [x [y [w [Hx [Hy [Hw [H1 [H2 H3]]]]]]]]].
  split; [reflexivity|]. exists x, y, w.
  unfold normalize_platform. rewrite Hx, Hy, Hw. simpl.
  rewrite (Math_max_checked_width w H1). auto 10.
Qed.

(** Normalisation keeps the three coordinates the reachability check
    reads. *)
Lemma normalize_platform_x (p : value) :
  prop (normalize_platform p) "x" = prop p "x".
Proof. reflexivity. Qed.

Lemma normalize_platform_y (p : value) :
  prop (normalize_platform p) "y" = prop p "y".
Proof. reflexivity. Qed.

Lemma normalize_platform_width (p : value) :
  platform_checked p ->
  ToNumber (prop (normalize_platform p) "width") = ToNumber (prop p "width").
Proof.
  intros [_ [x [y [w [_ [_ [Hw [H1 _]]]]]]]].
  unfold normalize_platform. rewrite Hw. simpl.
  apply Math_max_checked_width, H1.
Qed.

(** ** [filter] *)

Lemma filter_list_kept (f : value -> outcome bool) (elems kept : list value) :
  filter_list f elems = Returned kept ->
  forall p, In p kept -> In p elems /\ f p = Returned true.
Proof.
  revert kept. induction elems as [|e rest IH]; simpl; intros kept H p Hp.
  - inversion H; subst. destruct Hp.
  - destruct (f e) as [keep|] eqn:Hf; [|discriminate H]. simpl in H.
    destruct (filter_list f rest) as [kept'|] eqn:Hr; [|discriminate H].
    simpl in H. inversion H; subst. clear H.
    destruct keep.
    + destruct Hp as [Hp|Hp].
      * subst. auto.
      * destruct (IH kept' eq_refl p Hp). auto.
    + destruct (IH kept' eq_refl p Hp). auto.
Qed.

Lemma filter_list_length (f : value -> outcome bool) (elems kept : list value) :
  filter_list f elems = Returned kept ->
  (List.length kept <= List.length elems)%nat.
Proof.
  revert kept. induction elems as [|e rest IH]; simpl; intros kept H.
  - inversion H; subst. simpl. lia.
  - destruct (f e) as [keep|]; [|discriminate H]. simpl in H.
    destruct (filter_list f rest) as [kept'|]; [|discriminate H].
    simpl in H. inversion H; subst. specialize (IH kept' eq_refl).
    destruct keep; simpl; lia.
Qed.

Lemma filter_list_all (f : value -> outcome bool) (elems : list value) :
  (forall p, In p elems -> f p = Returned true) ->
  filter_list f elems = Returned elems.
Proof.
  induction elems as [|e rest IH]; simpl; intros H; [reflexivity|].
  rewrite (H e (or_introl eq_refl)). simpl.
  rewrite IH by (intros p Hp; apply H; right; exact Hp). reflexivity.
Qed.

(** A filter whose callback never raises returns. *)
Lemma filter_list_returns (f : value -> outcome bool) (elems : list value) :
  (forall p, In p elems -> returns (f p) = true) ->
  returns (filter_list f elems) = true.
Proof.
  induction elems as [|e rest IH]; simpl; intros H; [reflexivity|].
  pose proof (H e (or_introl eq_refl)) as He.
  destruct (f e) as [keep|]; [|discriminate He]. simpl.
  specialize (IH (fun p Hp => H p (or_intror Hp))).
  destruct (filter_list f rest); [reflexivity|discriminate IH].
Qed.

(** ** [sort] and the reachability loop *)

Lemma sort_insert_map (cmp : value -> value -> num) (f : value -> value)
  (a : value) (sorted : list value) :
  (forall u v, cmp (f u) (f v) = cmp u v) ->
  sort_insert cmp (f a) (map f sorted) = map f (sort_insert cmp a sorted).
Proof.
  intros Hcmp. induction sorted as [|b rest IH]; simpl; [reflexivity|].
  rewrite Hcmp. destruct (num_gt (cmp a b) (Fin 0)); simpl; [|reflexivity].
  rewrite IH. reflexivity.
Qed.

(** Sorting sees its elements through the comparator only. *)
Lemma js_sort_map (cmp : value -> value -> num) (f : value -> value)
  (elems : list value) :
  (forall u v, cmp (f u) (f v) = cmp u v) ->
  js_sort cmp (map f elems) = map f (js_sort cmp elems).
Proof.
  intros Hcmp. unfold js_sort.
  induction elems as [|a rest IH]; simpl; [reflexivity|].
  rewrite IH. apply sort_insert_map, Hcmp.
Qed.

Lemma sort_insert_In (cmp : value -> value -> num) (a p : value)
  (sorted : list value) :
  In p (sort_insert cmp a sorted) -> p = a \/ In p sorted.
Proof.
  induction sorted as [|b rest IH]; simpl.
  - intros [H|[]]. left. congruence.
  - destruct (num_gt (cmp a b) (Fin 0)); simpl.
    + intros [H|H]; [right; left; exact H|].
      destruct (IH H) as [H'|H']; auto.
    + intros [H|[H|H]]; auto.
Qed.

Lemma js_sort_In (cmp : value -> value -> num) (p : value) (elems : list value) :
  In p (js_sort cmp elems) -> In p elems.
Proof.
  unfold js_sort. induction elems as [|a rest IH]; simpl; [auto|].
  intros H. apply sort_insert_In in H. destruct H as [H|H]; auto.
Qed.

(** The three numbers the reachability loop reads from a platform. *)
Definition same_geometry (p q : value) : Prop :=
  ToNumber (prop p "x") = ToNumber (prop q "x")
  /\ ToNumber (prop p "y") = ToNumber (prop q "y")
  /\ ToNumber (prop p "width") = ToNumber (prop q "width").

Lemma gap_errors_map (f : value -> value) (i : nat) (prev : value)
  (rest : list value) :
  (forall p, In p (prev :: rest) -> same_geometry (f p) p) ->
  gap_errors i (f prev) (map f rest) = gap_errors i prev rest.
Proof.
  revert i prev. induction rest as [|curr rest IH]; intros i prev H;
    [reflexivity|].
  cbn [map gap_errors].
  destruct (H prev (or_introl eq_refl)) as [Hx [Hy Hw]].
  destruct (H curr (or_intror (or_introl eq_refl))) as [Hx' [Hy' Hw']].
  rewrite Hx, Hy, Hw, Hx', Hy', Hw'.
  rewrite IH by (intros p Hp; apply H; right; exact Hp).
  reflexivity.
Qed.

Lemma reachability_errors_map (f : value -> value) (platforms : list value) :
  (forall p, In p platforms -> same_geometry (f p) p) ->
  reachability_errors (map f platforms) = reachability_errors platforms.
Proof.
  destruct platforms as [|first rest]; [reflexivity|].
  intros H. apply gap_errors_map, H.
Qed.

Lemma normalize_platform_same_geometry (p : value) :
  platform_checked p -> same_geometry (normalize_platform p) p.
Proof.
  intros H. repeat split.
  apply normalize_platform_width, H.
Qed.

(** ** The enemies and coins filters on entries that are objects *)

Lemma enemy_ok_returns (e : value) :
  nullish e = false -> returns (snd (enemy_ok e)) = true.
Proof.
  intros H. unfold enemy_ok, getProp. rewrite H.
  repeat match goal with
         | |- context [if ?c then _ else _] => destruct c
         end; reflexivity.
Qed.

Lemma filter_enemies_returns (elems : list value) :
  (forall e, In e elems -> nullish e = false) ->
  returns (snd (filter_enemies elems)) = true.
Proof.
  induction elems as [|e rest IH]; simpl; intros H; [reflexivity|].
  pose proof (enemy_ok_returns e (H e (or_introl eq_refl))) as He.
  destruct (enemy_ok e) as [e' [keep|]]; [|discriminate He].
  specialize (IH (fun x Hx => H x (or_intror Hx))).
  destruct (filter_enemies rest) as [rest' [kept|]]; [|discriminate IH].
  reflexivity.
Qed.

Lemma coin_ok_returns (c : value) :
  nullish c = false -> returns (coin_ok c) = true.
Proof.
  intros H. unfold coin_ok, getProp. rewrite H. reflexivity.
Qed.

Lemma is_number_js_or (v : value) (d : num) :
  is_number v = true -> is_number (js_or v (VNum d)) = true.
Proof.
  intros H. unfold js_or. destruct (truthy v); [exact H|reflexivity].
Qed.

Lemma is_number_prop_not_nullish (v : value) (k : string) :
  is_number (prop v k) = true -> nullish v = false.
Proof. destruct v; simpl; try discriminate; reflexivity. Qed.

Lemma is_number_prop_truthy (v : value) :
  is_number (prop v "x") = true -> truthy v = true.
Proof. destruct v; simpl; try discriminate; reflexivity. Qed.

Lemma check_platform_count_ok (elems : list value) :
  elems <> [] -> (List.length elems <= LEVEL.MAX_PLATFORMS)%nat ->
  check_platform_count [] (VArr elems) = [].
Proof.
  intros Hne Hlen. unfold check_platform_count.
  destruct elems as [|e rest]; [congruence|].
  apply Nat.ltb_ge in Hlen. rewrite Hlen. reflexivity.
Qed.

(** What is enough for a validation to succeed. *)
Lemma validate_valid_intro (raw : value)
  (elems validPlatforms enemies enemies' keptEnemies keptCoins : list value) :
  truthy raw = true -> typeof raw = "object" ->
  prop raw "platforms" = VArr elems ->
  elems <> [] -> (List.length elems <= LEVEL.MAX_PLATFORMS)%nat ->
  filter_list platform_ok elems = Returned validPlatforms ->
  validPlatforms <> [] ->
  is_number (prop (prop raw "spawnPoint") "x") = true ->
  is_number (prop (prop raw "goalPosition") "x") = true ->
  js_or (prop raw "enemies") (VArr []) = VArr enemies ->
  filter_enemies enemies = (enemies', Returned keptEnemies) ->
  js_filter coin_ok
    (js_or (prop (write_back_enemies raw enemies') "coins") (VArr []))
  = Returned keptCoins ->
  reachability_errors (js_sort compare_x validPlatforms) = [] ->
  validateLevelData raw =
  (write_back_enemies raw enemies',
   Returned {| valid := true; errors := [];
               data := build_data (write_back_enemies raw enemies')
                         validPlatforms
                         (firstn LEVEL.MAX_COINS (map normalize_coin keptCoins))
                         (firstn LEVEL.MAX_ENEMIES keptEnemies) |}).
Proof.
  intros Ht Hty Hp Hne Hlen Hf Hvne Hs Hg He Hfe Hc Hr.
  unfold validateLevelData.
  rewrite Ht, Hty, Hp. simpl negb. simpl orb. cbv iota.
  rewrite (check_platform_count_ok elems Hne Hlen).
  change (js_or (VArr elems) (VArr [])) with (VArr elems).
  cbn [js_filter]. rewrite Hf.
  assert (E1 : check_valid_platforms [] validPlatforms = []).
  { unfold check_valid_platforms. destruct validPlatforms; [congruence|reflexivity]. }
  rewrite E1.
  assert (E2 : forall m pt, is_number (prop pt "x") = true ->
                            check_point m [] pt = []).
  { intros m pt H. unfold check_point.
    rewrite (is_number_prop_truthy pt H), H. reflexivity. }
  rewrite (E2 _ _ Hs), (E2 _ _ Hg), He, Hfe, Hc, Hr. reflexivity.
Qed.

Lemma In_firstn_In (A : Type) (n : nat) (l : list A) (a : A) :
  In a (firstn n l) -> In a l.
Proof.
  revert l. induction n as [|n IH]; intros [|b l]; simpl; try tauto.
  intros [H|H]; [left; exact H|right; apply IH, H].
Qed.

Lemma optProp_number (v : value) (k : string) :
  is_number (prop v k) = true -> optProp v k = prop v k.
Proof.
  intros H. unfold optProp. rewrite (is_number_prop_not_nullish v k H).
  reflexivity.
Qed.

(** C3.  Validation is idempotent on its own valid output: when
    [validateLevelData(x)] returns a result with [valid: true], the call
    [validateLevelData(result.data)] returns a result with [valid: true]
    too. *)
Theorem validate_idempotent_on_valid_output (x x' : value) (r : ValidationResult) :
  validateLevelData x = (x', Returned r) -> valid r = true ->
  exists (d' : value) (r' : ValidationResult),
    validateLevelData (data r) = (d', Returned r') /\ valid r' = true.
Proof.
  intros H Hv.
  destruct (validate_valid_inv x x' r H Hv)
    as (elems & vps & enemies & enemies' & keptEnemies & keptCoins
        & Hp & Hlen & Hf & Hne & Hs & Hg & He & Hfe & Hx' & Hc & Hr & Hd).
  assert (Hchecked : forall p, In p vps -> platform_checked p).
  { intros p Hp'. apply platform_ok_true_inv.
    apply (filter_list_kept _ _ _ Hf p Hp'). }
  set (coins := firstn LEVEL.MAX_COINS (map normalize_coin keptCoins)) in *.
  set (ens := map normalize_enemy (firstn LEVEL.MAX_ENEMIES keptEnemies)).
  (* the enemies filter on the output *)
  assert (Hens : returns (snd (filter_enemies ens)) = true).
  { apply filter_enemies_returns. intros e Hin. unfold ens in Hin.
    apply in_map_iff in Hin. destruct Hin as [e0 [<- _]]. reflexivity. }
  destruct (filter_enemies ens) as [ens' [kept2|]] eqn:Hfe2;
    [|discriminate Hens].
  (* the coins filter on the output *)
  assert (Hcoins : returns (filter_list coin_ok coins) = true).
  { apply filter_list_returns. intros c Hin. apply coin_ok_returns.
    unfold coins in Hin. apply In_firstn_In in Hin.
    apply in_map_iff in Hin. destruct Hin as [c0 [<- _]]. reflexivity. }
  destruct (filter_list coin_ok coins) as [kept3|] eqn:Hc2;
    [|discriminate Hcoins].
  rewrite Hd.
  eexists _, _. split.
  - apply (validate_valid_intro _ (map normalize_platform vps)
             (map normalize_platform vps) ens ens' kept2 kept3).
    + reflexivity.
    + reflexivity.
    + reflexivity.
    + destruct vps; [congruence|discriminate].
    + rewrite length_map. pose proof (filter_list_length _ _ _ Hf). lia.
    + apply filter_list_all. intros p Hin.
      apply in_map_iff in Hin. destruct Hin as [p0 [<- Hin]].
      apply platform_checked_ok, normalize_platform_checked, Hchecked, Hin.
    + destruct vps; [congruence|discriminate].
    + cbn. apply is_number_js_or.
      rewrite Hx', prop_write_back_ne by discriminate.
      rewrite optProp_number; exact Hs.
    + cbn. apply is_number_js_or.
      rewrite Hx', prop_write_back_ne by discriminate.
      rewrite optProp_number; exact Hg.
    + reflexivity.
    + exact Hfe2.
    + cbn. exact Hc2.
    + rewrite js_sort_map by reflexivity.
      rewrite reachability_errors_map; [exact Hr|].
      intros p Hin. apply normalize_platform_same_geometry, Hchecked.
      apply (js_sort_In _ _ _ Hin).
  - reflexivity.
Qed.

(** A level with one platform, a spawn point and a goal. *)
Definition platform_at (x y width : num) : value :=
  VObj [("x", VNum x); ("y", VNum y); ("width", VNum width)].

Definition point_at (x y : num) : value :=
  VObj [("x", VNum x); ("y", VNum y)].

Definition level_of (platforms : list value) (spawnPoint goalPosition : value)
  : value :=
  VObj [("platforms", VArr platforms);
        ("spawnPoint", spawnPoint);
        ("goalPosition", goalPosition)].

Definition sample_level : value :=
  level_of [platform_at (Fin 0) (Fin 0) (Fin 20);
            platform_at (Fin 14) (Fin 1) (Fin 4)]
           (point_at (Fin 2) (Fin 2)) (point_at (Fin 15) (Fin 2)).

Definition sample_data : value :=
  Eval vm_compute in
    match snd (validateLevelData sample_level) with
    | Returned r => data r
    | Thrown _ => VNull
    end.

(** The theorem at [sample_level], a level of two platforms that
    validates: its output validates again. *)
Lemma validate_idempotent_witness :
  exists (d' : value) (r' : ValidationResult),
    validateLevelData sample_data = (d', Returned r') /\ valid r' = true.
Proof.
  exact (validate_idempotent_on_valid_output sample_level sample_level
           {| valid := true; errors := []; data := sample_data |}
           eq_refl eq_refl).
Defined.

(** ** C8: the platforms of a valid result *)

(** C8, as the code has it.  In a result with [valid: true], every
    platform of [data.platforms] has numbers for [x], [y] and [width]; a
    [y] that is not NaN lies in [[-5,15]], and is therefore finite; a
    [width] that is not NaN is at least the minimum width.  Nothing bounds
    [x]. *)
Theorem valid_platforms_are_checked (raw raw' : value) (r : ValidationResult) :
  validateLevelData raw = (raw', Returned r) -> valid r = true ->
  exists platforms : list value,
    prop (data r) "platforms" = VArr platforms
    /\ forall p, In p platforms ->
         exists x y width : num,
           prop p "x" = VNum x /\ prop p "y" = VNum y
           /\ prop p "width" = VNum width
           /\ (is_nan y = false ->
               num_le (Fin (-5)) y = true /\ num_le y (Fin 15) = true
               /\ is_finite y = true)
           /\ (is_nan width = false ->
               num_le LEVEL.MIN_PLATFORM_WIDTH width = true).
Proof.
  intros H Hv.
  destruct (validate_valid_inv raw raw' r H Hv)
    as (elems & vps & enemies & enemies' & keptEnemies & keptCoins
        & Hp & Hlen & Hf & Hne & Hs & Hg & He & Hfe & Hx' & Hc & Hr & Hd).
  rewrite Hd. exists (map normalize_platform vps). split; [reflexivity|].
  intros p Hin. apply in_map_iff in Hin. destruct Hin as [p0 [<- Hin]].
  assert (Hck : platform_checked (normalize_platform p0)).
  { apply normalize_platform_checked, platform_ok_true_inv.
    apply (filter_list_kept _ _ _ Hf p0 Hin). }
  destruct Hck as [_ (x & y & w & Hx & Hy & Hw & H1 & H2 & H3)].
  exists x, y, w.
  split; [exact Hx|]. split; [exact Hy|]. split; [exact Hw|]. split.
  - intros Hn. split; [|split].
    + apply num_lt_false_le; [exact Hn|reflexivity|exact H2].
    + apply num_lt_false_le; [reflexivity|exact Hn|exact H3].
    + destruct y; try reflexivity; discriminate.
  - intros Hn. apply num_lt_false_le; [exact Hn|reflexivity|exact H1].
Qed.

Definition level_infinite_x : value :=
  level_of [platform_at PInf (Fin 0) (Fin 4)]
           (point_at (Fin 2) (Fin 2)) (point_at (Fin 80) (Fin 0)).

(** The theorem at [sample_level]. *)
Lemma valid_platforms_are_checked_witness :
  exists platforms : list value,
    prop sample_data "platforms" = VArr platforms
    /\ forall p, In p platforms ->
         exists x y width : num,
           prop p "x" = VNum x /\ prop p "y" = VNum y
           /\ prop p "width" = VNum width
           /\ (is_nan y = false ->
               num_le (Fin (-5)) y = true /\ num_le y (Fin 15) = true
               /\ is_finite y = true)
           /\ (is_nan width = false ->
               num_le LEVEL.MIN_PLATFORM_WIDTH width = true).
Proof.
  exact (valid_platforms_are_checked sample_level sample_level
           {| valid := true; errors := []; data := sample_data |}
           eq_refl eq_refl).
Defined.

(** [Infinity] is within reach of parsed JSON: it is what [JSON.parse]
    makes of [1e999]. *)
Lemma infinity_from_json :
  JSON.JSON_parse "1e999" = Returned (VNum PInf).
Proof. vm_compute. reflexivity. Qed.

(** C8 as stated fails: a platform whose [x] is [Infinity] passes the
    filter, and the result is [valid: true] with that platform in
    [data.platforms]. *)
Lemma infinite_x_counterexample :
  exists (r : ValidationResult) (p : value),
    validateLevelData level_infinite_x = (level_infinite_x, Returned r)
    /\ valid r = true
    /\ prop (data r) "platforms" = VArr [p]
    /\ prop p "x" = VNum PInf
    /\ is_finite PInf = false.
Proof.
  eexists _, _. vm_compute. repeat split; reflexivity.
Qed.

(** ** The reachability check on the pair of the specification *)

(** Platforms at x = 0 of width 20 and x = 30 of width 4, at the same
    height, are reported as an unreachable gap of 18; four units of
    height apart they are not. *)
Example reachability_same_height :
  snd (validateLevelData
         (level_of [platform_at (Fin 0) (Fin 0) (Fin 20);
                    platform_at (Fin 30) (Fin 0) (Fin 4)]
                   (point_at (Fin 2) (Fin 2)) (point_at (Fin 30) (Fin 2))))
  = Returned {| valid := false;
                errors := [UnreachableGap (num_sub (Fin (30 - 4 / 2))
                                                   (Fin (0 + 20 / 2))) 0 1];
                data := VNull |}.
Proof. reflexivity. Qed.

Example reachability_fall_through :
  exists r,
    snd (validateLevelData
           (level_of [platform_at (Fin 0) (Fin 0) (Fin 20);
                      platform_at (Fin 30) (Fin 4) (Fin 4)]
                     (point_at (Fin 2) (Fin 2)) (point_at (Fin 30) (Fin 6))))
    = Returned r /\ valid r = true.
Proof. eexists. split; reflexivity. Qed.

(** ** C1: entries that are [null] *)

Definition level_null_platform : value :=
  level_of [VNull] (point_at (Fin 2) (Fin 2)) (point_at (Fin 80) (Fin 0)).

Definition level_null_enemy : value :=
  VObj [("platforms", VArr [platform_at (Fin 0) (Fin 0) (Fin 20)]);
        ("spawnPoint", point_at (Fin 2) (Fin 2));
        ("goalPosition", point_at (Fin 15) (Fin 2));
        ("enemies", VArr [VNull])].

Definition level_null_coin : value :=
  VObj [("platforms", VArr [platform_at (Fin 0) (Fin 0) (Fin 20)]);
        ("spawnPoint", point_at (Fin 2) (Fin 2));
        ("goalPosition", point_at (Fin 15) (Fin 2));
        ("coins", VArr [VNull])].

(** C1 is not what the code does: on [{platforms: [null], ...}] the
    platforms filter reads [p.x] of [null] and the call raises instead of
    returning a result; the same happens for a [null] entry of [enemies]
    or of [coins], and for a [platforms] that is a string. *)
Theorem validate_raises_on_null_entry :
  snd (validateLevelData level_null_platform)
  = Thrown (TypeError "Cannot read properties of null or undefined")
  /\ snd (validateLevelData level_null_enemy)
     = Thrown (TypeError "Cannot read properties of null or undefined")
  /\ snd (validateLevelData level_null_coin)
     = Thrown (TypeError "Cannot read properties of null or undefined")
  /\ snd (validateLevelData (VObj [("platforms", VStr "abc")]))
     = Thrown (TypeError "filter is not a function").
Proof. repeat split; reflexivity. Qed.

(** What C1 says does hold at the top level: a [rawData] that is not an
    object is reported in the result. *)
Lemma validate_not_object (raw : value) :
  negb (truthy raw) || negb (String.eqb (typeof raw) "object") = true ->
  validateLevelData raw
  = (raw, Returned {| valid := false; errors := [NotAnObject]; data := VNull |}).
Proof. intros H. unfold validateLevelData. rewrite H. reflexivity. Qed.

(** ** C9: the spawn point and the goal of a valid result *)

Definition level_spawn_at_origin : value :=
  level_of [platform_at (Fin 0) (Fin 0) (Fin 20)]
           (point_at (Fin 0) (Fin 1)) (point_at (Fin 0) (Fin 1)).

(** C9 is not what the code does: a spawn point and a goal at [x = 0]
    pass the [typeof x === 'number'] check, the result is [valid: true],
    and [x || 2] and [x || 80] put the fallbacks 2 and 80 in place of the
    valid 0. *)
Theorem zero_x_replaced_by_fallback :
  exists r : ValidationResult,
    validateLevelData level_spawn_at_origin
    = (level_spawn_at_origin, Returned r)
    /\ valid r = true
    /\ prop (prop level_spawn_at_origin "spawnPoint") "x" = VNum (Fin 0)
    /\ prop (prop (data r) "spawnPoint") "x" = VNum (Fin 2)
    /\ prop (prop level_spawn_at_origin "goalPosition") "x" = VNum (Fin 0)
    /\ prop (prop (data r) "goalPosition") "x" = VNum (Fin 80).
Proof. eexists. vm_compute. repeat split; reflexivity. Qed.

(** For an [x] that is a number other than 0 and NaN, C9 holds. *)
Lemma truthy_x_is_kept (raw raw' : value) (r : ValidationResult) :
  validateLevelData raw = (raw', Returned r) -> valid r = true ->
  (truthy (prop (prop raw "spawnPoint") "x") = true ->
   prop (prop (data r) "spawnPoint") "x" = prop (prop raw "spawnPoint") "x")
  /\ (truthy (prop (prop raw "goalPosition") "x") = true ->
      prop (prop (data r) "goalPosition") "x"
      = prop (prop raw "goalPosition") "x").
Proof.
  intros H Hv.
  destruct (validate_valid_inv raw raw' r H Hv)
    as (elems & vps & enemies & enemies' & keptEnemies & keptCoins
        & Hp & Hlen & Hf & Hne & Hs & Hg & He & Hfe & Hx' & Hc & Hr & Hd).
  rewrite Hd, Hx'. cbn. rewrite !prop_write_back_ne by discriminate.
  rewrite (optProp_number _ _ Hs), (optProp_number _ _ Hg).
  unfold js_or. split; intros Ht; rewrite Ht; reflexivity.
Qed.

(** ** C10: the write to the argument *)

(** An entry of [rawData.enemies] that the filter keeps and whose
    behaviour it overwrites. *)
Definition needs_coercion (e : value) : bool :=
  is_number (prop e "x") && is_number (prop e "y")
  && includes ["goomba"; "koopa"] (prop e "type")
  && negb (includes ["patrol"; "chase"] (prop e "behavior")).



Lemma prop_is_array_obj (v : value) (k : string) (elems : list value) :
  prop v k = VArr elems -> exists fields, v = VObj fields.
Proof.
  destruct v; simpl; try discriminate.
  - destruct (String.eqb k "length"); discriminate.
  - intros _. eexists; reflexivity.
  - destruct (String.eqb k "length"); discriminate.
Qed.









(** The call leaves every other property of its argument alone, however
    it ends. *)
Lemma validate_frame (raw : value) (k : string) :
  k <> "enemies" ->
  prop (fst (validateLevelData raw)) k = prop raw k.
Proof.
  intros Hk. unfold validateLevelData.
  destruct (negb (truthy raw) || negb (String.eqb (typeof raw) "object"));
    [reflexivity|].
  destruct (js_filter platform_ok _); [|reflexivity].
  destruct (js_or (prop raw "enemies") (VArr [])); try reflexivity.
  destruct (filter_enemies elems) as [enemies' [kept|]];
    [|apply prop_write_back_ne, Hk].
  destruct (js_filter coin_ok _); [|apply prop_write_back_ne, Hk].
  destruct (0 <? _)%nat; apply prop_write_back_ne, Hk.
Qed.

End ValidatorProps.

(* ===================================================================== *)
(** * The gateway: admission control *)
(* ===================================================================== *)

Module GatewayProps.
Import Gateway.

Local Open Scope Z_scope.

(** The four cases of [rateLimit]. *)
Lemma rateLimit_first (req_ip : option string) (now : Z)
  (limiter : gmap string windowData) :
  limiter !! identity_of req_ip = None ->
  rateLimit req_ip now limiter
  = (<[identity_of req_ip := {| count := 1; firstRequest := now |}]> limiter,
     Next).
Proof.
  intros H. unfold rateLimit. rewrite H. simpl.
  replace (now - now >? RATE_LIMIT_WINDOW) with false
    by (unfold RATE_LIMIT_WINDOW; lia).
  reflexivity.
Qed.

Lemma rateLimit_within (req_ip : option string) (now c t0 : Z)
  (limiter : gmap string windowData) :
  limiter !! identity_of req_ip = Some {| count := c; firstRequest := t0 |} ->
  now - t0 <= RATE_LIMIT_WINDOW -> c < MAX_REQUESTS ->
  rateLimit req_ip now limiter
  = (<[identity_of req_ip := {| count := c + 1; firstRequest := t0 |}]> limiter,
     Next).
Proof.
  intros H Hw Hc. unfold rateLimit. rewrite H. simpl.
  replace (now - t0 >? RATE_LIMIT_WINDOW) with false by lia.
  replace (c >=? MAX_REQUESTS) with false by lia.
  reflexivity.
Qed.

Lemma rateLimit_exceeded (req_ip : option string) (now c t0 : Z)
  (limiter : gmap string windowData) :
  limiter !! identity_of req_ip = Some {| count := c; firstRequest := t0 |} ->
  now - t0 <= RATE_LIMIT_WINDOW -> MAX_REQUESTS <= c ->
  rateLimit req_ip now limiter = (limiter, Respond rate_limited).
Proof.
  intros H Hw Hc. unfold rateLimit. rewrite H. simpl.
  replace (now - t0 >? RATE_LIMIT_WINDOW) with false by lia.
  replace (c >=? MAX_REQUESTS) with true by lia.
  reflexivity.
Qed.

Lemma rateLimit_elapsed (req_ip : option string) (now c t0 : Z)
  (limiter : gmap string windowData) :
  limiter !! identity_of req_ip = Some {| count := c; firstRequest := t0 |} ->
  now - t0 > RATE_LIMIT_WINDOW ->
  rateLimit req_ip now limiter
  = (<[identity_of req_ip := {| count := 1; firstRequest := now |}]> limiter,
     Next).
Proof.
  intros H Hw. unfold rateLimit. rewrite H. simpl.
  replace (now - t0 >? RATE_LIMIT_WINDOW) with true by lia.
  reflexivity.
Qed.

(** A request of one caller leaves the records of the others alone. *)
Lemma rateLimit_other (req_ip : option string) (now : Z)
  (limiter : gmap string windowData) (other : string) :
  other <> identity_of req_ip ->
  fst (rateLimit req_ip now limiter) !! other = limiter !! other.
Proof.
  intros Hne. unfold rateLimit.
  destruct (_ >? _); [simpl; apply lookup_insert_ne; congruence|].
  destruct (_ >=? _); [reflexivity|].
  simpl. apply lookup_insert_ne. congruence.
Qed.

(** A rejected request never reaches its handler: no backend call, no
    change of state. *)
Lemma app_post_rejected
  (handler : list (string * string)
             -> list (string * string) * response * list string)
  (req_ip : option string) (now : Z) (st : serverState) :
  rateLimit req_ip now (rateLimiter st) = (rateLimiter st, Respond rate_limited) ->
  app_post handler req_ip now st = (st, rate_limited, []).
Proof.
  intros H. unfold app_post. rewrite H. destruct st; reflexivity.
Qed.

(** C2.  Under [MAX_REQUESTS = 5] and [RATE_LIMIT_WINDOW = 10000] ms, for
    one caller identity with no record in the table (the empty table in
    particular): five requests arriving within the window opened by the
    first are all admitted; a sixth within that window is answered 429 by
    the middleware, the table is left as it is, and the route's handler
    is not run, so that no backend call is made; and a request arriving
    after the window has elapsed is admitted and sets the caller's record
    to count 1 with the arrival time as the new window start. *)
Theorem rate_limit_five_per_window
  (req_ip : option string) (limiter : gmap string windowData)
  (t1 t2 t3 t4 t5 t6 later : Z) :
  limiter !! identity_of req_ip = None ->
  t2 - t1 <= RATE_LIMIT_WINDOW -> t3 - t1 <= RATE_LIMIT_WINDOW ->
  t4 - t1 <= RATE_LIMIT_WINDOW -> t5 - t1 <= RATE_LIMIT_WINDOW ->
  t6 - t1 <= RATE_LIMIT_WINDOW -> later - t1 > RATE_LIMIT_WINDOW ->
  exists limiter5 : gmap string windowData,
    rateLimit_all req_ip [t1; t2; t3; t4; t5] limiter
    = (limiter5, [Next; Next; Next; Next; Next])
    /\ limiter5 !! identity_of req_ip
       = Some {| count := 5; firstRequest := t1 |}
    /\ rateLimit req_ip t6 limiter5 = (limiter5, Respond rate_limited)
    /\ (forall handler cache,
          app_post handler req_ip t6
            {| rateLimiter := limiter5; npcCache := cache |}
          = ({| rateLimiter := limiter5; npcCache := cache |},
             rate_limited, []))
    /\ rateLimit req_ip later limiter5
       = (<[identity_of req_ip := {| count := 1; firstRequest := later |}]>
            limiter5,
          Next).
Proof.
  intros H0 H2 H3 H4 H5 H6 Hl.
  set (ip := identity_of req_ip) in *.
  set (l1 := <[ip := {| count := 1; firstRequest := t1 |}]> limiter).
  set (l2 := <[ip := {| count := 1 + 1; firstRequest := t1 |}]> l1).
  set (l3 := <[ip := {| count := 1 + 1 + 1; firstRequest := t1 |}]> l2).
  set (l4 := <[ip := {| count := 1 + 1 + 1 + 1; firstRequest := t1 |}]> l3).
  set (l5 := <[ip := {| count := 1 + 1 + 1 + 1 + 1; firstRequest := t1 |}]> l4).
  assert (E1 : rateLimit req_ip t1 limiter = (l1, Next))
    by (apply rateLimit_first, H0).
  assert (E2 : rateLimit req_ip t2 l1 = (l2, Next)).
  { apply rateLimit_within; [apply lookup_insert_eq|exact H2|reflexivity]. }
  assert (E3 : rateLimit req_ip t3 l2 = (l3, Next)).
  { apply rateLimit_within; [apply lookup_insert_eq|exact H3|reflexivity]. }
  assert (E4 : rateLimit req_ip t4 l3 = (l4, Next)).
  { apply rateLimit_within; [apply lookup_insert_eq|exact H4|reflexivity]. }
  assert (E5 : rateLimit req_ip t5 l4 = (l5, Next)).
  { apply rateLimit_within; [apply lookup_insert_eq|exact H5|reflexivity]. }
  assert (L5 : l5 !! ip = Some {| count := 5; firstRequest := t1 |})
    by apply lookup_insert_eq.
  assert (E6 : rateLimit req_ip t6 l5 = (l5, Respond rate_limited)).
  { apply (rateLimit_exceeded req_ip t6 5 t1); [exact L5|exact H6|reflexivity]. }
  exists l5. split; [|split; [|split; [|split]]].
  - simpl. rewrite E1, E2, E3, E4, E5. reflexivity.
  - exact L5.
  - exact E6.
  - intros handler cache. apply app_post_rejected. exact E6.
  - apply (rateLimit_elapsed req_ip later 5 t1); [exact L5|exact Hl].
Qed.

(** The theorem from the empty table: requests at 0, 1, 2, 3 and 4
    seconds, a sixth at 10 seconds sharp, and one a millisecond later. *)
Lemma rate_limit_five_per_window_witness :
  exists limiter5 : gmap string windowData,
    rateLimit_all (Some "10.0.0.7") [0; 1000; 2000; 3000; 4000] ∅
    = (limiter5, [Next; Next; Next; Next; Next])
    /\ limiter5 !! "10.0.0.7" = Some {| count := 5; firstRequest := 0 |}
    /\ rateLimit (Some "10.0.0.7") 10000 limiter5
       = (limiter5, Respond rate_limited)
    /\ (forall handler cache,
          app_post handler (Some "10.0.0.7") 10000
            {| rateLimiter := limiter5; npcCache := cache |}
          = ({| rateLimiter := limiter5; npcCache := cache |},
             rate_limited, []))
    /\ rateLimit (Some "10.0.0.7") 10001 limiter5
       = (<["10.0.0.7" := {| count := 1; firstRequest := 10001 |}]> limiter5,
          Next).
Proof.
  apply (rate_limit_five_per_window (Some "10.0.0.7") ∅
           0 1000 2000 3000 4000 10000 10001);
    try reflexivity; unfold RATE_LIMIT_WINDOW; lia.
Defined.

(* ===================================================================== *)
(** * The gateway: the dialog cache *)
(* ===================================================================== *)

Lemma Map_has_get (k : string) (m : list (string * string)) :
  Map_has k m = true <-> exists v, Map_get k m = Some v.
Proof.
  unfold Map_has. destruct (Map_get k m) as [v|].
  - split; [eauto|reflexivity].
  - split; [discriminate|]. intros [v Hv]. discriminate Hv.
Qed.

Lemma Map_get_None_keys (k : string) (m : list (string * string)) :
  Map_get k m = None <-> ~ In k (Map_keys m).
Proof.
  induction m as [|[k' v'] rest IH]; simpl.
  - tauto.
  - destruct (String.eqb k k') eqn:E.
    + apply String.eqb_eq in E. subst. split; [discriminate|]. tauto.
    + apply String.eqb_neq in E. rewrite IH. split.
      * intros H [H'|H']; [congruence|tauto].
      * tauto.
Qed.

(** Setting a key the map does not have appends the entry. *)
Lemma Map_set_fresh (k v : string) (m : list (string * string)) :
  Map_get k m = None -> Map_set k v m = m ++ [(k, v)].
Proof.
  induction m as [|[k' v'] rest IH]; simpl; [reflexivity|].
  destruct (String.eqb k k'); [discriminate|].
  intros H. rewrite (IH H). reflexivity.
Qed.

Lemma Map_set_length (k v : string) (m : list (string * string)) :
  (List.length (Map_set k v m) <= S (List.length m))%nat.
Proof.
  induction m as [|[k' v'] rest IH]; simpl; [lia|].
  destruct (String.eqb k k'); simpl; lia.
Qed.

(** Deleting the first key removes the first entry. *)
Lemma Map_delete_first_key (m : list (string * string)) (k : string) :
  Map_first_key m = Some k -> Map_delete k m = tl m.
Proof.
  destruct m as [|[k' v'] rest]; simpl; [discriminate|].
  intros H. inversion H; subst. rewrite String.eqb_refl. reflexivity.
Qed.

(** [set] followed by the eviction, as the handler does them. *)
Definition set_and_evict (k v : string) (m : list (string * string))
  : list (string * string) :=
  let m := Map_set k v m in
  if Map_size m >? 100 then
    match Map_first_key m with
    | Some firstKey => Map_delete firstKey m
    | None => m
    end
  else m.

Lemma set_and_evict_size (k v : string) (m : list (string * string)) :
  Map_size m <= 100 -> Map_size (set_and_evict k v m) <= 100.
Proof.
  unfold set_and_evict, Map_size. intros H.
  pose proof (Map_set_length k v m) as Hl.
  destruct (Z.of_nat (List.length (Map_set k v m)) >? 100) eqn:E; [|lia].
  destruct (Map_set k v m) as [|[k' v'] rest] eqn:Em; simpl in *; [lia|].
  rewrite String.eqb_refl. lia.
Qed.

(** The cache after a request is the cache before it, or the cache with
    one key set and the eviction run. *)
Lemma npc_dialog_handler_cache (generate : backend) (req : dialogBody)
  (cache : list (string * string)) :
  fst (fst (npc_dialog_handler generate req cache)) = cache
  \/ exists k v, key_truthy (Some k) = true
                 /\ fst (fst (npc_dialog_handler generate req cache))
                    = set_and_evict k v cache.
Proof.
  unfold npc_dialog_handler.
  destruct (negb (truthy (prompt req)) || _); [left; reflexivity|].
  destruct (key_truthy (cacheKey req) && _); [left; reflexivity|].
  destruct (generate _) as [text|]; [|left; reflexivity].
  destruct (key_truthy (cacheKey req)) eqn:Hk; [|left; reflexivity].
  right. destruct (cacheKey req) as [k|]; [|discriminate Hk].
  exists k, (trim text). split; [exact Hk|reflexivity].
Qed.

Lemma npc_dialog_handler_size (generate : backend) (req : dialogBody)
  (cache : list (string * string)) :
  Map_size cache <= 100 ->
  Map_size (fst (fst (npc_dialog_handler generate req cache))) <= 100.
Proof.
  intros H.
  destruct (npc_dialog_handler_cache generate req cache) as [E|(k & v & _ & E)];
    rewrite E; [exact H|apply set_and_evict_size, H].
Qed.

(** No key of the cache is the empty string. *)
Definition keys_truthy (cache : list (string * string)) : Prop :=
  forall k, In k (Map_keys cache) -> key_truthy (Some k) = true.

Lemma Map_set_keys (k v : string) (m : list (string * string)) (k' : string) :
  In k' (Map_keys (Map_set k v m)) -> k' = k \/ In k' (Map_keys m).
Proof.
  induction m as [|[k0 v0] rest IH]; simpl.
  - intros [H|[]]. left. congruence.
  - destruct (String.eqb k k0) eqn:E; simpl.
    + intros [H|H]; [left; congruence|right; right; exact H].
    + intros [H|H]; [right; left; exact H|].
      destruct (IH H); [left; assumption|right; right; assumption].
Qed.

Lemma set_and_evict_keys_truthy (k v : string) (m : list (string * string)) :
  key_truthy (Some k) = true -> keys_truthy m ->
  keys_truthy (set_and_evict k v m).
Proof.
  intros Hk Hm k' Hin. unfold set_and_evict in Hin.
  assert (Hall : forall x, In x (Map_keys (Map_set k v m)) ->
                           key_truthy (Some x) = true).
  { intros x Hx. destruct (Map_set_keys k v m x Hx) as [->|Hx'];
      [exact Hk|apply Hm, Hx']. }
  destruct (Map_size (Map_set k v m) >? 100); [|apply Hall, Hin].
  destruct (Map_set k v m) as [|[k0 v0] rest]; simpl in *; [destruct Hin|].
  rewrite String.eqb_refl in Hin. apply Hall. right. exact Hin.
Qed.

(** The two invariants of the cache, over every sequence of requests. *)
Lemma npc_dialog_all_invariant (requests : list (backend * dialogBody))
  (cache : list (string * string)) :
  Map_size cache <= 100 -> keys_truthy cache ->
  Map_size (npc_dialog_all requests cache) <= 100
  /\ keys_truthy (npc_dialog_all requests cache).
Proof.
  revert cache. induction requests as [|[generate req] later IH];
    intros cache Hs Hk; simpl; [auto|].
  apply IH.
  - apply npc_dialog_handler_size, Hs.
  - destruct (npc_dialog_handler_cache generate req cache)
      as [E|(k & v & Hkt & E)]; rewrite E;
      [exact Hk|apply set_and_evict_keys_truthy; assumption].
Qed.

(** ** Insertion order *)

(** The last [n] entries of a list. *)
Definition last_entries {A : Type} (n : nat) (l : list A) : list A :=
  drop (List.length l - n) l.

Lemma last_entries_app {A : Type} (n : nat) (l k : list A) :
  last_entries n (last_entries n l ++ k) = last_entries n (l ++ k).
Proof.
  unfold last_entries.
  rewrite !drop_app, !length_app, !length_drop, drop_drop.
  f_equal; f_equal; lia.
Qed.

Lemma last_entries_short {A : Type} (n : nat) (l : list A) :
  (List.length l <= n)%nat -> last_entries n l = l.
Proof.
  intros H. unfold last_entries.
  replace (List.length l - n)%nat with 0%nat by lia. reflexivity.
Qed.

Lemma last_entries_length {A : Type} (n : nat) (l : list A) :
  (List.length (last_entries n l) <= n)%nat.
Proof. unfold last_entries. rewrite length_drop. lia. Qed.

Lemma last_entries_In {A : Type} (n : nat) (l : list A) (a : A) :
  In a (last_entries n l) -> In a l.
Proof.
  unfold last_entries. generalize (List.length l - n)%nat. intros m.
  revert l. induction m as [|m IH]; intros [|b l]; simpl; auto.
Qed.

(** A new key goes last, and past 100 entries the oldest one goes. *)
Lemma set_and_evict_fresh (k v : string) (m : list (string * string)) :
  Map_get k m = None -> Map_size m <= 100 ->
  set_and_evict k v m = last_entries 100 (m ++ [(k, v)]).
Proof.
  intros Hf Hs. unfold set_and_evict, Map_size in *.
  rewrite (Map_set_fresh k v m Hf).
  destruct (Z.of_nat (List.length (m ++ [(k, v)])) >? 100) eqn:E.
  - rewrite length_app in E. cbn [List.length] in E. apply Z.gtb_lt in E.
    assert (Hl : List.length m = 100%nat) by lia.
    unfold last_entries. rewrite length_app, Hl. simpl.
    destruct m as [|[k0 v0] rest]; [discriminate Hl|]. simpl.
    rewrite String.eqb_refl. reflexivity.
  - rewrite last_entries_short; [reflexivity|].
    rewrite Z.gtb_ltb in E. apply Z.ltb_ge in E.
    rewrite length_app in *. cbn [List.length] in *. lia.
Qed.

(** A request that reaches the backend with a cache key: a prompt that
    is a non-empty string, a non-empty key, and a backend that answers. *)
Definition inserts (request : backend * dialogBody) (entry : string * string)
  : Prop :=
  truthy (prompt (snd request)) = true
  /\ typeof (prompt (snd request)) = "string"
  /\ cacheKey (snd request) = Some (fst entry)
  /\ key_truthy (Some (fst entry)) = true
  /\ exists text, fst request (string_of (prompt (snd request))) = Returned text
                  /\ snd entry = trim text.

Lemma npc_dialog_handler_inserts (generate : backend) (req : dialogBody)
  (k v : string) (cache : list (string * string)) :
  inserts (generate, req) (k, v) -> Map_get k cache = None ->
  npc_dialog_handler generate req cache
  = (set_and_evict k v cache, dialog_response v false,
     [string_of (prompt req)]).
Proof.
  intros (Ht & Hty & Hk & Hkt & text & Hg & Hv) Hf. cbn [fst snd] in *.
  unfold npc_dialog_handler. rewrite Ht, Hty, Hk.
  change (default "" (Some k)) with k.
  rewrite Hkt. unfold Map_has. rewrite Hf, Hg, Hv. reflexivity.
Qed.

(** From any cache of at most 100 entries, requests that insert
    pairwise-distinct new keys leave the last 100 of all entries, in
    insertion order. *)
Lemma npc_dialog_all_inserts (requests : list (backend * dialogBody))
  (entries cache : list (string * string)) :
  Forall2 inserts requests entries ->
  NoDup (Map_keys (cache ++ entries)) ->
  Map_size cache <= 100 ->
  npc_dialog_all requests cache = last_entries 100 (cache ++ entries).
Proof.
  intros H. revert cache.
  induction H as [|[generate req] [k v] later entries Hi _ IH];
    intros cache Hnd Hs; simpl.
  - rewrite app_nil_r. symmetry. apply last_entries_short.
    unfold Map_size in Hs. lia.
  - assert (Hf : Map_get k cache = None).
    { apply Map_get_None_keys. intros Hin.
      unfold Map_keys in Hnd. rewrite map_app in Hnd. simpl in Hnd.
      apply NoDup_app in Hnd. destruct Hnd as (_ & Hd & _).
      apply (Hd k); [apply list_elem_of_In, Hin|left]. }
    rewrite (npc_dialog_handler_inserts generate req k v cache Hi Hf). simpl.
    rewrite (set_and_evict_fresh k v cache Hf Hs).
    rewrite IH.
    + rewrite last_entries_app, <- app_assoc. reflexivity.
    + replace (cache ++ (k, v) :: entries) with ((cache ++ [(k, v)]) ++ entries)
        in Hnd by (rewrite <- app_assoc; reflexivity).
      unfold Map_keys in *. rewrite map_app in *.
      apply NoDup_app in Hnd. destruct Hnd as (Hn1 & Hd & Hn2).
      apply NoDup_app. split; [|split].
      * eapply sublist_NoDup; [exact Hn1|apply (fmap_sublist fst); unfold last_entries; apply sublist_drop].
      * intros x Hx. apply Hd. apply list_elem_of_In.
        apply list_elem_of_In in Hx. apply in_map_iff in Hx.
        destruct Hx as [e [<- He]]. apply in_map.
        apply (last_entries_In _ _ _ He).
      * exact Hn2.
    + unfold Map_size. pose proof (last_entries_length 100 (cache ++ [(k, v)])).
      lia.
Qed.

Lemma Map_has_keys (k : string) (m : list (string * string)) :
  Map_has k m = true -> In k (Map_keys m).
Proof.
  intros H. destruct (Map_get k m) as [v|] eqn:E.
  - destruct (in_dec string_dec k (Map_keys m)) as [Hin|Hout]; [exact Hin|].
    apply Map_get_None_keys in Hout. congruence.
  - unfold Map_has in H. rewrite E in H. discriminate H.
Qed.

(** A request whose cache key is in the cache never reaches the backend
    and leaves the cache as it is; with a prompt that passes the guard it
    is answered from the cache. *)
Lemma npc_dialog_handler_hit (generate : backend) (req : dialogBody)
  (key : string) (cache : list (string * string)) :
  keys_truthy cache ->
  cacheKey req = Some key -> Map_has key cache = true ->
  snd (npc_dialog_handler generate req cache) = []
  /\ fst (fst (npc_dialog_handler generate req cache)) = cache
  /\ (truthy (prompt req) = true -> typeof (prompt req) = "string" ->
      snd (fst (npc_dialog_handler generate req cache))
      = dialog_response (default "" (Map_get key cache)) true).
Proof.
  intros Hkt Hk Hh. unfold npc_dialog_handler. rewrite Hk.
  change (default "" (Some key)) with key.
  rewrite (Hkt key (Map_has_keys key cache Hh)), Hh.
  destruct (negb (truthy (prompt req))
            || negb (String.eqb (typeof (prompt req)) "string")) eqn:Hg.
  - repeat split. intros Ht Hty. rewrite Ht, Hty in Hg. discriminate Hg.
  - repeat split.
Qed.

(** ** The cache over every sequence of requests to the server *)

(** A route changes the cache only through its handler. *)
Lemma app_post_cache
  (handler : list (string * string)
             -> list (string * string) * response * list string)
  (req_ip : option string) (now : Z) (st : serverState) :
  npcCache (fst (fst (app_post handler req_ip now st))) = npcCache st
  \/ npcCache (fst (fst (app_post handler req_ip now st)))
     = fst (fst (handler (npcCache st))).
Proof.
  unfold app_post.
  destruct (rateLimit req_ip now (rateLimiter st)) as [limiter [|r]].
  - right. destruct (handler (npcCache st)) as [[c r] calls]. reflexivity.
  - left. reflexivity.
Qed.

Lemma serve_cache (event : backend * option string * Z * request)
  (st : serverState) :
  Map_size (npcCache st) <= 100 -> keys_truthy (npcCache st) ->
  Map_size (npcCache (fst (fst (serve event st)))) <= 100
  /\ keys_truthy (npcCache (fst (fst (serve event st)))).
Proof.
  intros Hs Hk. destruct event as [[[generate req_ip] now] [prompt|body]];
    unfold serve, post_generate_level, post_npc_dialog.
  - destruct (app_post_cache
                (fun cache =>
                   let '(r, calls) := generate_level_handler generate prompt in
                   (cache, r, calls)) req_ip now st) as [E|E];
      rewrite E; [auto|].
    destruct (generate_level_handler generate prompt). auto.
  - destruct (app_post_cache (npc_dialog_handler generate body) req_ip now st)
      as [E|E]; rewrite E; [auto|].
    apply (npc_dialog_all_invariant [(generate, body)] (npcCache st) Hs Hk).
Qed.

Lemma serve_all_cache
  (events : list (backend * option string * Z * request)) (st : serverState) :
  Map_size (npcCache st) <= 100 -> keys_truthy (npcCache st) ->
  Map_size (npcCache (serve_all events st)) <= 100
  /\ keys_truthy (npcCache (serve_all events st)).
Proof.
  revert st. induction events as [|event later IH]; intros st Hs Hk; simpl;
    [auto|].
  destruct (serve_cache event st Hs Hk) as [Hs' Hk']. apply IH; assumption.
Qed.

(** C6, as the code has it.  In every state the server reaches from its
    initial state, whatever the requests: the cache holds at most 100
    entries; a request to the dialog route whose cache key is in the
    cache makes no backend call and leaves the cache alone, and, when
    the rate limiter admits it and its prompt is a non-empty string, it
    is answered with the cached dialog and [cached: true].  And 101
    requests handled from the empty cache that each insert a new key
    leave exactly the entries of the last 100, in insertion order: the
    first-inserted one is evicted. *)
Theorem dialog_cache_bounded_fifo
  (events : list (backend * option string * Z * request)) :
  Map_size (npcCache (serve_all events initial_state)) <= 100
  /\ (forall (generate : backend) (body : dialogBody) (key : string)
             (req_ip : option string) (now : Z),
        cacheKey body = Some key ->
        Map_has key (npcCache (serve_all events initial_state)) = true ->
        snd (post_npc_dialog generate body req_ip now
               (serve_all events initial_state)) = []
        /\ npcCache (fst (fst (post_npc_dialog generate body req_ip now
                                 (serve_all events initial_state))))
           = npcCache (serve_all events initial_state)
        /\ (snd (rateLimit req_ip now
                   (rateLimiter (serve_all events initial_state))) = Next ->
            truthy (prompt body) = true -> typeof (prompt body) = "string" ->
            snd (fst (post_npc_dialog generate body req_ip now
                        (serve_all events initial_state)))
            = dialog_response
                (default ""
                   (Map_get key (npcCache (serve_all events initial_state))))
                true))
  /\ (forall (requests : list (backend * dialogBody))
             (entries : list (string * string)),
        Forall2 inserts requests entries ->
        NoDup (Map_keys entries) ->
        List.length entries = 101%nat ->
        npc_dialog_all requests [] = tl entries).
Proof.
  assert (Hinv : Map_size (npcCache (serve_all events initial_state)) <= 100
                 /\ keys_truthy (npcCache (serve_all events initial_state))).
  { apply serve_all_cache; [unfold Map_size; simpl; lia|]. intros k []. }
  destruct Hinv as [Hsize Hkeys].
  set (st := serve_all events initial_state) in *.
  split; [exact Hsize|]. split.
  - intros generate body key req_ip now Hk Hh.
    destruct (npc_dialog_handler_hit generate body key (npcCache st)
                Hkeys Hk Hh) as (Hc & Hs & Hr).
    unfold post_npc_dialog, app_post.
    destruct (rateLimit req_ip now (rateLimiter st)) as [limiter [|r]];
      [|repeat split; discriminate].
    destruct (npc_dialog_handler generate body (npcCache st))
      as [[cache r] calls].
    simpl in *. repeat split; auto.
  - intros requests entries Hall Hnd Hlen.
    rewrite (npc_dialog_all_inserts requests entries [] Hall Hnd)
      by (unfold Map_size; simpl; lia).
    unfold last_entries. simpl. rewrite Hlen. reflexivity.
Qed.

(** 101 requests with one-character keys, from the exclamation mark on,
    each answered with a greeting by the backend. *)
Definition numbered_key (n : nat) : string :=
  String (ascii_of_nat (n + 33)) EmptyString.

Definition sample_requests : list (backend * dialogBody) :=
  map (fun n => (fun _ : string => Returned " Hi! ",
                 {| prompt := VStr "Say hello";
                    cacheKey := Some (numbered_key n) |}))
      (seq 0 101).

Definition sample_entries : list (string * string) :=
  map (fun n => (numbered_key n, "Hi!")) (seq 0 101).

Lemma sample_requests_insert (ns : list nat) :
  Forall2 inserts
    (map (fun n => (fun _ : string => Returned " Hi! ",
                    {| prompt := VStr "Say hello";
                       cacheKey := Some (numbered_key n) |})) ns)
    (map (fun n => (numbered_key n, "Hi!")) ns).
Proof.
  induction ns as [|n ns IH]; simpl; constructor; [|exact IH].
  repeat split. exists " Hi! ". split; reflexivity.
Qed.

(** The theorem on [sample_requests]: the first key is gone, the other
    hundred stay, and a request for the second key is answered from the
    cache without a backend call. *)
Lemma numbered_key_inj (x y : nat) :
  (x < 200)%nat -> (y < 200)%nat -> numbered_key x = numbered_key y -> x = y.
Proof.
  unfold numbered_key. intros Hx Hy H. inversion H as [E].
  apply (f_equal nat_of_ascii) in E.
  rewrite !nat_ascii_embedding in E by lia. lia.
Qed.

Lemma sample_entries_NoDup : NoDup (Map_keys sample_entries).
Proof.
  unfold Map_keys, sample_entries. rewrite map_map. simpl fst.
  apply NoDup_fmap_2_strong; [|apply NoDup_seq].
  intros x y Hx Hy. apply list_elem_of_In, in_seq in Hx, Hy.
  apply numbered_key_inj; lia.
Qed.

(** The requests of [sample_requests] as they reach the server, one
    caller each. *)
Definition sample_events : list (backend * option string * Z * request) :=
  map (fun n => (fun _ : string => Returned " Hi! ",
                 Some (numbered_key n), 0,
                 NpcDialog {| prompt := VStr "Say hello";
                              cacheKey := Some (numbered_key n) |}))
      (seq 0 101).

(** The theorem on the 101 sample requests: the cache ends with 100
    entries, the first key is gone and the other hundred stay, and a
    request for the second key is answered from the cache without a
    backend call. *)
Lemma dialog_cache_bounded_fifo_witness :
  Map_size (npcCache (serve_all sample_events initial_state)) <= 100
  /\ snd (post_npc_dialog (fun _ => Returned "not asked")
            {| prompt := VStr "Say hello again";
               cacheKey := Some (numbered_key 1) |}
            (Some "10.0.0.7") 0 (serve_all sample_events initial_state)) = []
  /\ snd (fst (post_npc_dialog (fun _ => Returned "not asked")
                 {| prompt := VStr "Say hello again";
                    cacheKey := Some (numbered_key 1) |}
                 (Some "10.0.0.7") 0 (serve_all sample_events initial_state)))
     = dialog_response "Hi!" true
  /\ npc_dialog_all sample_requests [] = tl sample_entries.
Proof.
  destruct (dialog_cache_bounded_fifo sample_events) as (H1 & H2 & H3).
  split; [exact H1|].
  destruct (H2 (fun _ => Returned "not asked")
              {| prompt := VStr "Say hello again";
                 cacheKey := Some (numbered_key 1) |}
              (numbered_key 1) (Some "10.0.0.7") 0 eq_refl)
    as (Hc & _ & Hr); [vm_compute; reflexivity|].
  split; [exact Hc|]. split.
  - rewrite Hr; [|vm_compute; reflexivity|reflexivity|reflexivity].
    replace (Map_get (numbered_key 1)
               (npcCache (serve_all sample_events initial_state)))
      with (Some "Hi!") by (vm_compute; reflexivity).
    reflexivity.
  - apply H3.
    + apply sample_requests_insert.
    + apply sample_entries_NoDup.
    + reflexivity.
Defined.

(** Five dialog requests of one caller within five seconds, all for the
    key [greeting]: the first is answered by the backend and cached, the
    next four are answered from the cache. *)
Definition greeting_request : request :=
  NpcDialog {| prompt := VStr "Say hello"; cacheKey := Some "greeting" |}.

Definition greeting_events : list (backend * option string * Z * request) :=
  map (fun now => (fun _ : string => Returned "Hello!",
                   Some "10.0.0.7", now, greeting_request))
      [0; 1000; 2000; 3000; 4000].

Definition greeting_state : serverState :=
  serve_all greeting_events initial_state.

(** C6 as stated fails in its last part.  In [greeting_state] the key
    [greeting] is in the cache; a request for that key whose prompt is
    missing is answered 400 by the prompt guard, and a sixth request of
    the same caller within the window is answered 429 by the middleware.
    Neither is answered with the cached dialog. *)
Lemma cached_key_not_served_counterexample :
  Map_get "greeting" (npcCache greeting_state) = Some "Hello!"
  /\ post_npc_dialog (fun _ => Returned "unused")
       {| prompt := VUndefined; cacheKey := Some "greeting" |}
       (Some "10.0.0.8") 5000 greeting_state
     = ({| rateLimiter :=
             <["10.0.0.8" := {| count := 1; firstRequest := 5000 |}]>
               (rateLimiter greeting_state);
           npcCache := npcCache greeting_state |},
        prompt_required, [])
  /\ post_npc_dialog (fun _ => Returned "unused")
       {| prompt := VStr "Say hello"; cacheKey := Some "greeting" |}
       (Some "10.0.0.7") 5000 greeting_state
     = (greeting_state, rate_limited, [])
  /\ prompt_required <> dialog_response "Hello!" true
  /\ rate_limited <> dialog_response "Hello!" true.
Proof.
  split; [vm_compute; reflexivity|]. split; [|split].
  - unfold post_npc_dialog, app_post.
    rewrite rateLimit_first by (vm_compute; reflexivity). reflexivity.
  - apply app_post_rejected.
    apply (rateLimit_exceeded (Some "10.0.0.7") 5000 5 0);
      [vm_compute; reflexivity|unfold RATE_LIMIT_WINDOW; lia|reflexivity].
  - split; discriminate.
Qed.

End GatewayProps.

(* ===================================================================== *)
(** * The sanitizer *)
(* ===================================================================== *)

Module SanitizeProps.
Import Regex Sanitize.

Lemma substring_length_le (n m : nat) (s : string) :
  (String.length (substring n m s) <= m)%nat.
Proof.
  revert n m. induction s as [|c s IH]; intros n m.
  - destruct n, m; simpl; lia.
  - destruct n as [|n]; simpl.
    + destruct m as [|m]; simpl; [lia|]. specialize (IH 0%nat m). lia.
    + apply IH.
Qed.

(** The output is never longer than [maxLength]. *)
Lemma sanitizeInput_length (input : value) (maxLength : option nat) :
  (String.length (sanitizeInput input maxLength) <= default 200 maxLength)%nat.
Proof.
  unfold sanitizeInput.
  destruct (negb (String.eqb (typeof input) "string")); [simpl; lia|].
  match goal with
  | |- context [(?m <? String.length ?c)%nat] =>
      destruct (m <? String.length c)%nat eqn:E
  end.
  - apply substring_length_le.
  - apply Nat.ltb_ge in E. exact E.
Qed.

(** Input that is not a string yields the empty string. *)
Lemma sanitizeInput_not_string (input : value) (maxLength : option nat) :
  typeof input <> "string" -> sanitizeInput input maxLength = "".
Proof.
  intros H. unfold sanitizeInput.
  destruct (String.eqb (typeof input) "string") eqn:E; [|reflexivity].
  apply String.eqb_eq in E. contradiction.
Qed.

(** Two backticks, a tag, a backtick: no fence until the tag is gone. *)
Definition masked_fence : string := "``<b>`x``<b>`".

(** C5 is not what the code does: the fenced-block pattern runs before
    the tag pattern, so a fence whose backticks are held apart by tags is
    not seen by the first and is put together by the second.  The output
    for [masked_fence] is the fenced block [```x```]. *)
Theorem sanitize_leaves_fenced_block :
  has_fenced_block masked_fence = false
  /\ sanitizeInput (VStr masked_fence) None = "```x```"
  /\ has_fenced_block (sanitizeInput (VStr masked_fence) None) = true.
Proof. repeat split; vm_compute; reflexivity. Qed.

End SanitizeProps.

(* ===================================================================== *)
(** * The response extractor *)
(* ===================================================================== *)

Module ExtractionProps.
Import Regex Gateway.

(** ** White space at the ends *)

Lemma drop_space_app_nonempty (a b : list ascii) :
  drop_space a <> [] -> drop_space (a ++ b) = drop_space a ++ b.
Proof.
  induction a as [|c a IH]; simpl; [congruence|].
  destruct (is_space c); [exact IH|reflexivity].
Qed.

Lemma drop_space_app_empty (a b : list ascii) :
  drop_space a = [] -> drop_space (a ++ b) = drop_space b.
Proof.
  induction a as [|c a IH]; simpl; [reflexivity|].
  destruct (is_space c); [exact IH|discriminate].
Qed.

Lemma drop_space_idem (a : list ascii) :
  drop_space (drop_space a) = drop_space a.
Proof.
  induction a as [|c a IH]; simpl; [reflexivity|].
  destruct (is_space c) eqn:E; [exact IH|]. simpl. rewrite E. reflexivity.
Qed.

Definition nl : ascii := ascii_of_nat 10.

(** Trimming does not see the white space the fence pattern skips, nor
    the line break before the closing fence. *)
Lemma trim_chars_interior (cs : list ascii) :
  trim_chars (drop_space (cs ++ [nl])) = trim_chars cs.
Proof.
  unfold trim_chars. rewrite drop_space_idem.
  destruct (drop_space cs) as [|c t] eqn:E.
  - rewrite (drop_space_app_empty cs [nl] E). reflexivity.
  - rewrite (drop_space_app_nonempty cs [nl]) by (rewrite E; discriminate).
    rewrite E, rev_app_distr. reflexivity.
Qed.

(** ** The quantifiers *)

(** The character before the position a run of white space ends at. *)
Fixpoint before_run (prev : option ascii) (cs : list ascii) : option ascii :=
  match cs with
  | c :: rest => if is_space c then before_run (Some c) rest else prev
  | [] => prev
  end.

(** The greedy [\s*] takes the whole run when what follows matches
    there. *)
Lemma take_greedy_space (k : position -> option position)
  (prev : option ascii) (cap : option (list ascii)) (cs : list ascii)
  (r : position) :
  k {| before := before_run prev cs; rest := drop_space cs; group1 := cap |}
  = Some r ->
  take_greedy white_space k prev cap cs = Some r.
Proof.
  revert prev. induction cs as [|c cs IH]; intros prev H; simpl in *.
  - exact H.
  - change (white_space c) with (is_space c). destruct (is_space c).
    + rewrite (IH (Some c) H). reflexivity.
    + exact H.
Qed.

Lemma fence_here (k : position -> option position) (st : position)
  (tail : list ascii) :
  rest st = "`"%char :: "`"%char :: "`"%char :: tail ->
  matches (Lit "```") false k st
  = k {| before := Some "`"%char; rest := tail; group1 := group1 st |}.
Proof.
  intros H. destruct st as [b r g]. simpl in H. subst r. reflexivity.
Qed.

Lemma json_here (k : position -> option position) (st : position)
  (tail : list ascii) :
  rest st = list_ascii_of_string "json" ++ tail ->
  matches (Lit "json") false k st
  = k {| before := Some "n"%char; rest := tail; group1 := group1 st |}.
Proof.
  intros H. destruct st as [b r g]. simpl in H. subst r. reflexivity.
Qed.

Lemma no_fence_here (k : position -> option position) (st : position) :
  starts_with_fence (rest st) = false ->
  matches (Lit "```") false k st = None.
Proof.
  destruct st as [b r g]. simpl.
  destruct r as [|c1 [|c2 [|c3 r]]]; simpl; unfold char_matches;
    try reflexivity;
    destruct (Ascii.eqb c1 "`"); try reflexivity;
    destruct (Ascii.eqb c2 "`"); try reflexivity;
    destruct (Ascii.eqb c3 "`"); try reflexivity.
  discriminate.
Qed.

(** The character before the position reached after [u]. *)
Definition before_after (prev : option ascii) (u : list ascii) : option ascii :=
  fold_left (fun _ c => Some c) u prev.

(** The lazy [[\s\S]*?] stops at the first position where what follows
    matches. *)
Lemma take_lazy_first (k : position -> option position)
  (prev : option ascii) (cap : option (list ascii))
  (u tail : list ascii) (r : position) :
  (forall i b, (i < List.length u)%nat ->
               k {| before := b; rest := drop i (u ++ tail); group1 := cap |}
               = None) ->
  k {| before := before_after prev u; rest := tail; group1 := cap |} = Some r ->
  take_lazy any_char k prev cap (u ++ tail) = Some r.
Proof.
  revert prev. induction u as [|c u IH]; intros prev Hnone Hk.
  - simpl in *. destruct tail; simpl; rewrite Hk; reflexivity.
  - pose proof (Hnone 0%nat prev ltac:(simpl; lia)) as H0. simpl in H0.
    simpl. rewrite H0. apply IH; [|exact Hk].
    intros i b Hi. apply (Hnone (S i) b). simpl. lia.
Qed.

(** ** Fences in the interior *)

Lemma has_triple_backtick_tail (c : ascii) (cs : list ascii) :
  has_triple_backtick (c :: cs) = false -> has_triple_backtick cs = false.
Proof.
  cbn [has_triple_backtick]. intros H.
  apply orb_false_elim in H. apply H.
Qed.

Lemma has_triple_backtick_head (cs : list ascii) :
  has_triple_backtick cs = false -> starts_with_fence cs = false.
Proof.
  destruct cs as [|c cs]; [reflexivity|].
  cbn [has_triple_backtick]. intros H.
  apply orb_false_elim in H. apply H.
Qed.

Lemma has_triple_backtick_drop_space (cs : list ascii) :
  has_triple_backtick cs = false ->
  has_triple_backtick (drop_space cs) = false.
Proof.
  induction cs as [|c cs IH]; intros H; [reflexivity|].
  cbn [drop_space]. destruct (is_space c); [|exact H].
  apply IH, (has_triple_backtick_tail c cs H).
Qed.

Definition fence : list ascii := ["`"%char; "`"%char; "`"%char].

(** In a fence-free text followed by a line break and the closing fence,
    no fence starts before the closing one. *)
Lemma no_fence_before_closing (x : list ascii) (i : nat) :
  has_triple_backtick x = false ->
  (i < List.length (x ++ [nl]))%nat ->
  starts_with_fence (drop i ((x ++ [nl]) ++ fence)) = false.
Proof.
  revert i. induction x as [|c x IH]; intros i Hx Hi.
  - simpl in Hi. destruct i; [reflexivity|lia].
  - destruct i as [|i].
    + pose proof (has_triple_backtick_head _ Hx) as Hh.
      destruct x as [|c2 [|c3 x]]; [| |exact Hh].
      * simpl. destruct (Ascii.eqb c "`"); reflexivity.
      * simpl. destruct (Ascii.eqb c "`"), (Ascii.eqb c2 "`"); reflexivity.
    + simpl. apply IH; [apply (has_triple_backtick_tail c x Hx)|].
      simpl in Hi. lia.
Qed.

(** ** The fence pattern on a wrapped text *)

Lemma list_ascii_of_string_app (a b : string) :
  list_ascii_of_string (a ++ b)
  = list_ascii_of_string a ++ list_ascii_of_string b.
Proof.
  induction a as [|c a IH]; simpl; [reflexivity|]. rewrite IH. reflexivity.
Qed.

Lemma drop_space_before_fence (x : list ascii) :
  drop_space (x ++ fence) = drop_space x ++ fence.
Proof.
  destruct (drop_space x) as [|c t] eqn:E.
  - rewrite (drop_space_app_empty x fence E). reflexivity.
  - rewrite (drop_space_app_nonempty x fence) by (rewrite E; discriminate).
    rewrite E. reflexivity.
Qed.

Lemma interior_fence_free (cs : list ascii) (i : nat) :
  has_triple_backtick cs = false ->
  (i < List.length (drop_space (cs ++ [nl])))%nat ->
  starts_with_fence (drop i (drop_space (cs ++ [nl]) ++ fence)) = false.
Proof.
  intros Hcs. destruct (drop_space cs) as [|c t] eqn:E.
  - rewrite (drop_space_app_empty cs [nl] E). simpl. lia.
  - rewrite (drop_space_app_nonempty cs [nl]) by (rewrite E; discriminate).
    apply no_fence_before_closing, has_triple_backtick_drop_space, Hcs.
Qed.

(** On a fence-free interior wrapped as a [json] block, the pattern
    matches from the first character to the last and captures the
    interior, less its leading white space, plus the line break. *)
Lemma match_wrapped (cs : list ascii) :
  has_triple_backtick cs = false ->
  match_here fence_pattern false None
    (list_ascii_of_string "```json" ++ nl :: cs ++ nl :: fence)
  = Some {| before := Some "`"%char; rest := [];
            group1 := Some (drop_space (cs ++ [nl])) |}.
Proof.
  intros Hcs. unfold match_here, fence_pattern.
  cbn [Cat matches list_ascii_of_string app].
  rewrite (fence_here _ _ (list_ascii_of_string "json"
                            ++ nl :: cs ++ nl :: fence)) by reflexivity.
  rewrite (json_here _ _ (nl :: cs ++ nl :: fence)) by reflexivity.
  cbn [rest before group1].
  set (u := drop_space (cs ++ [nl])).
  set (final := {| before := Some "`"%char; rest := [];
                   group1 := Some u |}).
  match goal with
  | |- match ?t with Some res => Some res | None => _ end = _ =>
      assert (E : t = Some final); [|rewrite E; reflexivity]
  end.
  apply take_greedy_space.
  replace (drop_space (nl :: cs ++ nl :: fence)) with (u ++ fence).
  2:{ change (nl :: cs ++ nl :: fence) with ([nl] ++ (cs ++ nl :: fence)).
      rewrite (drop_space_app_empty [nl] _ eq_refl).
      change (cs ++ nl :: fence) with (cs ++ [nl] ++ fence).
      rewrite app_assoc, drop_space_before_fence. reflexivity. }
  cbn [rest before group1].
  apply take_lazy_first.
  - intros i b Hi. apply no_fence_here. cbn [rest].
    apply interior_fence_free; assumption.
  - rewrite (fence_here _ _ []) by reflexivity.
    cbn [rest before group1]. unfold final. do 3 f_equal.
    rewrite length_app. replace (List.length u + List.length fence
                                 - List.length fence)%nat
      with (List.length u) by lia.
    rewrite firstn_app, firstn_all, Nat.sub_diag. simpl.
    apply app_nil_r.
Qed.

(** The text handed to [JSON.parse] for a wrapped fence-free interior is
    the trimmed interior. *)
Lemma json_source_wrapped (s : string) :
  has_triple_backtick (list_ascii_of_string s) = false ->
  json_source (wrap_fenced s) = trim s.
Proof.
  intros Hs. unfold json_source, exec, wrap_fenced, newline.
  rewrite !list_ascii_of_string_app.
  change (list_ascii_of_string (String (ascii_of_nat 10) EmptyString))
    with [nl].
  change (list_ascii_of_string "```") with fence.
  change ([nl] ++ list_ascii_of_string s ++ [nl] ++ fence)
    with (nl :: list_ascii_of_string s ++ nl :: fence).
  assert (E : exec_from fence_pattern false None
                (list_ascii_of_string "```json"
                 ++ nl :: list_ascii_of_string s ++ nl :: fence)
              = Some ([], {| before := Some "`"%char; rest := [];
                             group1 := Some (drop_space
                                               (list_ascii_of_string s ++ [nl])) |})).
  { cbn [list_ascii_of_string app exec_from].
    change ("`"%char :: "`"%char :: "`"%char :: "j"%char :: "s"%char
            :: "o"%char :: "n"%char :: nl :: list_ascii_of_string s
            ++ nl :: fence)
      with (list_ascii_of_string "```json"
            ++ nl :: list_ascii_of_string s ++ nl :: fence).
    rewrite (match_wrapped _ Hs). reflexivity. }
  rewrite E. cbn [group1]. change (default [] (Some ?x)) with x.
  unfold trim. rewrite list_ascii_of_string_of_list_ascii.
  rewrite trim_chars_interior. reflexivity.
Qed.

(** C7, as the code has it.  For every interior text that holds no
    three backticks in a row, running the extraction of the level path
    on the text wrapped as a [json] fenced block gives what parsing the
    trimmed interior gives: the same value, or the same failure. *)
Theorem extract_wrapped_is_parse_interior (s : string) :
  has_triple_backtick (list_ascii_of_string s) = false ->
  extract_level (wrap_fenced s) = JSON.JSON_parse (trim s).
Proof.
  intros Hs. unfold extract_level. rewrite (json_source_wrapped s Hs).
  reflexivity.
Qed.

(** The theorem on a small array, with white space around it. *)
Lemma extract_wrapped_witness :
  extract_level (wrap_fenced "  [1, 2] ") = JSON.JSON_parse (trim "  [1, 2] ").
Proof.
  apply (extract_wrapped_is_parse_interior "  [1, 2] "). reflexivity.
Defined.

(** The JSON text of the string made of three backticks. *)
Definition quoted_fence : string :=
  String JSON.dquote ("```" ++ String JSON.dquote EmptyString).

(** C7 as stated fails for an interior that holds three backticks in a
    row: parsed alone, [quoted_fence] is the string of three backticks;
    wrapped, the lazy capture stops at those backticks, the text handed
    to [JSON.parse] is a lone quote, and the extraction fails. *)
Lemma extract_wrapped_counterexample :
  JSON.JSON_parse (trim quoted_fence) = Returned (VStr "```")
  /\ json_source (wrap_fenced quoted_fence) = String JSON.dquote EmptyString
  /\ extract_level (wrap_fenced quoted_fence)
     = Thrown (SyntaxError "Unexpected token, not valid JSON").
Proof. repeat split; vm_compute; reflexivity. Qed.

End ExtractionProps.

(* ===================================================================== *)
(** * The difficulty controller: steps and descriptions *)
(* ===================================================================== *)

Module DifficultySteps.
Import DifficultyEngine DifficultyText.

Lemma deathsFactor_bounds (d : num) : -2 <= deathsFactor d <= 1.
Proof.
  unfold deathsFactor.
  destruct (num_ge d 5); [lra|]. destruct (num_ge d 3); [lra|].
  destruct (num_eq d 0); lra.
Qed.

Lemma paceFactor_bounds (t : num) : -1 <= paceFactor t <= 1.
Proof.
  unfold paceFactor.
  destruct (num_lt t 3); [lra|]. destruct (num_gt t 10); lra.
Qed.

Lemma coinFactor_bounds (r : num) : -1 <= coinFactor r <= 1.
Proof.
  unfold coinFactor.
  destruct (num_gt r 0.9); [lra|]. destruct (num_lt r 0.3); lra.
Qed.

Lemma clamp_step (c delta : Q) :
  1 <= c <= 10 -> -4 <= delta <= 3 ->
  num_le (Fin (c - 4)) (clamp (Fin (c + delta))) = true
  /\ num_le (clamp (Fin (c + delta))) (Fin (c + 3)) = true.
Proof.
  intros Hc Hd.
  unfold clamp, LEVEL.MIN_DIFFICULTY, LEVEL.MAX_DIFFICULTY.
  num_unfold. simpl. split; qcases; q2p; lra.
Qed.

(** X1. One level moves the difficulty by three up at most and four down
    at most.  For a current difficulty within [[1,10]] the next one lies
    between the current one minus 4 and the current one plus 3. *)
Theorem next_difficulty_step (s : PerformanceStats) (c : Q) :
  default (Fin 1) (currentDifficulty s) = Fin c -> 1 <= c <= 10 ->
  num_le (Fin (c - 4)) (calculateNextDifficulty s) = true
  /\ num_le (calculateNextDifficulty s) (Fin (c + 3)) = true.
Proof.
  intros Ec Hc. rewrite DifficultyProps.calculateNextDifficulty_factors, Ec.
  cbn [num_add].
  pose proof (deathsFactor_bounds (default (Fin 0) (deaths s))).
  pose proof (paceFactor_bounds
                (timePerPlatform_of (default (Fin 60) (completionTime s)) (Fin c))).
  pose proof (coinFactor_bounds
                (coinRatio_of (default (Fin 0) (coinsCollected s))
                              (default (Fin 1) (totalCoins s)))).
  apply clamp_step; [exact Hc|lra].
Qed.

(** A stats object that gives the current difficulty and nothing else. *)
Definition stats_at (current : num) : PerformanceStats :=
  {| deaths := None; completionTime := None; coinsCollected := None;
     totalCoins := None; currentDifficulty := Some current |}.

(** The theorem at level 5 with nothing else known: the result, 4, lies
    between 1 and 8. *)
Lemma next_difficulty_step_witness :
  num_le (Fin (5 - 4)) (calculateNextDifficulty (stats_at (Fin 5))) = true
  /\ num_le (calculateNextDifficulty (stats_at (Fin 5))) (Fin (5 + 3)) = true.
Proof.
  apply (next_difficulty_step (stats_at (Fin 5)) 5); [reflexivity|lra].
Defined.

(** X2. A level without coins counts as a level whose coins were all
    missed.  When [totalCoins] is not above zero, the coins collected do
    not matter: the result is the one for no coin collected out of one. *)
Theorem no_coins_counts_as_none_collected
  (d t c cd : option num) (total : num) :
  num_gt total 0 = false ->
  calculateNextDifficulty
    {| deaths := d; completionTime := t; coinsCollected := c;
       totalCoins := Some total; currentDifficulty := cd |}
  = calculateNextDifficulty
      {| deaths := d; completionTime := t; coinsCollected := Some (Fin 0);
         totalCoins := Some (Fin 1); currentDifficulty := cd |}.
Proof.
  intros H. rewrite !DifficultyProps.calculateNextDifficulty_factors.
  cbn [deaths completionTime coinsCollected totalCoins currentDifficulty].
  unfold coinRatio_of. cbn [default from_option id].
  rewrite H. reflexivity.
Qed.

(** The theorem for all fifteen coins collected of a total of zero. *)
Lemma no_coins_counts_as_none_collected_witness :
  calculateNextDifficulty
    {| deaths := None; completionTime := None; coinsCollected := Some (Fin 15);
       totalCoins := Some (Fin 0); currentDifficulty := Some (Fin 5) |}
  = calculateNextDifficulty
      {| deaths := None; completionTime := None; coinsCollected := Some (Fin 0);
         totalCoins := Some (Fin 1); currentDifficulty := Some (Fin 5) |}.
Proof.
  apply (no_coins_counts_as_none_collected None None (Some (Fin 15))
           (Some (Fin 5)) (Fin 0)).
  reflexivity.
Defined.

(** X3. Each description stands for a band of difficulties.  A
    difficulty between two that share a description has that description
    too. *)
Theorem description_bands (d1 d d2 : num) :
  num_le d1 d = true -> num_le d d2 = true ->
  difficultyToDescription d1 = difficultyToDescription d2 ->
  difficultyToDescription d = difficultyToDescription d1.
Proof.
  unfold difficultyToDescription.
  destruct d1 as [| | |x1], d as [| | |x], d2 as [| | |x2];
    num_unfold; simpl; try discriminate; try reflexivity;
    intros H1 H2; qcases; intros H3;
    try reflexivity; try discriminate H3; exfalso; q2p; lra.
Qed.

(** The theorem between 4.5 and 6. *)
Lemma description_bands_witness :
  difficultyToDescription (Fin 5) = difficultyToDescription (Fin 4.5).
Proof.
  apply (description_bands (Fin 4.5) (Fin 5) (Fin 6)); reflexivity.
Defined.

(** X4. A NaN difficulty reads as the hardest.  No comparison holds for
    NaN, so the description falls through to the last one; and that is
    what a stats object with a NaN current difficulty leads to. *)
Theorem nan_reads_as_hardest (s : PerformanceStats) :
  currentDifficulty s = Some NaN ->
  difficultyToDescription (calculateNextDifficulty s)
  = "extremely difficult with tiny platforms, maximum gaps, and many aggressive enemies".
Proof.
  intros H. rewrite (DifficultyProps.calculateNextDifficulty_nan s H).
  reflexivity.
Qed.

Lemma nan_reads_as_hardest_witness :
  difficultyToDescription (calculateNextDifficulty (stats_at NaN))
  = "extremely difficult with tiny platforms, maximum gaps, and many aggressive enemies".
Proof. apply (nan_reads_as_hardest (stats_at NaN)). reflexivity. Defined.

End DifficultySteps.

(* ===================================================================== *)
(** * The level validator: what a result holds *)
(* ===================================================================== *)

Module ValidatorOutput.
Import LevelValidator ValidatorProps.

(** ** The built-in level of the store *)

(** What the validator makes of the level the game ships with: a result
    with [valid: true]. *)
Definition default_result : ValidationResult :=
  Eval vm_compute in
    match snd (validateLevelData GameStore.DEFAULT_LEVEL) with
    | Returned r => r
    | Thrown _ => {| valid := false; errors := []; data := VNull |}
    end.

Lemma validate_default_level :
  validateLevelData GameStore.DEFAULT_LEVEL
  = (GameStore.DEFAULT_LEVEL, Returned default_result).
Proof. vm_compute. reflexivity. Qed.

(** ** The shape of a result *)

Lemma result_shape (raw raw' : value) (r : ValidationResult) :
  validateLevelData raw = (raw', Returned r) ->
  (valid r = true /\ errors r = [] /\ exists fields, data r = VObj fields)
  \/ (valid r = false /\ errors r <> [] /\ data r = VNull).
Proof.
  unfold validateLevelData. intros H.
  destruct (negb (truthy raw) || negb (String.eqb (typeof raw) "object")).
  { inversion H; subst. right. repeat split. discriminate. }
  destruct (js_filter platform_ok _) as [validPlatforms|]; [|discriminate H].
  destruct (js_or (prop raw "enemies") (VArr []))
    as [| | | | | |enemies]; try discriminate H.
  destruct (filter_enemies enemies) as [enemies' [keptEnemies|]];
    [|discriminate H].
  destruct (js_filter coin_ok _) as [keptCoins|]; [|discriminate H].
  match type of H with
  | (if (0 <? List.length ?errs)%nat then _ else _) = _ =>
      destruct errs as [|e errs'] eqn:Herrs
  end; simpl in H; inversion H; subst.
  - left. repeat split. eexists. reflexivity.
  - right. repeat split. discriminate.
Qed.

(** X5. A result is all of one kind or all of the other.  With [valid:
    true] come no errors and a data object; with [valid: false] come at
    least one error and [data: null]. *)
Theorem result_is_consistent (raw raw' : value) (r : ValidationResult) :
  validateLevelData raw = (raw', Returned r) ->
  (valid r = true /\ errors r = [] /\ exists fields, data r = VObj fields)
  \/ (valid r = false /\ errors r <> [] /\ data r = VNull).
Proof. apply result_shape. Qed.

(** The theorem on the built-in level. *)
Lemma result_is_consistent_witness :
  (valid default_result = true /\ errors default_result = []
   /\ exists fields, data default_result = VObj fields)
  \/ (valid default_result = false /\ errors default_result <> []
      /\ data default_result = VNull).
Proof.
  exact (result_is_consistent GameStore.DEFAULT_LEVEL GameStore.DEFAULT_LEVEL
           default_result validate_default_level).
Defined.

(** ** Enemies *)

Lemma includes_inv (names : list string) (v : value) :
  includes names v = true -> exists s, v = VStr s /\ In s names.
Proof.
  destruct v; simpl; try discriminate. intros H.
  apply existsb_exists in H. destruct H as (x & Hin & Hx).
  apply String.eqb_eq in Hx. subst x. eauto.
Qed.

(** An entry as the enemies filter keeps it. *)
Definition enemy_checked (e : value) : Prop :=
  exists (x y : num) (type behavior : string),
    prop e "x" = VNum x /\ prop e "y" = VNum y
    /\ prop e "type" = VStr type /\ In type ["goomba"; "koopa"]
    /\ prop e "behavior" = VStr behavior /\ In behavior ["patrol"; "chase"].

Lemma enemy_ok_true_inv (e e' : value) :
  enemy_ok e = (e', Returned true) -> enemy_checked e'.
Proof.
  unfold enemy_ok, getProp.
  destruct (nullish e); [discriminate|]. cbn iota.
  destruct (is_number (prop e "x")) eqn:Hx; [|discriminate].
  destruct (is_number (prop e "y")) eqn:Hy; [|discriminate].
  cbn [negb orb].
  destruct (includes ["goomba"; "koopa"] (prop e "type")) eqn:Ht;
    [|discriminate].
  cbn [negb].
  apply is_number_inv in Hx, Hy. destruct Hx as [x Hx], Hy as [y Hy].
  apply includes_inv in Ht. destruct Ht as (t & Ht & Htin).
  destruct (includes ["patrol"; "chase"] (prop e "behavior")) eqn:Hb;
    cbn [negb]; intros H; inversion H; subst e'; clear H.
  - apply includes_inv in Hb. destruct Hb as (b & Hb & Hbin).
    exists x, y, t, b. auto 10.
  - destruct e as [| | | | |fields|]; try discriminate Ht.
    exists x, y, t, "patrol". cbn [setProp prop] in *.
    rewrite !lookup_store_ne by discriminate.
    rewrite lookup_store_eq. simpl. auto 10.
Qed.

Lemma filter_enemies_kept (elems elems' kept : list value) :
  filter_enemies elems = (elems', Returned kept) ->
  forall e, In e kept -> enemy_checked e.
Proof.
  revert elems' kept. induction elems as [|a rest IH]; intros elems' kept H e He.
  - inversion H; subst. destruct He.
  - simpl in H. destruct (enemy_ok a) as [a' [keep|]] eqn:Ha; [|discriminate H].
    destruct (filter_enemies rest) as [rest' [kept'|]] eqn:Hr;
      [|discriminate H].
    simpl in H. inversion H; subst. clear H.
    destruct keep.
    + destruct He as [<-|He]; [apply (enemy_ok_true_inv a), Ha|].
      apply (IH rest' kept' eq_refl e He).
    + apply (IH rest' kept' eq_refl e He).
Qed.

(** X6. The enemies of a valid result.  There are 15 of them at most, and
    each is an object of exactly the five properties x, y, z, type and
    behavior, with numbers for x and y, 0 for z, goomba or koopa for the
    type and patrol or chase for the behavior. *)
Theorem valid_enemies_are_whitelisted (raw raw' : value) (r : ValidationResult) :
  validateLevelData raw = (raw', Returned r) -> valid r = true ->
  exists enemies : list value,
    prop (data r) "enemies" = VArr enemies
    /\ (List.length enemies <= 15)%nat
    /\ forall e, In e enemies ->
         exists (x y : num) (type behavior : string),
           e = VObj [("x", VNum x); ("y", VNum y); ("z", VNum (Fin 0));
                     ("type", VStr type); ("behavior", VStr behavior)]
           /\ In type ["goomba"; "koopa"]
           /\ In behavior ["patrol"; "chase"].
Proof.
  intros H Hv.
  destruct (validate_valid_inv raw raw' r H Hv)
    as (elems & vps & enemies & enemies' & keptEnemies & keptCoins
        & Hp & Hlen & Hf & Hne & Hs & Hg & He & Hfe & Hx' & Hc & Hr & Hd).
  rewrite Hd.
  exists (map normalize_enemy (firstn LEVEL.MAX_ENEMIES keptEnemies)).
  split; [reflexivity|]. split.
  - rewrite length_map, length_firstn. unfold LEVEL.MAX_ENEMIES. lia.
  - intros e Hin. apply in_map_iff in Hin. destruct Hin as (e0 & <- & Hin).
    apply In_firstn_In in Hin.
    destruct (filter_enemies_kept _ _ _ Hfe e0 Hin)
      as (x & y & t & b & Ex & Ey & Et & Htin & Eb & Hbin).
    exists x, y, t, b. unfold normalize_enemy. rewrite Ex, Ey, Et, Eb. auto.
Qed.

(** The theorem on the built-in level and its five enemies. *)
Lemma valid_enemies_are_whitelisted_witness :
  exists enemies : list value,
    prop (data default_result) "enemies" = VArr enemies
    /\ (List.length enemies <= 15)%nat
    /\ forall e, In e enemies ->
         exists (x y : num) (type behavior : string),
           e = VObj [("x", VNum x); ("y", VNum y); ("z", VNum (Fin 0));
                     ("type", VStr type); ("behavior", VStr behavior)]
           /\ In type ["goomba"; "koopa"]
           /\ In behavior ["patrol"; "chase"].
Proof.
  exact (valid_enemies_are_whitelisted GameStore.DEFAULT_LEVEL
           GameStore.DEFAULT_LEVEL default_result
           validate_default_level eq_refl).
Defined.

(** ** Coins *)

Lemma coin_ok_true_inv (c : value) :
  coin_ok c = Returned true ->
  exists (fields : list (string * value)) (x y : num),
    c = VObj fields /\ prop c "x" = VNum x /\ prop c "y" = VNum y.
Proof.
  unfold coin_ok, getProp. destruct (nullish c); [discriminate|].
  cbn [mbind outcome_bind mret outcome_ret]. intros H.
  injection H as H.
  apply andb_prop in H. destruct H as [Hx Hy].
  apply is_number_inv in Hx, Hy. destruct Hx as [x Hx], Hy as [y Hy].
  destruct c as [| | | | |fields|]; try (simpl in Hx; discriminate Hx).
  exists fields, x, y. auto.
Qed.

(** X7. The coins of a valid result.  There are 30 of them at most, and
    each has numbers for x and y, 0 for z and [false] for collected,
    whatever the document said of z and collected. *)
Theorem valid_coins_are_fresh (raw raw' : value) (r : ValidationResult) :
  validateLevelData raw = (raw', Returned r) -> valid r = true ->
  exists coins : list value,
    prop (data r) "coins" = VArr coins
    /\ (List.length coins <= 30)%nat
    /\ forall c, In c coins ->
         exists x y : num,
           prop c "x" = VNum x /\ prop c "y" = VNum y
           /\ prop c "z" = VNum (Fin 0)
           /\ prop c "collected" = VBool false.
Proof.
  intros H Hv.
  destruct (validate_valid_inv raw raw' r H Hv)
    as (elems & vps & enemies & enemies' & keptEnemies & keptCoins
        & Hp & Hlen & Hf & Hne & Hs & Hg & He & Hfe & Hx' & Hc & Hr & Hd).
  rewrite Hd.
  exists (firstn LEVEL.MAX_COINS (map normalize_coin keptCoins)).
  split; [reflexivity|]. split.
  - rewrite length_firstn. unfold LEVEL.MAX_COINS. lia.
  - intros c Hin. apply In_firstn_In in Hin.
    apply in_map_iff in Hin. destruct Hin as (c0 & <- & Hin).
    assert (Hk : coin_ok c0 = Returned true).
    { destruct (js_or (prop raw' "coins") (VArr [])); try discriminate Hc.
      apply (filter_list_kept _ _ _ Hc c0 Hin). }
    destruct (coin_ok_true_inv c0 Hk) as (fields & x & y & -> & Ex & Ey).
    exists x, y. unfold normalize_coin. cbn [own_fields prop] in *.
    rewrite !lookup_store_ne by discriminate.
    rewrite !lookup_store_eq. auto.
Qed.

(** The theorem on the built-in level and its fifteen coins. *)
Lemma valid_coins_are_fresh_witness :
  exists coins : list value,
    prop (data default_result) "coins" = VArr coins
    /\ (List.length coins <= 30)%nat
    /\ forall c, In c coins ->
         exists x y : num,
           prop c "x" = VNum x /\ prop c "y" = VNum y
           /\ prop c "z" = VNum (Fin 0)
           /\ prop c "collected" = VBool false.
Proof.
  exact (valid_coins_are_fresh GameStore.DEFAULT_LEVEL
           GameStore.DEFAULT_LEVEL default_result
           validate_default_level eq_refl).
Defined.

(** ** Platforms *)

Lemma truthy_js_or (v : value) (d : num) :
  num_truthy d = true -> truthy (js_or v (VNum d)) = true.
Proof.
  intros H. unfold js_or. destruct (truthy v) eqn:E; [exact E|exact H].
Qed.

(** X8. The platforms of a valid result.  There are between 1 and 50 of
    them, and each has 0 for z, one of the five known types, and a
    height and a depth that are truthy. *)
Theorem valid_platforms_are_normalized (raw raw' : value) (r : ValidationResult) :
  validateLevelData raw = (raw', Returned r) -> valid r = true ->
  exists platforms : list value,
    prop (data r) "platforms" = VArr platforms
    /\ (1 <= List.length platforms <= 50)%nat
    /\ forall p, In p platforms ->
         prop p "z" = VNum (Fin 0)
         /\ (exists type : string,
               prop p "type" = VStr type
               /\ In type ["grass"; "brick"; "stone"; "ice"; "lava"])
         /\ truthy (prop p "height") = true
         /\ truthy (prop p "depth") = true.
Proof.
  intros H Hv.
  destruct (validate_valid_inv raw raw' r H Hv)
    as (elems & vps & enemies & enemies' & keptEnemies & keptCoins
        & Hp & Hlen & Hf & Hne & Hs & Hg & He & Hfe & Hx' & Hc & Hr & Hd).
  rewrite Hd. exists (map normalize_platform vps).
  split; [reflexivity|]. split.
  - rewrite length_map. pose proof (filter_list_length _ _ _ Hf).
    unfold LEVEL.MAX_PLATFORMS in Hlen.
    destruct vps; [congruence|simpl in *; lia].
  - intros p Hin. apply in_map_iff in Hin. destruct Hin as (p0 & <- & Hin).
    unfold normalize_platform. cbn [prop lookup_field String.eqb Ascii.eqb Bool.eqb].
    split; [reflexivity|]. split; [|split; apply truthy_js_or; reflexivity].
    destruct (includes ["grass"; "brick"; "stone"; "ice"; "lava"]
                (prop p0 "type")) eqn:Ht.
    + apply includes_inv in Ht. destruct Ht as (t & Ht & Htin). eauto.
    + exists "grass". split; [reflexivity|]. left. reflexivity.
Qed.

(** The theorem on the built-in level and its twelve platforms. *)
Lemma valid_platforms_are_normalized_witness :
  exists platforms : list value,
    prop (data default_result) "platforms" = VArr platforms
    /\ (1 <= List.length platforms <= 50)%nat
    /\ forall p, In p platforms ->
         prop p "z" = VNum (Fin 0)
         /\ (exists type : string,
               prop p "type" = VStr type
               /\ In type ["grass"; "brick"; "stone"; "ice"; "lava"])
         /\ truthy (prop p "height") = true
         /\ truthy (prop p "depth") = true.
Proof.
  exact (valid_platforms_are_normalized GameStore.DEFAULT_LEVEL
           GameStore.DEFAULT_LEVEL default_result
           validate_default_level eq_refl).
Defined.

(** ** Difficulty *)

(** X9. The difficulty of a valid result is a number, and it lies in
    [[1,10]] unless it is NaN; it is not NaN when the document gives a
    number for the difficulty or gives none. *)
Theorem valid_difficulty_is_clamped (raw raw' : value) (r : ValidationResult) :
  validateLevelData raw = (raw', Returned r) -> valid r = true ->
  exists d : num,
    prop (data r) "difficulty" = VNum d
    /\ (is_nan d = true \/ DifficultyEngine.in_range d = true)
    /\ (is_number (prop raw "difficulty") = true
        \/ prop raw "difficulty" = VUndefined ->
        DifficultyEngine.in_range d = true).
Proof.
  intros H Hv.
  destruct (validate_valid_inv raw raw' r H Hv)
    as (elems & vps & enemies & enemies' & keptEnemies & keptCoins
        & Hp & Hlen & Hf & Hne & Hs & Hg & He & Hfe & Hx' & Hc & Hr & Hd).
  rewrite Hd, Hx'. eexists. split; [reflexivity|].
  rewrite prop_write_back_ne by discriminate.
  change (Math_min (Fin 10) (Math_max (Fin 1) ?v))
    with (DifficultyEngine.clamp v).
  set (v := ToNumber (js_or (prop raw "difficulty") (VNum (Fin 1)))).
  split.
  - destruct (is_nan v) eqn:En.
    + left. destruct v; try discriminate En. reflexivity.
    + right. apply DifficultyProps.clamp_in_range, En.
  - intros Hnum. apply DifficultyProps.clamp_in_range. unfold v, js_or.
    destruct Hnum as [Hnum| ->]; [|reflexivity].
    apply is_number_inv in Hnum. destruct Hnum as [n ->].
    destruct n as [| | |q]; try reflexivity.
    simpl. destruct (Qeq_bool q 0); reflexivity.
Qed.

(** The theorem on the built-in level, of difficulty 1. *)
Lemma valid_difficulty_is_clamped_witness :
  exists d : num,
    prop (data default_result) "difficulty" = VNum d
    /\ (is_nan d = true \/ DifficultyEngine.in_range d = true)
    /\ (is_number (prop GameStore.DEFAULT_LEVEL "difficulty") = true
        \/ prop GameStore.DEFAULT_LEVEL "difficulty" = VUndefined ->
        DifficultyEngine.in_range d = true).
Proof.
  exact (valid_difficulty_is_clamped GameStore.DEFAULT_LEVEL
           GameStore.DEFAULT_LEVEL default_result
           validate_default_level eq_refl).
Defined.

(** ** Too many platforms *)

Lemma check_valid_platforms_cons (e : error) (errors : list error)
  (validPlatforms : list value) :
  check_valid_platforms (e :: errors) validPlatforms = e :: errors.
Proof.
  unfold check_valid_platforms. cbn [List.length Nat.eqb].
  rewrite andb_false_r. reflexivity.
Qed.

Lemma check_point_cons (message e : error) (errors : list error) (point : value) :
  exists more, check_point message (e :: errors) point = e :: more.
Proof.
  unfold check_point. destruct (negb (truthy point) || _); eexists; reflexivity.
Qed.

(** X10. A document of more than 50 platforms is refused, whatever else it
    holds: the result is [valid: false] and its first error is the count
    of the platforms. *)
Theorem too_many_platforms_refused (raw raw' : value) (r : ValidationResult)
  (elems : list value) :
  prop raw "platforms" = VArr elems ->
  (LEVEL.MAX_PLATFORMS < List.length elems)%nat ->
  validateLevelData raw = (raw', Returned r) ->
  valid r = false
  /\ data r = VNull
  /\ exists more, errors r = TooManyPlatforms (List.length elems) :: more.
Proof.
  intros Hp Hlen H.
  destruct (prop_is_array_obj raw _ _ Hp) as [fields ->].
  unfold validateLevelData in H.
  change (negb (truthy (VObj fields))
          || negb (String.eqb (typeof (VObj fields)) "object"))
    with false in H.
  cbv iota in H. rewrite Hp in H.
  destruct (js_filter platform_ok _) as [validPlatforms|]; [|discriminate H].
  destruct (js_or _ (VArr [])) as [| | | | | |enemies]; try discriminate H.
  destruct (filter_enemies enemies) as [enemies' [keptEnemies|]];
    [|discriminate H].
  destruct (js_filter coin_ok _) as [keptCoins|]; [|discriminate H].
  assert (E : check_platform_count [] (VArr elems)
              = [TooManyPlatforms (List.length elems)]).
  { unfold check_platform_count. destruct elems as [|e rest];
      [simpl in Hlen; lia|].
    apply Nat.ltb_lt in Hlen. rewrite Hlen. reflexivity. }
  rewrite E, check_valid_platforms_cons in H.
  destruct (check_point_cons BadSpawnPoint
              (TooManyPlatforms (List.length elems)) []
              (prop (VObj fields) "spawnPoint")) as [more1 E1].
  rewrite E1 in H.
  destruct (check_point_cons BadGoalPosition
              (TooManyPlatforms (List.length elems)) more1
              (prop (VObj fields) "goalPosition")) as [more2 E2].
  rewrite E2 in H. cbn [app List.length Nat.ltb Nat.leb] in H.
  inversion H; subst. repeat split. eexists. reflexivity.
Qed.

(** A platform the filter keeps, fifty-one times over. *)
Definition crowded_level : value :=
  VObj [("platforms", VArr (repeat (GameStore.platform 0 0 0 4 1 4 "grass") 51));
        ("spawnPoint", GameStore.point 2 2 0);
        ("goalPosition", GameStore.point 80 0 0)].

Lemma too_many_platforms_refused_witness :
  valid {| valid := false; errors := [TooManyPlatforms 51]; data := VNull |}
  = false
  /\ data {| valid := false; errors := [TooManyPlatforms 51]; data := VNull |}
     = VNull
  /\ exists more,
       errors {| valid := false; errors := [TooManyPlatforms 51]; data := VNull |}
       = TooManyPlatforms
           (List.length (repeat (GameStore.platform 0 0 0 4 1 4 "grass") 51))
         :: more.
Proof.
  apply (too_many_platforms_refused crowded_level crowded_level
           {| valid := false; errors := [TooManyPlatforms 51]; data := VNull |}
           (repeat (GameStore.platform 0 0 0 4 1 4 "grass") 51)).
  - reflexivity.
  - unfold LEVEL.MAX_PLATFORMS. simpl. lia.
  - vm_compute. reflexivity.
Defined.

(** ** The argument *)

Definition enemies_of (raw : value) : list value :=
  match prop raw "enemies" with
  | VArr enemies => enemies
  | _ => []
  end.

Lemma enemy_ok_same (e : value) :
  needs_coercion e = false -> fst (enemy_ok e) = e.
Proof.
  unfold needs_coercion, enemy_ok, getProp.
  destruct (nullish e); [reflexivity|]. cbn iota.
  destruct (is_number (prop e "x")); [|reflexivity].
  destruct (is_number (prop e "y")); [|reflexivity].
  cbn [negb orb andb].
  destruct (includes ["goomba"; "koopa"] (prop e "type")); [|reflexivity].
  cbn [negb andb].
  destruct (includes ["patrol"; "chase"] (prop e "behavior"));
    [reflexivity|discriminate].
Qed.

Lemma filter_enemies_same (elems : list value) :
  (forall e, In e elems -> needs_coercion e = false) ->
  fst (filter_enemies elems) = elems.
Proof.
  induction elems as [|a rest IH]; intros H; [reflexivity|].
  simpl. pose proof (enemy_ok_same a (H a (or_introl eq_refl))) as Ha.
  destruct (enemy_ok a) as [a' [keep|]]; simpl in Ha; subst a';
    [|reflexivity].
  specialize (IH (fun e He => H e (or_intror He))).
  destruct (filter_enemies rest) as [rest' o]. simpl in *. subst rest'.
  reflexivity.
Qed.

Lemma store_field_same (k : string) (v : value) (fields : list (string * value)) :
  lookup_field k fields = v -> v <> VUndefined ->
  store_field k v fields = fields.
Proof.
  intros H Hv. induction fields as [|[k' v'] rest IH]; simpl in *.
  - congruence.
  - destruct (String.eqb k k') eqn:E.
    + apply String.eqb_eq in E. subst. reflexivity.
    + rewrite (IH H). reflexivity.
Qed.

Lemma write_back_same (raw : value) :
  write_back_enemies raw (enemies_of raw) = raw.
Proof.
  unfold write_back_enemies, enemies_of.
  destruct (prop raw "enemies") as [| | | | | |enemies] eqn:E; try reflexivity.
  destruct raw as [| | | | |fields|]; try reflexivity.
  simpl in *. rewrite (store_field_same _ _ _ E); [reflexivity|discriminate].
Qed.

(** X11. The call writes to its argument only to overwrite a behavior.
    When no entry of [rawData.enemies] is one the filter keeps with a
    behavior outside patrol and chase, the argument is after the call
    what it was before, however the call ends. *)
Theorem argument_untouched_without_coercion (raw : value) :
  (forall e, In e (enemies_of raw) -> needs_coercion e = false) ->
  fst (validateLevelData raw) = raw.
Proof.
  intros Hall. unfold validateLevelData.
  destruct (negb (truthy raw) || negb (String.eqb (typeof raw) "object"));
    [reflexivity|].
  destruct (js_filter platform_ok _); [|reflexivity].
  destruct (js_or (prop raw "enemies") (VArr [])) as [| | | | | |enemies] eqn:He;
    try reflexivity.
  assert (Hsame : write_back_enemies raw (fst (filter_enemies enemies)) = raw).
  { unfold js_or in He. destruct (truthy (prop raw "enemies")) eqn:Ht.
    - rewrite filter_enemies_same.
      + pose proof (write_back_same raw) as Hw. unfold enemies_of in Hw.
        rewrite He in Hw. exact Hw.
      + intros e Hin. apply Hall. unfold enemies_of. rewrite He. exact Hin.
    - inversion He; subst enemies. simpl. unfold write_back_enemies.
      destruct (prop raw "enemies"); try reflexivity. discriminate Ht. }
  destruct (filter_enemies enemies) as [enemies' [kept|]]; simpl in Hsame;
    [|exact Hsame].
  destruct (js_filter coin_ok _); [|exact Hsame].
  destruct (0 <? _)%nat; exact Hsame.
Qed.

(** The theorem on the built-in level, whose enemies all patrol or
    chase. *)
Lemma argument_untouched_without_coercion_witness :
  fst (validateLevelData GameStore.DEFAULT_LEVEL) = GameStore.DEFAULT_LEVEL.
Proof.
  apply (argument_untouched_without_coercion GameStore.DEFAULT_LEVEL).
  intros e He. simpl in He.
  repeat (destruct He as [<-|He]; [reflexivity|]). destruct He.
Defined.

End ValidatorOutput.

(* ===================================================================== *)
(** * The level validator: valid data validates to itself *)
(* ===================================================================== *)

Module ValidatorFixpoint.
Import LevelValidator ValidatorProps ValidatorOutput.

Lemma js_or_twice (v d : value) :
  truthy d = true \/ d = js_or d d -> js_or (js_or v d) d = js_or v d.
Proof.
  intros H. unfold js_or at 2 3. destruct (truthy v) eqn:E.
  - unfold js_or. rewrite E. reflexivity.
  - destruct H as [H|H]; [unfold js_or; rewrite H; reflexivity|].
    symmetry. exact H.
Qed.

Lemma normalize_platform_twice (p : value) :
  platform_checked p ->
  normalize_platform (normalize_platform p) = normalize_platform p.
Proof.
  intros (Hn & x & y & w & Hx & Hy & Hw & H1 & H2 & H3).
  unfold normalize_platform at 1.
  change (prop (normalize_platform p) "x") with (prop p "x").
  change (prop (normalize_platform p) "y") with (prop p "y").
  change (prop (normalize_platform p) "height")
    with (js_or (prop p "height") (VNum (Fin 1))).
  change (prop (normalize_platform p) "depth")
    with (js_or (prop p "depth") (VNum (Fin 4))).
  change (prop (normalize_platform p) "type")
    with (if includes ["grass"; "brick"; "stone"; "ice"; "lava"] (prop p "type")
          then prop p "type" else VStr "grass").
  change (prop (normalize_platform p) "width")
    with (VNum (Math_max (ToNumber (prop p "width")) LEVEL.MIN_PLATFORM_WIDTH)).
  rewrite Hw. cbn [ToNumber]. rewrite !(Math_max_checked_width w H1).
  rewrite !js_or_twice by (left; reflexivity).
  unfold normalize_platform. rewrite Hw. cbn [ToNumber].
  rewrite (Math_max_checked_width w H1).
  destruct (includes _ (prop p "type")) eqn:Ht; rewrite ?Ht; reflexivity.
Qed.

Lemma map_normalize_platform_twice (ps : list value) :
  (forall p, In p ps -> platform_checked p) ->
  map normalize_platform (map normalize_platform ps) = map normalize_platform ps.
Proof.
  induction ps as [|p ps IH]; intros H; [reflexivity|].
  cbn [map]. rewrite (normalize_platform_twice p (H p (or_introl eq_refl))).
  rewrite IH by (intros q Hq; apply H; right; exact Hq). reflexivity.
Qed.

(** A normalised enemy passes the filter untouched and normalises to
    itself. *)
Lemma normalized_enemy_ok (e : value) :
  enemy_checked e ->
  enemy_ok (normalize_enemy e) = (normalize_enemy e, Returned true)
  /\ normalize_enemy (normalize_enemy e) = normalize_enemy e.
Proof.
  intros (x & y & t & b & Ex & Ey & Et & Htin & Eb & Hbin).
  unfold normalize_enemy. rewrite Ex, Ey, Et, Eb. split; [|reflexivity].
  unfold enemy_ok. cbn [getProp nullish prop lookup_field String.eqb Ascii.eqb
                        Bool.eqb is_number typeof negb orb].
  simpl in Htin, Hbin.
  destruct Htin as [<-|[<-|[]]]; destruct Hbin as [<-|[<-|[]]]; reflexivity.
Qed.

Lemma filter_enemies_normalized (es : list value) :
  (forall e, In e es -> enemy_checked e) ->
  filter_enemies (map normalize_enemy es)
  = (map normalize_enemy es, Returned (map normalize_enemy es))
  /\ map normalize_enemy (map normalize_enemy es) = map normalize_enemy es.
Proof.
  induction es as [|e es IH]; intros H; [split; reflexivity|].
  destruct (normalized_enemy_ok e (H e (or_introl eq_refl))) as [Hok Hn].
  destruct (IH (fun x Hx => H x (or_intror Hx))) as [Hf Hm].
  cbn [map filter_enemies]. rewrite Hok, Hf, Hn, Hm. split; reflexivity.
Qed.

Lemma store_field_twice (k : string) (v : value) (fields : list (string * value)) :
  store_field k v (store_field k v fields) = store_field k v fields.
Proof.
  induction fields as [|[k' v'] rest IH]; simpl.
  - rewrite String.eqb_refl. reflexivity.
  - destruct (String.eqb k k') eqn:E; simpl.
    + rewrite String.eqb_refl. reflexivity.
    + rewrite E, IH. reflexivity.
Qed.

Lemma normalize_coin_twice (c : value) :
  normalize_coin (normalize_coin c) = normalize_coin c.
Proof.
  unfold normalize_coin. cbn [own_fields]. f_equal.
  rewrite (store_field_same "z" (VNum (Fin 0))).
  - apply store_field_twice.
  - rewrite lookup_store_ne by discriminate. apply lookup_store_eq.
  - discriminate.
Qed.

Lemma normalized_coin_ok (c : value) :
  coin_ok c = Returned true -> coin_ok (normalize_coin c) = Returned true.
Proof.
  intros H. destruct (coin_ok_true_inv c H) as (fields & x & y & -> & Ex & Ey).
  unfold coin_ok, normalize_coin.
  cbn [getProp nullish mbind outcome_bind own_fields prop] in *.
  rewrite !lookup_store_ne by discriminate. rewrite Ex, Ey. reflexivity.
Qed.

Lemma firstn_twice {A : Type} (n : nat) (l : list A) :
  firstn n (firstn n l) = firstn n l.
Proof.
  revert l. induction n as [|n IH]; intros [|a l]; simpl; try reflexivity.
  rewrite IH. reflexivity.
Qed.

Lemma map_normalize_coin_twice (cs : list value) :
  map normalize_coin (map normalize_coin cs) = map normalize_coin cs.
Proof.
  induction cs as [|c cs IH]; [reflexivity|].
  cbn [map]. rewrite normalize_coin_twice, IH. reflexivity.
Qed.

Lemma firstn_length_same {A : Type} (n : nat) (l : list A) :
  (List.length l <= n)%nat -> firstn n l = l.
Proof. apply firstn_all2. Qed.

(** A result of the clamp that is not NaN comes through [|| 1] and the
    clamp unchanged. *)
Lemma clamp_fixed (v : num) :
  is_nan (Math_min (Fin 10) (Math_max (Fin 1) v)) = false ->
  Math_min (Fin 10)
    (Math_max (Fin 1)
       (ToNumber (js_or (VNum (Math_min (Fin 10) (Math_max (Fin 1) v)))
                        (VNum (Fin 1)))))
  = Math_min (Fin 10) (Math_max (Fin 1) v).
Proof.
  assert (Hc : Math_min (Fin 10) (Math_max (Fin 1) v) = NaN
               \/ Math_min (Fin 10) (Math_max (Fin 1) v) = Fin 1
               \/ Math_min (Fin 10) (Math_max (Fin 1) v) = Fin 10
               \/ exists q, Math_min (Fin 10) (Math_max (Fin 1) v) = Fin q
                            /\ 1 < q < 10).
  { destruct v as [| | |q]; num_unfold; simpl; auto.
    destruct (Qlt_bool 1 q) eqn:H1; simpl; auto.
    destruct (Qlt_bool q 10) eqn:H2; auto.
    right. right. right. exists q. split; [reflexivity|]. q2p. lra. }
  destruct Hc as [->|[->|[->|(q & -> & Hq)]]];
    [discriminate|reflexivity|reflexivity|]. intros _.
  unfold js_or. cbn [truthy num_truthy].
  replace (Qeq_bool q 0) with false by (symmetry; q2p; lra).
  cbn [negb ToNumber]. num_unfold. simpl.
  qcases; try reflexivity; exfalso; q2p; lra.
Qed.

(** X12. Valid data validates to itself.  When a call returns a result
    with [valid: true] whose difficulty is not NaN, validating the data
    of that result returns the same result, the same data included, and
    leaves its argument as it was. *)
Theorem valid_data_is_a_fixed_point (x x' : value) (r : ValidationResult)
  (d : num) :
  validateLevelData x = (x', Returned r) -> valid r = true ->
  prop (data r) "difficulty" = VNum d -> is_nan d = false ->
  validateLevelData (data r) = (data r, Returned r).
Proof.
  intros H Hv Hd Hnan.
  destruct (result_shape x x' r H) as [(_ & Herr & _)|(Hv' & _)];
    [|congruence].
  destruct (validate_valid_inv x x' r H Hv)
    as (elems & vps & enemies & enemies' & keptEnemies & keptCoins
        & Hp & Hlen & Hf & Hne & Hs & Hg & He & Hfe & Hx' & Hc & Hr & Hdata).
  assert (Hchecked : forall p, In p vps -> platform_checked p).
  { intros p Hp'. apply platform_ok_true_inv.
    apply (filter_list_kept _ _ _ Hf p Hp'). }
  set (kept := firstn LEVEL.MAX_ENEMIES keptEnemies) in *.
  assert (Hkept : forall e, In e kept -> enemy_checked e).
  { intros e Hin. apply In_firstn_In in Hin.
    apply (filter_enemies_kept _ _ _ Hfe e Hin). }
  destruct (filter_enemies_normalized kept Hkept) as [Hfe2 Hnn].
  set (ens := map normalize_enemy kept) in *.
  set (coins := firstn LEVEL.MAX_COINS (map normalize_coin keptCoins)) in *.
  assert (Hcoins_ok : forall c, In c coins -> coin_ok c = Returned true).
  { intros c Hin. unfold coins in Hin. apply In_firstn_In in Hin.
    apply in_map_iff in Hin. destruct Hin as (c0 & <- & Hin).
    apply normalized_coin_ok.
    destruct (js_or (prop x' "coins") (VArr [])); try discriminate Hc.
    apply (filter_list_kept _ _ _ Hc c0 Hin). }
  assert (Hcoins2 : firstn LEVEL.MAX_COINS (map normalize_coin coins) = coins).
  { unfold coins. rewrite <- firstn_map, map_normalize_coin_twice.
    apply firstn_twice. }
  assert (Hens2 : firstn LEVEL.MAX_ENEMIES ens = ens).
  { apply firstn_length_same. unfold ens, kept.
    rewrite length_map, length_firstn. lia. }
  assert (Hwb : write_back_enemies (data r) ens = data r).
  { rewrite Hdata. reflexivity. }
  assert (Hr2 : r = {| valid := true; errors := []; data := data r |}).
  { destruct r as [v e dt]. simpl in *. subst. reflexivity. }
  rewrite Hr2 at 3.
  rewrite (validate_valid_intro (data r) (map normalize_platform vps)
             (map normalize_platform vps) ens ens ens coins).
  - rewrite Hwb, Hcoins2, Hens2. do 3 f_equal.
    rewrite Hdata in Hd. cbn [build_data prop lookup_field String.eqb
                              Ascii.eqb Bool.eqb] in Hd.
    injection Hd as Hd.
    rewrite Hdata at 2. rewrite Hdata at 1. unfold build_data at 1.
    change (prop (build_data x' vps coins kept) "difficulty")
      with (VNum (Math_min (Fin 10)
                    (Math_max (Fin 1)
                       (ToNumber (js_or (prop x' "difficulty") (VNum (Fin 1))))))).
    rewrite clamp_fixed by (rewrite Hd; exact Hnan).
    change (optProp (prop (build_data x' vps coins kept) "spawnPoint") "x")
      with (js_or (optProp (prop x' "spawnPoint") "x") (VNum (Fin 2))).
    change (optProp (prop (build_data x' vps coins kept) "spawnPoint") "y")
      with (js_or (optProp (prop x' "spawnPoint") "y") (VNum (Fin 2))).
    change (optProp (prop (build_data x' vps coins kept) "goalPosition") "x")
      with (js_or (optProp (prop x' "goalPosition") "x") (VNum (Fin 80))).
    change (optProp (prop (build_data x' vps coins kept) "goalPosition") "y")
      with (js_or (optProp (prop x' "goalPosition") "y") (VNum (Fin 0))).
    rewrite !js_or_twice by (first [left; reflexivity|right; reflexivity]).
    rewrite (map_normalize_platform_twice vps Hchecked).
    rewrite Hnn. reflexivity.
  - rewrite Hdata. reflexivity.
  - rewrite Hdata. reflexivity.
  - rewrite Hdata. reflexivity.
  - destruct vps; [congruence|discriminate].
  - rewrite length_map. pose proof (filter_list_length _ _ _ Hf). lia.
  - apply filter_list_all. intros p Hin.
    apply in_map_iff in Hin. destruct Hin as [p0 [<- Hin]].
    apply platform_checked_ok, normalize_platform_checked, Hchecked, Hin.
  - destruct vps; [congruence|discriminate].
  - rewrite Hdata. cbn. apply is_number_js_or.
    rewrite Hx', prop_write_back_ne by discriminate.
    rewrite optProp_number; exact Hs.
  - rewrite Hdata. cbn. apply is_number_js_or.
    rewrite Hx', prop_write_back_ne by discriminate.
    rewrite optProp_number; exact Hg.
  - rewrite Hdata. reflexivity.
  - exact Hfe2.
  - rewrite Hwb, Hdata. cbn [build_data prop lookup_field String.eqb Ascii.eqb
                             Bool.eqb js_or truthy js_filter].
    apply filter_list_all, Hcoins_ok.
  - rewrite js_sort_map by reflexivity.
    rewrite reachability_errors_map; [exact Hr|].
    intros p Hin. apply normalize_platform_same_geometry, Hchecked.
    apply (js_sort_In _ _ _ Hin).
Qed.

(** The theorem on the built-in level of the store. *)
Lemma valid_data_is_a_fixed_point_witness :
  validateLevelData (data default_result)
  = (data default_result, Returned default_result).
Proof.
  exact (valid_data_is_a_fixed_point GameStore.DEFAULT_LEVEL
           GameStore.DEFAULT_LEVEL default_result (Fin 1)
           validate_default_level eq_refl eq_refl eq_refl).
Defined.

End ValidatorFixpoint.

(* ===================================================================== *)
(** * The game store *)
(* ===================================================================== *)

Module StoreProps.
Import GameStore.

(** Merging a state into itself changes nothing. *)
Lemma set_whole (state : GameState) : set (whole state) state = state.
Proof. destruct state. reflexivity. Qed.

Lemma Returned_inj {A : Type} (a b : A) : Returned a = Returned b -> a = b.
Proof. intros H. injection H as H. exact H. Qed.

(** ** Damage *)

(** X13. A second hit in a row changes nothing. *)
Theorem takeDamage_twice (state : GameState) :
  takeDamage (takeDamage state) = takeDamage state.
Proof.
  unfold takeDamage.
  destruct (isInvincible (player state)) eqn:Hi.
  - rewrite !set_whole, Hi. reflexivity.
  - destruct (num_le (num_sub (health (player state)) 1) 0) eqn:Hh.
    + destruct state as [ph [h c s p v g i] ld ln d de ct ad dh vt il ls].
      simpl in *. subst i. reflexivity.
    + destruct state as [ph [h c s p v g i] ld ln d de ct ad dh vt il ls].
      reflexivity.
Qed.

(** A hit that ends the game leaves no health. *)
Lemma takeDamage_gameover (state : GameState) :
  isInvincible (player state) = false ->
  num_le (num_sub (health (player state)) 1) 0 = true ->
  phase (takeDamage state) = "gameover"
  /\ health (player (takeDamage state)) = Fin 0.
Proof.
  intros Hi Hh. unfold takeDamage. rewrite Hi, Hh.
  destruct state. split; reflexivity.
Qed.

(** The health of the player, within its bounds. *)
Definition health_in_bounds (state : GameState) : Prop :=
  num_le 0 (health (player state)) = true
  /\ num_le (health (player state)) 3 = true.

Lemma collectCoin_player (coinIndex : num) (state state' : GameState) :
  collectCoin coinIndex state = Returned state' ->
  health (player state') = health (player state)
  /\ isInvincible (player state') = isInvincible (player state)
  /\ levelNumber state' = levelNumber state
  /\ phase state' = phase state.
Proof.
  unfold collectCoin. intros H.
  destruct (getProp (levelData state) "coins") as [coins_|]; [|discriminate H].
  cbn [mbind outcome_bind] in H.
  destruct (spread_array coins_) as [newCoins|]; [|discriminate H].
  cbn [mbind outcome_bind] in H.
  destruct (truthy _ && _); apply Returned_inj in H; subst state'.
  - destruct state. repeat split.
  - rewrite set_whole. repeat split.
Qed.

Lemma takeDamage_health (state : GameState) :
  health_in_bounds state -> health_in_bounds (takeDamage state).
Proof.
  unfold health_in_bounds, takeDamage. intros [H0 H3].
  destruct (isInvincible (player state)); [rewrite set_whole; auto|].
  destruct (num_le (num_sub (health (player state)) 1) 0) eqn:Hh.
  - destruct state. split; reflexivity.
  - destruct state as [ph [h c s p v g i] ld ln d de ct ad dh vt il ls].
    simpl in *. destruct h as [| | |q]; num_unfold; simpl in *;
      try discriminate.
    q2p. split; q2p; lra.
Qed.

Lemma dispatch_health (state : GameState) (a : action) :
  health_in_bounds state -> health_in_bounds (dispatch state a).
Proof.
  intros H. destruct a; cbn [dispatch];
    try (destruct state; exact H);
    try (destruct state; split; reflexivity).
  - destruct (collectCoin coinIndex state) as [state'|] eqn:E; [|exact H].
    destruct (collectCoin_player _ _ _ E) as [Eh _].
    unfold health_in_bounds. rewrite Eh. exact H.
  - apply takeDamage_health, H.
Qed.

(** X14. Whatever the store is asked to do, in whatever order, the health
    of the player stays between 0 and 3. *)
Theorem health_stays_in_bounds (actions : list action) :
  health_in_bounds (run actions initial_state).
Proof.
  unfold run.
  assert (H : health_in_bounds initial_state) by (split; reflexivity).
  revert H. generalize initial_state.
  induction actions as [|a later IH]; intros state H; [exact H|].
  simpl. apply IH, dispatch_health, H.
Qed.

(** ** Coins *)

(** What [collectCoin] tests: the entry is there and not yet collected. *)
Definition collectable (c : value) : bool :=
  truthy c && negb (truthy (prop c "collected")).

(** An entry that counts as collected. *)
Definition collected (c : value) : bool :=
  truthy c && truthy (prop c "collected").

(** The coins of the level, as [collectCoin] reads them. *)
Definition coins_of (state : GameState) : list value :=
  match getProp (levelData state) "coins" ≫= spread_array with
  | Returned coins => coins
  | Thrown _ => []
  end.

Definition collected_count (state : GameState) : nat :=
  List.length (List.filter collected (coins_of state)).

(** The state [collectCoin] leaves when it collects the coin at [i]. *)
Definition with_coin_collected (coinIndex : num) (newCoins : list value)
  (state : GameState) : GameState :=
  set [ Player {| health := health (player state);
                  coins := num_add (coins (player state)) 1;
                  score := num_add (score (player state)) 100;
                  position := position (player state);
                  velocity := velocity (player state);
                  isGrounded := isGrounded (player state);
                  isInvincible := isInvincible (player state) |};
        LevelData
          (VObj (store_field "coins"
                   (VArr (js_assign newCoins coinIndex
                            (VObj (store_field "collected" (VBool true)
                                     (spread_fields
                                        (js_index newCoins coinIndex))))))
                   (spread_fields (levelData state)))) ]
      state.

(** The two ways a call of [collectCoin] returns. *)
Lemma collectCoin_inv (coinIndex : num) (state state' : GameState) :
  collectCoin coinIndex state = Returned state' ->
  exists newCoins,
    getProp (levelData state) "coins" ≫= spread_array = Returned newCoins
    /\ ((collectable (js_index newCoins coinIndex) = false /\ state' = state)
        \/ (collectable (js_index newCoins coinIndex) = true
            /\ state' = with_coin_collected coinIndex newCoins state)).
Proof.
  unfold collectCoin. intros H.
  destruct (getProp (levelData state) "coins") as [coins_|]; [|discriminate H].
  cbn [mbind outcome_bind] in *.
  destruct (spread_array coins_) as [newCoins|]; [|discriminate H].
  cbn [mbind outcome_bind] in H. exists newCoins. split; [reflexivity|].
  fold (collectable (js_index newCoins coinIndex)) in H.
  destruct (collectable (js_index newCoins coinIndex));
    apply Returned_inj in H; subst state'.
  - right. split; reflexivity.
  - left. split; [reflexivity|apply set_whole].
Qed.

Lemma coins_of_collected (coinIndex : num) (newCoins : list value)
  (state : GameState) :
  coins_of (with_coin_collected coinIndex newCoins state)
  = js_assign newCoins coinIndex
      (VObj (store_field "collected" (VBool true)
               (spread_fields (js_index newCoins coinIndex)))).
Proof.
  unfold coins_of, with_coin_collected. destruct state.
  cbn [set fold_left assign levelData getProp nullish prop mbind outcome_bind].
  rewrite ValidatorProps.lookup_store_eq. reflexivity.
Qed.

(** A truthy element sits at an index within the array. *)
Lemma js_index_truthy (elems : list value) (n : num) :
  truthy (js_index elems n) = true ->
  exists i, index_of n = Some i /\ elems !! i = Some (js_index elems n).
Proof.
  unfold js_index. destruct (index_of n) as [i|]; [|discriminate].
  destruct (elems !! i) as [e|] eqn:E; [|discriminate].
  intros _. exists i. split; [reflexivity|exact E].
Qed.

Lemma js_index_assign (elems : list value) (n : num) (v : value) :
  truthy (js_index elems n) = true ->
  js_index (js_assign elems n v) n = v.
Proof.
  intros H. destruct (js_index_truthy elems n H) as (i & Hi & He).
  unfold js_index, js_assign. rewrite Hi.
  rewrite list_lookup_insert_eq; [reflexivity|].
  apply lookup_lt_Some in He. exact He.
Qed.

Lemma collectable_truthy (c : value) :
  collectable c = true -> truthy c = true /\ collected c = false.
Proof.
  unfold collectable, collected. destruct (truthy c); [|discriminate].
  simpl. destruct (truthy (prop c "collected")); [discriminate|]. auto.
Qed.

Lemma collected_new_coin (fields : list (string * value)) :
  collected (VObj (store_field "collected" (VBool true) fields)) = true.
Proof.
  unfold collected. cbn [truthy prop andb].
  rewrite ValidatorProps.lookup_store_eq. reflexivity.
Qed.

Lemma collected_not_collectable (c : value) :
  collected c = true -> collectable c = false.
Proof.
  unfold collected, collectable. destruct (truthy c); [|reflexivity].
  simpl. intros ->. reflexivity.
Qed.

(** X15. A coin is collected once.  A call of [collectCoin] that returns
    leaves a state on which the same call changes nothing. *)
Theorem collectCoin_once (coinIndex : num) (state state' : GameState) :
  collectCoin coinIndex state = Returned state' ->
  collectCoin coinIndex state' = Returned state'.
Proof.
  intros H.
  destruct (collectCoin_inv _ _ _ H) as (newCoins & Hc & [[Hn ->]|[Hy ->]]);
    [exact H|].
  destruct (collectable_truthy _ Hy) as [Ht _].
  unfold collectCoin at 1.
  pose proof (coins_of_collected coinIndex newCoins state) as Hco.
  unfold coins_of in Hco.
  destruct (getProp (levelData (with_coin_collected coinIndex newCoins state))
              "coins" ≫= spread_array) as [coins'|] eqn:E.
  2:{ exfalso. unfold with_coin_collected in E. destruct state.
      cbn [set fold_left assign levelData getProp nullish prop mbind
           outcome_bind] in E.
      rewrite ValidatorProps.lookup_store_eq in E. discriminate E. }
  subst coins'.
  destruct (getProp (levelData (with_coin_collected coinIndex newCoins state))
              "coins") as [coins_|]; [|discriminate E].
  cbn [mbind outcome_bind] in *. rewrite E. cbn [mbind outcome_bind].
  rewrite (js_index_assign _ _ _ Ht).
  fold (collectable (VObj (store_field "collected" (VBool true)
                             (spread_fields (js_index newCoins coinIndex))))).
  rewrite (collected_not_collectable _ (collected_new_coin _)).
  cbn [mret outcome_ret]. rewrite set_whole. reflexivity.
Qed.

(** The theorem on the first coin of the built-in level. *)
Lemma collectCoin_once_witness :
  collectCoin 0 (with_coin_collected 0 (coins_of initial_state) initial_state)
  = Returned (with_coin_collected 0 (coins_of initial_state) initial_state).
Proof.
  apply (collectCoin_once 0 initial_state). reflexivity.
Defined.

Lemma filter_insert_collected (l : list value) (i : nat) (old new : value) :
  l !! i = Some old -> collected old = false -> collected new = true ->
  List.length (List.filter collected (<[i := new]> l))
  = S (List.length (List.filter collected l)).
Proof.
  revert i. induction l as [|c l IH]; intros i Hi Ho Hn; [discriminate Hi|].
  destruct i as [|i]; cbn [lookup list_lookup insert list_insert List.filter] in *.
  - inversion Hi; subst. rewrite Ho, Hn. reflexivity.
  - pose proof (IH i Hi Ho Hn) as IH'.
    destruct (collected c); cbn [List.length]; [f_equal|]; exact IH'.
Qed.

(** One call: nothing changes, or one more coin is collected, the
    counter goes up by 1 and the score by 100. *)
Lemma collectCoin_step (coinIndex : num) (state state' : GameState) :
  collectCoin coinIndex state = Returned state' ->
  state' = state
  \/ (collected_count state' = S (collected_count state)
      /\ coins (player state') = num_add (coins (player state)) 1
      /\ score (player state') = num_add (score (player state)) 100).
Proof.
  intros H.
  destruct (collectCoin_inv _ _ _ H) as (newCoins & Hc & [[Hn ->]|[Hy ->]]);
    [left; reflexivity|right].
  destruct (collectable_truthy _ Hy) as [Ht Hnc].
  destruct (js_index_truthy _ _ Ht) as (i & Hi & He).
  split; [|destruct state; split; reflexivity].
  unfold collected_count. rewrite coins_of_collected.
  unfold coins_of. rewrite Hc. unfold js_assign. rewrite Hi.
  apply (filter_insert_collected _ _ _ _ He Hnc), collected_new_coin.
Qed.

Lemma run_cons (a : action) (later : list action) (state : GameState) :
  run (a :: later) state = run later (dispatch state a).
Proof. reflexivity. Qed.

(** X16. Over any run of [collectCoin] calls the coin counter grows by the
    number of coins that became collected, and the score by 100 times
    that number, as long as both are integers that stay within the range
    in which a double counts exactly. *)
Theorem coins_accounting (indices : list num) (state : GameState) (c s : Z) :
  coins (player state) = Fin (inject_Z c) ->
  score (player state) = Fin (inject_Z s) ->
  exact_integer c -> exact_integer (c + Z.of_nat (List.length indices)) ->
  exact_integer s -> exact_integer (s + 100 * Z.of_nat (List.length indices)) ->
  exists k : nat,
    (k <= List.length indices)%nat
    /\ collected_count (run (map CollectCoin indices) state)
       = (collected_count state + k)%nat
    /\ coins (player (run (map CollectCoin indices) state))
       = Fin (inject_Z (c + Z.of_nat k))
    /\ score (player (run (map CollectCoin indices) state))
       = Fin (inject_Z (s + 100 * Z.of_nat k)).
Proof.
  unfold exact_integer.
  revert state c s.
  induction indices as [|i later IH]; intros state c s Hc Hs Hc0 Hc1 Hs0 Hs1.
  - exists 0%nat. cbn [map run fold_left List.length].
    rewrite Nat.add_0_r, Z.mul_0_r, !Z.add_0_r. auto.
  - cbn [map List.length] in *. rewrite !run_cons. cbn [dispatch].
    assert (Hsame : exists k : nat,
      (k <= S (List.length later))%nat
      /\ collected_count (run (map CollectCoin later) state)
         = (collected_count state + k)%nat
      /\ coins (player (run (map CollectCoin later) state))
         = Fin (inject_Z (c + Z.of_nat k))
      /\ score (player (run (map CollectCoin later) state))
         = Fin (inject_Z (s + 100 * Z.of_nat k))).
    { destruct (IH state c s Hc Hs) as (k & Hk & H); try lia.
      exists k. split; [lia|exact H]. }
    destruct (collectCoin i state) as [state1|] eqn:E; [|exact Hsame].
    destruct (collectCoin_step _ _ _ E) as [->|(Hn & Ec & Es)];
      [exact Hsame|].
    rewrite Hc in Ec. rewrite Hs in Es.
    assert (Ec' : coins (player state1) = Fin (inject_Z (c + 1))).
    { rewrite Ec. cbn. unfold Qplus, inject_Z. cbn [Qnum Qden].
      f_equal. f_equal; try reflexivity; lia. }
    assert (Es' : score (player state1) = Fin (inject_Z (s + 100))).
    { rewrite Es. cbn. unfold Qplus, inject_Z. cbn [Qnum Qden].
      f_equal. f_equal; try reflexivity; lia. }
    destruct (IH state1 _ _ Ec' Es') as (k & Hk & Hn' & Hc' & Hs'); try lia.
    exists (S k). split; [lia|]. split; [lia|].
    rewrite Hc', Hs'. split; do 2 f_equal; lia.
Qed.

(** The theorem on the built-in level: the coins at 0 and 3, the first
    of them asked for twice, and an index past the end. *)
Lemma coins_accounting_witness :
  exists k : nat,
    (k <= 4)%nat
    /\ collected_count (run (map CollectCoin [Fin 0; Fin 3; Fin 0; Fin 99])
                            initial_state)
       = (collected_count initial_state + k)%nat
    /\ coins (player (run (map CollectCoin [Fin 0; Fin 3; Fin 0; Fin 99])
                          initial_state))
       = Fin (inject_Z (0 + Z.of_nat k))
    /\ score (player (run (map CollectCoin [Fin 0; Fin 3; Fin 0; Fin 99])
                          initial_state))
       = Fin (inject_Z (0 + 100 * Z.of_nat k)).
Proof.
  apply (coins_accounting [Fin 0; Fin 3; Fin 0; Fin 99] initial_state 0 0);
    try reflexivity; unfold exact_integer; simpl; lia.
Defined.

(** ** The stored difficulty *)

Lemma clamp_twice (v : num) :
  DifficultyEngine.clamp (DifficultyEngine.clamp v) = DifficultyEngine.clamp v.
Proof.
  unfold DifficultyEngine.clamp, LEVEL.MIN_DIFFICULTY, LEVEL.MAX_DIFFICULTY.
  destruct v as [| | |q]; num_unfold; simpl; try reflexivity.
  qcases; try reflexivity; exfalso; q2p; lra.
Qed.

Lemma difficulty_set (d : num) (state : GameState) :
  difficulty (setDifficulty d state) = DifficultyEngine.clamp d.
Proof. destruct state. reflexivity. Qed.

(** X17. The store clamps as the engine does.  Storing what
    [calculateNextDifficulty] returns stores it as it is; and whatever
    number other than NaN is stored, what the store holds lies in
    [[1,10]]. *)
Theorem stored_difficulty (stats : DifficultyEngine.PerformanceStats)
  (d : num) (state : GameState) :
  difficulty (setDifficulty (DifficultyEngine.calculateNextDifficulty stats) state)
  = DifficultyEngine.calculateNextDifficulty stats
  /\ (is_nan d = false ->
      DifficultyEngine.in_range (difficulty (setDifficulty d state)) = true).
Proof.
  split.
  - rewrite difficulty_set, DifficultyProps.calculateNextDifficulty_factors.
    apply clamp_twice.
  - intros Hd. rewrite difficulty_set.
    apply DifficultyProps.clamp_in_range, Hd.
Qed.

(** ** The level number *)

Definition level_is_positive (state : GameState) : Prop :=
  exists n : Z, (1 <= n)%Z /\ levelNumber state = Fin (inject_Z n).

Lemma dispatch_level (state : GameState) (a : action) :
  level_is_positive state -> level_is_positive (dispatch state a).
Proof.
  intros H. destruct a; cbn [dispatch];
    try (destruct state; exact H);
    try (destruct state; exists 1%Z; split; [lia|reflexivity]).
  - destruct (collectCoin coinIndex state) as [state'|] eqn:E; [|exact H].
    destruct (collectCoin_player _ _ _ E) as (_ & _ & El & _).
    unfold level_is_positive. rewrite El. exact H.
  - unfold takeDamage.
    destruct (isInvincible (player state)); [rewrite set_whole; exact H|].
    destruct (num_le _ _); destruct state; exact H.
  - destruct H as (n & Hn & E). exists (n * 1 + 1 * 1)%Z. split; [lia|].
    destruct state. simpl in *. rewrite E. reflexivity.
Qed.

Lemma run_level (actions : list action) (state : GameState) :
  level_is_positive state -> level_is_positive (run actions state).
Proof.
  unfold run. revert state.
  induction actions as [|a later IH]; intros state H; [exact H|].
  simpl. apply IH, dispatch_level, H.
Qed.

End StoreProps.

(* ===================================================================== *)
(** * From the validator to the store *)
(* ===================================================================== *)

Module LevelLoading.
Import LevelValidator ValidatorProps GameStore StoreProps.

Lemma filter_none {A : Type} (f : A -> bool) (l : list A) :
  (forall a, In a l -> f a = false) -> List.filter f l = [].
Proof.
  induction l as [|a l IH]; intros H; [reflexivity|].
  simpl. rewrite (H a (or_introl eq_refl)).
  apply IH. intros b Hb. apply H. right. exact Hb.
Qed.

Lemma normalized_coin_not_collected (c : value) :
  collected (normalize_coin c) = false.
Proof.
  unfold collected, normalize_coin. cbn [truthy prop andb].
  rewrite lookup_store_eq. reflexivity.
Qed.

(** X18. A validated level starts with no coin collected.  Whatever the
    document said of its coins, once the data of a valid result is set as
    the level of the store, none of its coins counts as collected. *)
Theorem validated_level_starts_uncollected (raw raw' : value)
  (r : ValidationResult) (state : GameState) :
  validateLevelData raw = (raw', Returned r) -> valid r = true ->
  collected_count (setLevelData (data r) state) = 0%nat.
Proof.
  intros H Hv.
  destruct (validate_valid_inv raw raw' r H Hv)
    as (elems & vps & enemies & enemies' & keptEnemies & keptCoins
        & Hp & Hlen & Hf & Hne & Hs & Hg & He & Hfe & Hx' & Hc & Hr & Hd).
  unfold collected_count, coins_of. rewrite Hd. destruct state.
  cbn [setLevelData set fold_left assign levelData build_data getProp nullish
       prop lookup_field String.eqb Ascii.eqb Bool.eqb mbind outcome_bind
       spread_array].
  rewrite filter_none; [reflexivity|].
  intros c Hin. apply In_firstn_In in Hin.
  apply in_map_iff in Hin. destruct Hin as (c0 & <- & _).
  apply normalized_coin_not_collected.
Qed.

(** A level whose only coin says it is collected already. *)
Definition level_with_collected_coin : value :=
  VObj [("platforms", VArr [platform 0 0 0 20 1 4 "grass"]);
        ("spawnPoint", point 2 2 0);
        ("goalPosition", point 15 2 0);
        ("coins", VArr [coin 3 1 0 true])].

Definition result_with_fresh_coin : ValidationResult :=
  Eval vm_compute in
    match snd (validateLevelData level_with_collected_coin) with
    | Returned r => r
    | Thrown _ => {| valid := false; errors := []; data := VNull |}
    end.

Lemma validated_level_starts_uncollected_witness :
  collected_count (setLevelData (data result_with_fresh_coin) initial_state)
  = 0%nat.
Proof.
  apply (validated_level_starts_uncollected level_with_collected_coin
           level_with_collected_coin result_with_fresh_coin initial_state);
    reflexivity.
Defined.

End LevelLoading.

(* ===================================================================== *)
(** * The level themes *)
(* ===================================================================== *)

Module PromptProps.
Import LevelPrompt.

(** The index an integer stands for. *)
Lemma index_of_integer (z : Z) :
  index_of (Fin (z # 1)) = if (0 <=? z)%Z then Some (Z.to_nat z) else None.
Proof.
  unfold index_of, Qtrunc. cbn [Qnum Qden]. rewrite Z.quot_1_r.
  replace (Qeq_bool (z # 1) (inject_Z z)) with true
    by (symmetry; apply Qeq_bool_iff; reflexivity).
  unfold Qle_bool. cbn [Qnum Qden andb]. rewrite !Z.mul_1_r. reflexivity.
Qed.

(** The remainder the theme is looked up at, for an integer level. *)
Lemma theme_index (n : Z) :
  num_rem (num_sub (Fin (inject_Z n)) (Fin 1))
          (ToNumber (prop (VArr themes) "length"))
  = Fin (Z.rem (n - 1) 6 # 1).
Proof.
  change (ToNumber (prop (VArr themes) "length")) with (Fin (6 # 1)).
  cbn. unfold Qtrunc. cbn. unfold Qminus, Qplus, Qmult, Qopp. cbn.
  f_equal. f_equal.
  rewrite !Z.mul_1_r. change (Z.pos (1 * 1 * 6)) with 6%Z.
  replace (n + - (1))%Z with (n - 1)%Z by lia.
  pose proof (Z.quot_rem' (n - 1) 6) as H.
  revert H. generalize (Z.quot (n - 1) 6) (Z.rem (n - 1) 6). lia.
Qed.

(** The theme of every integer level. *)
Lemma getThemeForLevel_integer (n : Z) :
  getThemeForLevel (Fin (inject_Z n))
  = if (0 <=? Z.rem (n - 1) 6)%Z
    then default VUndefined (themes !! Z.to_nat (Z.rem (n - 1) 6))
    else VUndefined.
Proof.
  unfold getThemeForLevel, js_index.
  rewrite theme_index, index_of_integer.
  destruct (0 <=? Z.rem (n - 1) 6)%Z; reflexivity.
Qed.

(** From level 1 on the remainder is (level - 1) mod 6, an index of
    [themes]. *)
Lemma theme_lookup (n : Z) :
  (1 <= n)%Z ->
  themes !! Z.to_nat ((n - 1) mod 6) = Some (getThemeForLevel (Fin (inject_Z n))).
Proof.
  intros Hn. rewrite getThemeForLevel_integer.
  rewrite Z.rem_mod_nonneg by lia.
  pose proof (Z.mod_pos_bound (n - 1) 6 ltac:(lia)) as Hb.
  replace (0 <=? (n - 1) mod 6)%Z with true by lia.
  destruct (themes !! Z.to_nat ((n - 1) mod 6)) as [theme|] eqn:E;
    [reflexivity|].
  apply lookup_ge_None in E. simpl in E. lia.
Qed.

(** X19. From level 1 on, the theme of a level is the one at index
    (level - 1) mod 6 of the six: the themes come round every six
    levels.  This is for the levels a double counts exactly. *)
Theorem theme_of_positive_level (n : Z) :
  (1 <= n)%Z -> exact_integer (n + 6) ->
  themes !! Z.to_nat ((n - 1) mod 6) = Some (getThemeForLevel (Fin (inject_Z n)))
  /\ getThemeForLevel (Fin (inject_Z (n + 6))) = getThemeForLevel (Fin (inject_Z n)).
Proof.
  intros Hn _. split; [apply theme_lookup, Hn|].
  pose proof (theme_lookup n Hn) as H1.
  pose proof (theme_lookup (n + 6) ltac:(lia)) as H2.
  replace (n + 6 - 1)%Z with (n - 1 + 1 * 6)%Z in H2 by lia.
  rewrite Z.mod_add in H2 by lia. congruence.
Qed.

(** The theorem at level 8: the second theme, as at level 2. *)
Lemma theme_of_positive_level_witness :
  themes !! Z.to_nat ((8 - 1) mod 6) = Some (getThemeForLevel (Fin (inject_Z 8)))
  /\ getThemeForLevel (Fin (inject_Z (8 + 6))) = getThemeForLevel (Fin (inject_Z 8)).
Proof.
  apply (theme_of_positive_level 8); [lia|unfold exact_integer; simpl; lia].
Defined.

(** X20. At level 0 and below, down to the last level a double counts
    exactly, the remainder is negative, unless it is zero, and the theme
    is [undefined]. *)
Theorem theme_undefined_below_one (n : Z) :
  (n <= 0)%Z -> exact_integer (n - 1) -> Z.rem (n - 1) 6 <> 0%Z ->
  getThemeForLevel (Fin (inject_Z n)) = VUndefined.
Proof.
  intros Hn _ Hr. rewrite getThemeForLevel_integer.
  pose proof (Z.rem_nonpos (n - 1) 6 ltac:(lia) ltac:(lia)).
  replace (0 <=? Z.rem (n - 1) 6)%Z with false by lia. reflexivity.
Qed.

Lemma theme_undefined_below_one_witness :
  getThemeForLevel (Fin (inject_Z 0)) = VUndefined.
Proof.
  apply (theme_undefined_below_one 0);
    [lia|unfold exact_integer; simpl; lia|discriminate].
Defined.

Lemma themes_are_strings (v : value) :
  In v themes -> exists theme : string, v = VStr theme.
Proof.
  unfold themes. simpl. intros H.
  repeat (destruct H as [<-|H]; [eexists; reflexivity|]). destruct H.
Qed.

(** X21. The level number of the store always has a theme.  Whatever the
    store has been asked to do, [getThemeForLevel] of its level number is
    one of the six themes. *)
Theorem store_level_has_theme (actions : list GameStore.action) :
  exists theme : string,
    getThemeForLevel
      (GameStore.levelNumber (GameStore.run actions GameStore.initial_state))
    = VStr theme.
Proof.
  destruct (StoreProps.run_level actions GameStore.initial_state)
    as (n & Hn & E).
  { exists 1%Z. split; [lia|reflexivity]. }
  rewrite E. apply themes_are_strings.
  pose proof (theme_lookup n Hn) as H.
  apply list_elem_of_lookup_2, list_elem_of_In in H. exact H.
Qed.

End PromptProps.

(* ===================================================================== *)
(** * The gateway over every sequence of requests *)
(* ===================================================================== *)

Module GatewayInvariants.
Import Gateway GatewayProps.

Local Open Scope Z_scope.

(** ** The counts of the rate limiter *)

Definition counts_in_bounds (limiter : gmap string windowData) : Prop :=
  forall (ip : string) (w : windowData),
    limiter !! ip = Some w -> 1 <= count w <= MAX_REQUESTS.

Lemma rateLimit_counts (req_ip : option string) (now : Z)
  (limiter : gmap string windowData) :
  counts_in_bounds limiter ->
  counts_in_bounds (fst (rateLimit req_ip now limiter)).
Proof.
  intros Hl. unfold rateLimit.
  set (ip := identity_of req_ip).
  assert (Hd : 0 <= count (default {| count := 0; firstRequest := now |}
                             (limiter !! ip))).
  { destruct (limiter !! ip) as [w|] eqn:E; simpl; [|lia].
    pose proof (Hl ip w E). lia. }
  destruct (_ >? RATE_LIMIT_WINDOW).
  - intros ip' w. cbn [fst].
    destruct (decide (ip' = ip)) as [->|Hne].
    + rewrite lookup_insert_eq. intros [= <-]. simpl. unfold MAX_REQUESTS. lia.
    + rewrite lookup_insert_ne by congruence. apply Hl.
  - destruct (_ >=? MAX_REQUESTS) eqn:Hc; [exact Hl|].
    intros ip' w. cbn [fst].
    destruct (decide (ip' = ip)) as [->|Hne].
    + rewrite lookup_insert_eq. intros [= <-]. simpl. lia.
    + rewrite lookup_insert_ne by congruence. apply Hl.
Qed.

(** The limiter after a request is the limiter after its middleware. *)
Lemma app_post_limiter
  (handler : list (string * string)
             -> list (string * string) * response * list string)
  (req_ip : option string) (now : Z) (st : serverState) :
  rateLimiter (fst (fst (app_post handler req_ip now st)))
  = fst (rateLimit req_ip now (rateLimiter st)).
Proof.
  unfold app_post.
  destruct (rateLimit req_ip now (rateLimiter st)) as [limiter [|r]];
    [|reflexivity].
  destruct (handler (npcCache st)) as [[c r] calls]. reflexivity.
Qed.

Lemma serve_limiter (generate : backend) (req_ip : option string) (now : Z)
  (req : request) (st : serverState) :
  rateLimiter (fst (fst (serve (generate, req_ip, now, req) st)))
  = fst (rateLimit req_ip now (rateLimiter st)).
Proof.
  destruct req; unfold serve, post_generate_level, post_npc_dialog;
    apply app_post_limiter.
Qed.

(** X22. No count of the limiter leaves the range from 1 to MAX_REQUESTS.
    In every state the server reaches, every caller on record has made
    between one and five counted requests in its window: a rejected
    request is not counted. *)
Theorem limiter_counts_in_bounds
  (events : list (backend * option string * Z * request)) :
  counts_in_bounds (rateLimiter (serve_all events initial_state)).
Proof.
  assert (H : counts_in_bounds (rateLimiter initial_state)).
  { intros ip w E. simpl in E. rewrite lookup_empty in E. discriminate E. }
  revert H. generalize initial_state.
  induction events as [|[[[generate req_ip] now] req] later IH]; intros st H;
    [exact H|].
  cbn [serve_all]. apply IH. rewrite serve_limiter.
  apply rateLimit_counts, H.
Qed.

(** ** Calls to the backend *)

Definition prompt_of (req : request) : value :=
  match req with
  | GenerateLevel prompt => prompt
  | NpcDialog body => prompt body
  end.

Lemma generate_level_handler_calls (generate : backend) (p : value) :
  snd (generate_level_handler generate p) = []
  \/ (snd (generate_level_handler generate p) = [string_of p]
      /\ truthy p = true /\ typeof p = "string"
      /\ (status (fst (generate_level_handler generate p)) = 200
          \/ status (fst (generate_level_handler generate p)) = 500)).
Proof.
  unfold generate_level_handler.
  destruct (truthy p) eqn:Ht; [|left; reflexivity].
  destruct (String.eqb (typeof p) "string") eqn:Hty; [|left; reflexivity].
  apply String.eqb_eq in Hty. cbn [negb orb].
  destruct (3000 <? String.length (string_of p))%nat; [left; reflexivity|].
  right. destruct (generate (string_of p)) as [text|]; [|auto].
  destruct (extract_level text); auto.
Qed.

Lemma npc_dialog_handler_calls (generate : backend) (body : dialogBody)
  (cache : list (string * string)) :
  snd (npc_dialog_handler generate body cache) = []
  \/ (snd (npc_dialog_handler generate body cache) = [string_of (prompt body)]
      /\ truthy (prompt body) = true /\ typeof (prompt body) = "string"
      /\ (status (snd (fst (npc_dialog_handler generate body cache))) = 200
          \/ status (snd (fst (npc_dialog_handler generate body cache))) = 500)).
Proof.
  unfold npc_dialog_handler.
  destruct (truthy (prompt body)) eqn:Ht; [|left; reflexivity].
  destruct (String.eqb (typeof (prompt body)) "string") eqn:Hty;
    [|left; reflexivity].
  apply String.eqb_eq in Hty. cbn [negb orb].
  destruct (key_truthy (cacheKey body) && _); [left; reflexivity|].
  right. destruct (generate (string_of (prompt body))) as [text|]; auto.
Qed.

(** X23. A request costs one call to the backend at most.  The call, when
    there is one, carries the prompt of the request, a non-empty string,
    and the request is answered 200 or 500; a request answered 400 or
    429 has made none. *)
Theorem backend_called_at_most_once (generate : backend)
  (req_ip : option string) (now : Z) (req : request) (st : serverState) :
  snd (serve (generate, req_ip, now, req) st) = []
  \/ (snd (serve (generate, req_ip, now, req) st) = [string_of (prompt_of req)]
      /\ truthy (prompt_of req) = true
      /\ typeof (prompt_of req) = "string"
      /\ (status (snd (fst (serve (generate, req_ip, now, req) st))) = 200
          \/ status (snd (fst (serve (generate, req_ip, now, req) st))) = 500)).
Proof.
  destruct req as [p|body];
    unfold serve, post_generate_level, post_npc_dialog, app_post;
    destruct (rateLimit req_ip now (rateLimiter st)) as [limiter [|r]];
    try (left; reflexivity); cbn [prompt_of].
  - pose proof (generate_level_handler_calls generate p) as H.
    destruct (generate_level_handler generate p) as [r calls]. exact H.
  - pose proof (npc_dialog_handler_calls generate body (npcCache st)) as H.
    destruct (npc_dialog_handler generate body (npcCache st)) as [[c r] calls].
    exact H.
Qed.

End GatewayInvariants.

(* ===================================================================== *)
(** * The dialog cache with requests in flight *)
(* ===================================================================== *)

Module GatewayInFlight.
Import Gateway GatewayProps GatewayAsync.

Local Open Scope Z_scope.

(** The handler of [Gateway] is the two parts with nothing in between. *)
Lemma npc_dialog_handler_two_parts (generate : backend) (req : dialogBody)
  (cache : list (string * string)) :
  npc_dialog_handler generate req cache
  = match npc_dialog_start req cache with
    | Answered r => (cache, r, [])
    | Awaiting sent key =>
        (npc_dialog_resume key (generate sent) cache, [sent])
    end.
Proof.
  unfold npc_dialog_handler, npc_dialog_start, npc_dialog_resume.
  destruct (negb (truthy (prompt req)) || _); [reflexivity|].
  destruct (key_truthy (cacheKey req) && _); [reflexivity|].
  destruct (generate _); reflexivity.
Qed.

(** ** The map operations *)

Lemma Map_get_set_same (k v : string) (m : list (string * string)) :
  Map_get k (Map_set k v m) = Some v.
Proof.
  induction m as [|[k' v'] rest IH]; simpl.
  - rewrite String.eqb_refl. reflexivity.
  - destruct (String.eqb k k') eqn:E; simpl.
    + rewrite String.eqb_refl. reflexivity.
    + rewrite E. exact IH.
Qed.

Lemma Map_get_set_other (key k v : string) (m : list (string * string)) :
  key <> k -> Map_get key (Map_set k v m) = Map_get key m.
Proof.
  intros Hne. induction m as [|[k' v'] rest IH]; simpl.
  - apply String.eqb_neq in Hne. rewrite Hne. reflexivity.
  - destruct (String.eqb k k') eqn:E; simpl.
    + apply String.eqb_eq in E. subst k'.
      apply String.eqb_neq in Hne. rewrite Hne. reflexivity.
    + destruct (String.eqb key k'); [reflexivity|exact IH].
Qed.

(** Setting a key the map has leaves the keys and their order alone. *)
Lemma Map_set_present (k v v0 : string) (m : list (string * string)) :
  Map_get k m = Some v0 -> Map_keys (Map_set k v m) = Map_keys m.
Proof.
  induction m as [|[k' v'] rest IH]; simpl; [discriminate|].
  destruct (String.eqb k k') eqn:E; simpl.
  - apply String.eqb_eq in E. subst k'. reflexivity.
  - intros H. rewrite (IH H). reflexivity.
Qed.

Lemma Map_get_app_fresh (k v : string) (m : list (string * string)) :
  Map_get k m = None -> Map_get k (m ++ [(k, v)]) = Some v.
Proof.
  induction m as [|[k' v'] rest IH]; simpl.
  - rewrite String.eqb_refl. reflexivity.
  - destruct (String.eqb k k'); [discriminate|exact IH].
Qed.

Lemma Map_get_In (k v : string) (m : list (string * string)) :
  Map_get k m = Some v -> In k (Map_keys m).
Proof.
  intros H. destruct (in_dec string_dec k (Map_keys m)) as [Hin|Hout];
    [exact Hin|].
  apply Map_get_None_keys in Hout. congruence.
Qed.

(** Under distinct keys, what is found in the later part of the map is
    what is found in the whole. *)
Lemma Map_get_drop (k v : string) (n : nat) (m : list (string * string)) :
  NoDup (Map_keys m) -> Map_get k (drop n m) = Some v -> Map_get k m = Some v.
Proof.
  revert m. induction n as [|n IH]; intros m Hnd H; [exact H|].
  destruct m as [|[k1 v1] rest]; [discriminate H|].
  simpl in *. apply NoDup_cons in Hnd. destruct Hnd as [Hout Hnd].
  specialize (IH rest Hnd H).
  destruct (String.eqb k k1) eqn:E; [|exact IH].
  apply String.eqb_eq in E. subst k1. exfalso. apply Hout.
  apply list_elem_of_In, (Map_get_In k v), IH.
Qed.

(** ** The cache of every state the server reaches *)

Definition cache_ok (cache : list (string * string)) : Prop :=
  Map_size cache <= 100 /\ NoDup (Map_keys cache).

(** On a cache within its bound, setting a key it has evicts nothing. *)
Lemma set_and_evict_present (k v v0 : string) (m : list (string * string)) :
  Map_get k m = Some v0 -> Map_size m <= 100 ->
  set_and_evict k v m = Map_set k v m.
Proof.
  intros Hp Hs. unfold set_and_evict.
  assert (E : Map_size (Map_set k v m) = Map_size m).
  { unfold Map_size. f_equal.
    rewrite <- (length_map fst (Map_set k v m)), <- (length_map fst m).
    f_equal. apply (Map_set_present k v v0 m Hp). }
  rewrite E. replace (Map_size m >? 100) with false by lia. reflexivity.
Qed.

(** A key that was set is there after the eviction. *)
Lemma set_and_evict_get (k v : string) (m : list (string * string)) :
  Map_size m <= 100 -> Map_get k (set_and_evict k v m) = Some v.
Proof.
  intros Hs. destruct (Map_get k m) as [v0|] eqn:Hf.
  - rewrite (set_and_evict_present k v v0 m Hf Hs). apply Map_get_set_same.
  - unfold set_and_evict. rewrite (Map_set_fresh k v m Hf).
    destruct (Map_size (m ++ [(k, v)]) >? 100) eqn:E;
      [|apply Map_get_app_fresh, Hf].
    destruct m as [|[k1 v1] rest]; [discriminate E|]. simpl in *.
    rewrite String.eqb_refl.
    destruct (String.eqb k k1); [discriminate Hf|].
    apply Map_get_app_fresh, Hf.
Qed.

Lemma NoDup_keys_app_fresh (k v : string) (m : list (string * string)) :
  Map_get k m = None -> NoDup (Map_keys m) -> NoDup (Map_keys (m ++ [(k, v)])).
Proof.
  intros Hf Hnd. unfold Map_keys. rewrite map_app. simpl.
  apply NoDup_app. split; [exact Hnd|]. split.
  - intros x Hx [->|[]]%list_elem_of_In. apply list_elem_of_In in Hx.
    apply Map_get_None_keys in Hf. contradiction.
  - apply NoDup_singleton.
Qed.

Lemma set_and_evict_ok (k v : string) (m : list (string * string)) :
  cache_ok m -> cache_ok (set_and_evict k v m).
Proof.
  intros [Hs Hnd]. split; [apply set_and_evict_size, Hs|].
  destruct (Map_get k m) as [v0|] eqn:Hf.
  - rewrite (set_and_evict_present k v v0 m Hf Hs),
      (Map_set_present k v v0 m Hf).
    exact Hnd.
  - rewrite (set_and_evict_fresh k v m Hf Hs).
    eapply sublist_NoDup; [apply (NoDup_keys_app_fresh k v m Hf Hnd)|].
    apply (fmap_sublist fst). unfold last_entries. apply sublist_drop.
Qed.

(** Setting one key leaves the dialog of every other key alone, or
    evicts it. *)
Lemma set_and_evict_other (key k v dialog dialog' : string)
  (m : list (string * string)) :
  cache_ok m -> key <> k ->
  Map_get key m = Some dialog ->
  Map_get key (set_and_evict k v m) = Some dialog' ->
  dialog' = dialog.
Proof.
  intros [Hs Hnd] Hne H0 H1.
  destruct (Map_get k m) as [v0|] eqn:Hf.
  - rewrite (set_and_evict_present k v v0 m Hf Hs),
      (Map_get_set_other key k v m Hne) in H1.
    congruence.
  - rewrite (set_and_evict_fresh k v m Hf Hs) in H1.
    unfold last_entries in H1.
    apply Map_get_drop in H1; [|apply NoDup_keys_app_fresh; assumption].
    rewrite <- (Map_set_fresh k v m Hf), (Map_get_set_other key k v m Hne) in H1.
    congruence.
Qed.

(** What the second part of the handler does to the cache. *)
Lemma npc_dialog_resume_cache (key : option string) (result : outcome string)
  (cache : list (string * string)) :
  fst (npc_dialog_resume key result cache) = cache
  \/ exists k text,
       key = Some k /\ key_truthy key = true /\ result = Returned text
       /\ fst (npc_dialog_resume key result cache)
          = set_and_evict k (trim text) cache.
Proof.
  unfold npc_dialog_resume. destruct result as [text|]; [|left; reflexivity].
  destruct (key_truthy key) eqn:Hk; [|left; reflexivity].
  destruct key as [k|]; [|discriminate Hk].
  right. exists k, text. repeat split.
Qed.

(** What one turn does to the cache. *)
Lemma step_cache (ev : event) (st : state) :
  npcCache (server (fst (step ev st))) = npcCache (server st)
  \/ exists i k text,
       ev = DialogSettles i (Returned text)
       /\ inFlight st !! i = Some (Some k)
       /\ npcCache (server (fst (step ev st)))
          = set_and_evict k (trim text) (npcCache (server st)).
Proof.
  destruct ev as [generate req_ip now p|req_ip now body|i result];
    cbn [step].
  - left. unfold post_generate_level.
    destruct (app_post_cache
                (fun cache =>
                   let '(r, calls) := generate_level_handler generate p in
                   (cache, r, calls)) req_ip now (server st)) as [E|E].
    + destruct (app_post _ _ _ _) as [[s r] calls]. exact E.
    + destruct (app_post _ _ _ _) as [[s r] calls]. cbn [fst server] in *.
      rewrite E. destruct (generate_level_handler generate p). reflexivity.
  - left. destruct (rateLimit _ _ _) as [limiter [|r]]; [|reflexivity].
    destruct (npc_dialog_start _ _); reflexivity.
  - destruct (inFlight st !! i) as [key|] eqn:Ei; [|left; reflexivity].
    destruct (npc_dialog_resume_cache key result (npcCache (server st)))
      as [E|(k & text & -> & Hk & -> & E)];
      destruct (npc_dialog_resume _ _ _) as [cache r]; cbn [fst] in E.
    + left. exact E.
    + right. exists i, k, text. repeat split; [exact Ei|exact E].
Qed.

Lemma step_cache_ok (ev : event) (st : state) :
  cache_ok (npcCache (server st)) ->
  cache_ok (npcCache (server (fst (step ev st)))).
Proof.
  intros Hok.
  destruct (step_cache ev st) as [E|(i & k & text & _ & _ & E)]; rewrite E;
    [exact Hok|apply set_and_evict_ok, Hok].
Qed.

Lemma run_cache_ok (events : list event) (st : state) :
  cache_ok (npcCache (server st)) ->
  cache_ok (npcCache (server (run events st))).
Proof.
  unfold run. revert st.
  induction events as [|ev later IH]; intros st H; [exact H|].
  simpl. apply IH, step_cache_ok, H.
Qed.

Lemma reached_cache_ok (events : list event) :
  cache_ok (npcCache (server (run events initial))).
Proof.
  apply run_cache_ok. split; [unfold Map_size; simpl; lia|apply NoDup_nil_2].
Qed.

(** ** A miss that settles, then a hit *)

(** X24. What a settling miss stores, the next hit returns.  In every
    state the server reaches, with any requests in flight: when the
    backend settles with a text for a request in flight that has a cache
    key, that request is answered with the trimmed text and
    [cached: false]; and a dialog request that arrives next with the same
    key and a prompt that is a non-empty string, if the rate limiter lets
    it through, is answered with that same text and [cached: true], puts
    nothing in flight and leaves the cache as it is. *)
Theorem miss_then_hit (events : list event) (i : nat) (key text : string) :
  inFlight (run events initial) !! i = Some (Some key) ->
  key_truthy (Some key) = true ->
  snd (step (DialogSettles i (Returned text)) (run events initial))
  = Some (dialog_response (trim text) false)
  /\ forall (req_ip : option string) (now : Z) (body : dialogBody),
       truthy (prompt body) = true -> typeof (prompt body) = "string" ->
       cacheKey body = Some key ->
       snd (rateLimit req_ip now
              (rateLimiter
                 (server (fst (step (DialogSettles i (Returned text))
                                 (run events initial))))))
       = Next ->
       snd (step (DialogArrives req_ip now body)
              (fst (step (DialogSettles i (Returned text))
                      (run events initial))))
       = Some (dialog_response (trim text) true)
       /\ npcCache
            (server
               (fst (step (DialogArrives req_ip now body)
                       (fst (step (DialogSettles i (Returned text))
                               (run events initial))))))
          = npcCache
              (server (fst (step (DialogSettles i (Returned text))
                              (run events initial))))
       /\ inFlight
            (fst (step (DialogArrives req_ip now body)
                    (fst (step (DialogSettles i (Returned text))
                            (run events initial)))))
          = inFlight (fst (step (DialogSettles i (Returned text))
                             (run events initial))).
Proof.
  intros Hi Hkt.
  destruct (reached_cache_ok events) as [Hs _].
  set (st := run events initial) in *.
  pose proof (set_and_evict_get key (trim text) (npcCache (server st)) Hs)
    as Hget.
  assert (E : step (DialogSettles i (Returned text)) st
              = ({| server :=
                      {| rateLimiter := rateLimiter (server st);
                         npcCache := set_and_evict key (trim text)
                                       (npcCache (server st)) |};
                    inFlight := delete i (inFlight st) |},
                 Some (dialog_response (trim text) false))).
  { cbn [step]. rewrite Hi. unfold npc_dialog_resume. rewrite Hkt.
    reflexivity. }
  rewrite E. cbn [fst snd server rateLimiter npcCache inFlight].
  split; [reflexivity|].
  intros req_ip now body Ht Hty Hk Hn. cbn [step server rateLimiter npcCache].
  destruct (rateLimit req_ip now (rateLimiter (server st))) as [limiter m].
  cbn [snd] in Hn. subst m.
  unfold npc_dialog_start. rewrite Ht, Hty, Hk.
  change (default "" (Some key)) with key.
  unfold Map_has. rewrite Hkt, Hget. repeat split.
Qed.

Definition toad_arrives : event :=
  DialogArrives (Some "10.0.0.7") 0
    {| prompt := VStr "Greet the player"; cacheKey := Some "toad" |}.

(** The theorem for one request in flight under the key [toad]. *)
Lemma miss_then_hit_witness :
  snd (step (DialogSettles 0 (Returned " Hello! ")) (run [toad_arrives] initial))
  = Some (dialog_response (trim " Hello! ") false)
  /\ forall (req_ip : option string) (now : Z) (body : dialogBody),
       truthy (prompt body) = true -> typeof (prompt body) = "string" ->
       cacheKey body = Some "toad" ->
       snd (rateLimit req_ip now
              (rateLimiter
                 (server (fst (step (DialogSettles 0 (Returned " Hello! "))
                                 (run [toad_arrives] initial))))))
       = Next ->
       snd (step (DialogArrives req_ip now body)
              (fst (step (DialogSettles 0 (Returned " Hello! "))
                      (run [toad_arrives] initial))))
       = Some (dialog_response (trim " Hello! ") true)
       /\ npcCache
            (server
               (fst (step (DialogArrives req_ip now body)
                       (fst (step (DialogSettles 0 (Returned " Hello! "))
                               (run [toad_arrives] initial))))))
          = npcCache
              (server (fst (step (DialogSettles 0 (Returned " Hello! "))
                              (run [toad_arrives] initial))))
       /\ inFlight
            (fst (step (DialogArrives req_ip now body)
                    (fst (step (DialogSettles 0 (Returned " Hello! "))
                            (run [toad_arrives] initial)))))
          = inFlight (fst (step (DialogSettles 0 (Returned " Hello! "))
                             (run [toad_arrives] initial))).
Proof.
  apply (miss_then_hit [toad_arrives] 0 "toad" " Hello! "); reflexivity.
Defined.

(** ** What replaces a cached dialog *)

(** Two requests in flight for one key: the one that settles second
    overwrites what the first stored. *)
Example second_miss_overwrites :
  npcCache (server (run [toad_arrives; toad_arrives;
                         DialogSettles 0 (Returned "Hello!")] initial))
  = [("toad", "Hello!")]
  /\ npcCache (server (run [toad_arrives; toad_arrives;
                            DialogSettles 0 (Returned "Hello!");
                            DialogSettles 0 (Returned "It's-a me!")] initial))
     = [("toad", "It's-a me!")].
Proof. split; vm_compute; reflexivity. Qed.

(** X25. A cached dialog is replaced only by a miss on its own key.  In
    every state the server reaches, one turn of the event loop leaves
    each cached key with the dialog it had, or evicts it, unless the turn
    is the backend settling with a text for a request in flight with
    that very key: the dialog is then that text, trimmed. *)
Theorem cached_dialog_replaced_by_own_miss_only
  (events : list event) (ev : event) (key dialog dialog' : string) :
  Map_get key (npcCache (server (run events initial))) = Some dialog ->
  Map_get key (npcCache (server (fst (step ev (run events initial)))))
  = Some dialog' ->
  dialog' = dialog
  \/ exists (i : nat) (text : string),
       ev = DialogSettles i (Returned text)
       /\ inFlight (run events initial) !! i = Some (Some key)
       /\ dialog' = trim text.
Proof.
  pose proof (reached_cache_ok events) as Hok.
  set (st := run events initial) in *.
  intros H0 H1.
  destruct (step_cache ev st) as [E|(i & k & text & -> & Hi & E)];
    rewrite E in H1; [left; congruence|].
  destruct (string_dec key k) as [<-|Hne].
  - right. exists i, text. split; [reflexivity|]. split; [exact Hi|].
    rewrite (set_and_evict_get key (trim text) _ (proj1 Hok)) in H1.
    congruence.
  - left. exact (set_and_evict_other key k (trim text) dialog dialog' _
                   Hok Hne H0 H1).
Qed.

Definition peach_arrives : event :=
  DialogArrives (Some "10.0.0.7") 1000
    {| prompt := VStr "See the player off"; cacheKey := Some "peach" |}.

(** The theorem for a greeting cached under [toad] while a request for
    [peach] settles. *)
Lemma cached_dialog_replaced_by_own_miss_only_witness :
  "Hello!" = "Hello!"
  \/ exists (i : nat) (text : string),
       DialogSettles 0 (Returned "Goodbye!") = DialogSettles i (Returned text)
       /\ inFlight (run [toad_arrives; DialogSettles 0 (Returned "Hello!");
                         peach_arrives] initial) !! i
          = Some (Some "toad")
       /\ "Hello!" = trim text.
Proof.
  apply (cached_dialog_replaced_by_own_miss_only
           [toad_arrives; DialogSettles 0 (Returned "Hello!"); peach_arrives]
           (DialogSettles 0 (Returned "Goodbye!")) "toad");
    vm_compute; reflexivity.
Defined.

End GatewayInFlight.

(* ===================================================================== *)
(** * The response extractor: text around the block, and no block *)
(* ===================================================================== *)

Module ExtractionContext.
Import Regex Gateway ExtractionProps.

Lemma exec_from_step (r : regex) (ignoreCase : bool) (prev : option ascii)
  (c : ascii) (cs : list ascii) :
  match_here r ignoreCase prev (c :: cs) = None ->
  exec_from r ignoreCase prev (c :: cs)
  = match exec_from r ignoreCase (Some c) cs with
    | Some (pre, st) => Some (c :: pre, st)
    | None => None
    end.
Proof. intros H. cbn [exec_from]. rewrite H. reflexivity. Qed.

(** The fence pattern matches only where three backticks stand. *)
Lemma fence_pattern_needs_fence (prev : option ascii) (cs : list ascii) :
  starts_with_fence cs = false -> match_here fence_pattern false prev cs = None.
Proof.
  intros H. unfold match_here, fence_pattern. cbn [Cat matches].
  apply no_fence_here. exact H.
Qed.

Lemma exec_without_fence (prev : option ascii) (cs : list ascii) :
  has_triple_backtick cs = false -> exec_from fence_pattern false prev cs = None.
Proof.
  revert prev. induction cs as [|c cs IH]; intros prev H.
  - cbn [exec_from]. rewrite fence_pattern_needs_fence; reflexivity.
  - rewrite exec_from_step
      by (apply fence_pattern_needs_fence, has_triple_backtick_head, H).
    rewrite IH; [reflexivity|]. apply (has_triple_backtick_tail c cs H).
Qed.

(** X26. A completion without a fence is parsed whole.  When the text
    holds no three backticks in a row, what is handed to [JSON.parse] is
    the text itself, trimmed. *)
Theorem unfenced_text_is_parsed_whole (text : string) :
  has_triple_backtick (list_ascii_of_string text) = false ->
  extract_level text = JSON.JSON_parse (trim text).
Proof.
  intros H. unfold extract_level, json_source, exec.
  rewrite (exec_without_fence None _ H). reflexivity.
Qed.

Lemma unfenced_text_is_parsed_whole_witness :
  extract_level " [1, 2] " = JSON.JSON_parse (trim " [1, 2] ").
Proof. apply (unfenced_text_is_parsed_whole " [1, 2] "). reflexivity. Defined.

(** ** Text before and after the block *)

Definition no_backtick (cs : list ascii) : bool :=
  forallb (fun c => negb (Ascii.eqb c "`")) cs.

(** The search passes over text that holds no backtick. *)
Lemma exec_skips_prose (prev : option ascii) (pre tail : list ascii) :
  no_backtick pre = true ->
  exec_from fence_pattern false prev (pre ++ tail)
  = match exec_from fence_pattern false (before_after prev pre) tail with
    | Some (found, st) => Some (pre ++ found, st)
    | None => None
    end.
Proof.
  revert prev. induction pre as [|c pre IH]; intros prev H.
  - simpl. destruct (exec_from fence_pattern false prev tail) as [[found st]|];
      reflexivity.
  - simpl in H. apply andb_prop in H. destruct H as [Hc H].
    cbn [app]. rewrite exec_from_step.
    + rewrite (IH (Some c) H). cbn [before_after fold_left].
      destruct (exec_from fence_pattern false _ tail) as [[found st]|];
        reflexivity.
    + apply fence_pattern_needs_fence. simpl.
      destruct (Ascii.eqb c "`"); [discriminate Hc|].
      destruct (pre ++ tail) as [|c2 [|c3 l]]; reflexivity.
Qed.

Lemma starts_with_fence_app (l tail : list ascii) :
  (3 <= List.length l)%nat ->
  starts_with_fence (l ++ tail) = starts_with_fence l.
Proof.
  destruct l as [|c1 [|c2 [|c3 l]]]; simpl; try lia. reflexivity.
Qed.

(** No fence starts in the captured interior, whatever follows the
    closing fence. *)
Lemma interior_fence_free_tail (cs tail : list ascii) (i : nat) :
  has_triple_backtick cs = false ->
  (i < List.length (drop_space (cs ++ [nl])))%nat ->
  starts_with_fence (drop i (drop_space (cs ++ [nl]) ++ fence ++ tail)) = false.
Proof.
  intros Hcs Hi.
  rewrite app_assoc, drop_app_le
    by (rewrite length_app; lia).
  rewrite starts_with_fence_app.
  - apply interior_fence_free; assumption.
  - rewrite length_drop, length_app. simpl. lia.
Qed.

Lemma drop_space_before_fence_tail (x tail : list ascii) :
  drop_space (x ++ fence ++ tail) = drop_space x ++ fence ++ tail.
Proof.
  destruct (drop_space x) as [|c t] eqn:E.
  - rewrite (drop_space_app_empty x _ E). reflexivity.
  - rewrite (drop_space_app_nonempty x) by (rewrite E; discriminate).
    rewrite E. reflexivity.
Qed.

(** The pattern on a [json] block with a fence-free interior, whatever
    stands before and after: the match ends behind the closing fence and
    captures the interior. *)
Lemma match_block (prev : option ascii) (cs tail : list ascii) :
  has_triple_backtick cs = false ->
  match_here fence_pattern false prev
    (list_ascii_of_string "```json" ++ nl :: cs ++ nl :: fence ++ tail)
  = Some {| before := Some "`"%char; rest := tail;
            group1 := Some (drop_space (cs ++ [nl])) |}.
Proof.
  intros Hcs. unfold match_here, fence_pattern.
  cbn [Cat matches list_ascii_of_string app].
  rewrite (fence_here _ _ (list_ascii_of_string "json"
                            ++ nl :: cs ++ nl :: fence ++ tail)) by reflexivity.
  rewrite (json_here _ _ (nl :: cs ++ nl :: fence ++ tail)) by reflexivity.
  cbn [rest before group1].
  set (u := drop_space (cs ++ [nl])).
  set (final := {| before := Some "`"%char; rest := tail;
                   group1 := Some u |}).
  match goal with
  | |- match ?t with Some res => Some res | None => _ end = _ =>
      assert (E : t = Some final); [|rewrite E; reflexivity]
  end.
  apply take_greedy_space.
  replace (drop_space (nl :: cs ++ nl :: fence ++ tail))
    with (u ++ fence ++ tail).
  2:{ change (nl :: cs ++ nl :: fence ++ tail)
        with ([nl] ++ (cs ++ nl :: fence ++ tail)).
      rewrite (drop_space_app_empty [nl] _ eq_refl).
      change (cs ++ nl :: fence ++ tail) with (cs ++ [nl] ++ fence ++ tail).
      rewrite (app_assoc cs [nl]), drop_space_before_fence_tail. reflexivity. }
  cbn [rest before group1].
  apply take_lazy_first.
  - intros i b Hi. apply no_fence_here. cbn [rest].
    apply interior_fence_free_tail; assumption.
  - rewrite (fence_here _ _ tail) by reflexivity.
    cbn [rest before group1]. unfold final. do 3 f_equal.
    rewrite !length_app.
    replace (List.length u + (List.length fence + List.length tail)
             - (List.length fence + List.length tail))%nat
      with (List.length u) by lia.
    rewrite firstn_app, firstn_all, Nat.sub_diag. simpl.
    apply app_nil_r.
Qed.

(** X27. The text around a fenced block is ignored.  A completion made of
    text without backticks, then a [json] block whose interior holds no
    three backticks in a row, then anything at all, is parsed as the
    trimmed interior of the block. *)
Theorem fenced_block_is_found_in_prose (before_ interior after_ : string) :
  no_backtick (list_ascii_of_string before_) = true ->
  has_triple_backtick (list_ascii_of_string interior) = false ->
  extract_level (before_ ++ wrap_fenced interior ++ after_)
  = JSON.JSON_parse (trim interior).
Proof.
  intros Hb Hi. unfold extract_level. f_equal.
  unfold json_source, exec, wrap_fenced, newline.
  rewrite !list_ascii_of_string_app.
  change (list_ascii_of_string (String (ascii_of_nat 10) EmptyString))
    with [nl].
  change (list_ascii_of_string "```") with fence.
  rewrite (exec_skips_prose None _ _ Hb).
  set (tail := list_ascii_of_string after_).
  set (cs := list_ascii_of_string interior).
  replace ((list_ascii_of_string "```json" ++ [nl] ++ cs ++ [nl] ++ fence)
           ++ tail)
    with (list_ascii_of_string "```json" ++ nl :: cs ++ nl :: fence ++ tail).
  2:{ rewrite <- !app_assoc. reflexivity. }
  assert (E : forall prev,
            exec_from fence_pattern false prev
              (list_ascii_of_string "```json" ++ nl :: cs ++ nl :: fence ++ tail)
            = Some ([], {| before := Some "`"%char; rest := tail;
                           group1 := Some (drop_space (cs ++ [nl])) |})).
  { intros prev.
    pose proof (match_block prev cs tail Hi) as Hm.
    cbn [list_ascii_of_string app] in *. cbn [exec_from].
    rewrite Hm. reflexivity. }
  rewrite E. cbn [group1]. change (default [] (Some ?x)) with x.
  unfold trim. rewrite list_ascii_of_string_of_list_ascii.
  rewrite trim_chars_interior. reflexivity.
Qed.

(** The theorem on a reply that introduces its block and comments on it
    afterwards, with a second block at the end. *)
Lemma fenced_block_is_found_in_prose_witness :
  extract_level ("Here is the level: " ++ wrap_fenced "[1, 2]"
                 ++ " Enjoy! ```[3]```")
  = JSON.JSON_parse (trim "[1, 2]").
Proof.
  apply (fenced_block_is_found_in_prose "Here is the level: " "[1, 2]"
           " Enjoy! ```[3]```"); reflexivity.
Defined.

End ExtractionContext.

(* ===================================================================== *)
(** * The sanitizer: what its output looks like *)
(* ===================================================================== *)

Module SanitizeOutput.
Import Regex Sanitize.

(** ** [isCleanInput] *)

(** The greedy [[class]+] before [$] takes the text to its end or fails. *)
Lemma take_greedy_to_end (p : ascii -> bool) (prev : option ascii)
  (cap : option (list ascii)) (cs : list ascii) :
  match take_greedy p (matches LineEnd false Some) prev cap cs with
  | Some _ => true
  | None => false
  end = forallb p cs.
Proof.
  revert prev. induction cs as [|c cs IH]; intros prev; [reflexivity|].
  cbn [take_greedy forallb]. destruct (p c); [|reflexivity].
  specialize (IH (Some c)).
  destruct (take_greedy p (matches LineEnd false Some) (Some c) cap cs);
    cbn [andb]; rewrite <- IH; reflexivity.
Qed.

(** An expression anchored by [^] matches at the start of the text only. *)
Lemma exec_anchored_later (r : regex) (c : ascii) (cs : list ascii) :
  exec_from (Seq LineStart r) false (Some c) cs = None.
Proof.
  revert c. induction cs as [|c' cs IH]; intros c; [reflexivity|].
  cbn [exec_from match_here matches before]. rewrite IH. reflexivity.
Qed.

(** X28. [isCleanInput] accepts the non-empty strings made of the
    letters a-z and A-Z, the digits, white space and the six marks
    [. , ! ? ' -], and nothing else: the underscore is not among them. *)
Theorem isCleanInput_characterised (input : value) :
  isCleanInput input
  = match input with
    | VStr (String c s) => forallb clean_char (c :: list_ascii_of_string s)
    | _ => false
    end.
Proof.
  destruct input as [| | | |s| |]; try reflexivity.
  destruct s as [|c s]; [reflexivity|].
  unfold isCleanInput.
  change (negb (String.eqb (typeof (VStr (String c s))) "string")
          || (String.length (string_of (VStr (String c s))) =? 0)%nat)
    with false.
  cbv iota. unfold test, exec. cbn [Cat string_of list_ascii_of_string].
  cbn [exec_from match_here matches before rest group1].
  rewrite exec_anchored_later.
  cbn [forallb]. destruct (clean_char c); [|reflexivity].
  rewrite <- (take_greedy_to_end clean_char (Some c) None
                (list_ascii_of_string s)).
  destruct (take_greedy clean_char _ _ _ _); reflexivity.
Qed.

(** ** White space in the output *)

(** White space stands alone and is the plain space; [after_space] says
    whether the text follows a space, or the start. *)
Fixpoint single_spaced (after_space : bool) (cs : list ascii) : bool :=
  match cs with
  | [] => true
  | c :: rest =>
      if is_space c
      then Ascii.eqb c " " && negb after_space && single_spaced true rest
      else single_spaced false rest
  end.

Definition ends_with_space (cs : list ascii) : bool :=
  match rev cs with
  | c :: _ => is_space c
  | [] => false
  end.

Lemma drop_space_length (cs : list ascii) :
  (List.length (drop_space cs) <= List.length cs)%nat.
Proof.
  induction cs as [|c cs IH]; simpl; [lia|].
  destruct (is_space c); simpl; lia.
Qed.

Lemma drop_space_head (cs : list ascii) :
  match drop_space cs with
  | c :: _ => is_space c = false
  | [] => True
  end.
Proof.
  induction cs as [|c cs IH]; simpl; [exact I|].
  destruct (is_space c) eqn:E; [exact IH|exact E].
Qed.

(** Passing over the rest of a run of white space. *)
Lemma replace_skips_run (r : regex) (ignoreCase : bool)
  (replacement : list ascii) (prev : option ascii) (cs : list ascii) :
  replace_from r ignoreCase replacement prev
    (List.length cs - List.length (drop_space cs)) cs
  = replace_from r ignoreCase replacement (ExtractionProps.before_run prev cs) 0
      (drop_space cs).
Proof.
  revert prev. induction cs as [|c cs IH]; intros prev; [reflexivity|].
  cbn [drop_space ExtractionProps.before_run].
  destruct (is_space c).
  - pose proof (drop_space_length cs).
    replace (List.length (c :: cs) - List.length (drop_space cs))%nat
      with (S (List.length cs - List.length (drop_space cs)))
      by (simpl; lia).
    cbn [replace_from]. apply IH.
  - rewrite Nat.sub_diag. reflexivity.
Qed.

(** [cleaned.replace(/\s+/g, ' ')], one step at a time. *)
Lemma squeeze_step (prev : option ascii) (c : ascii) (cs : list ascii) :
  replace_from (Plus white_space) false [" "%char] prev 0 (c :: cs)
  = if is_space c
    then " "%char
         :: replace_from (Plus white_space) false [" "%char]
              (ExtractionProps.before_run (Some c) cs) 0 (drop_space cs)
    else c :: replace_from (Plus white_space) false [" "%char] (Some c) 0 cs.
Proof.
  cbn [replace_from match_here matches rest before group1].
  change (white_space c) with (is_space c).
  destruct (is_space c); [|reflexivity].
  rewrite (ExtractionProps.take_greedy_space Some (Some c) None cs _ eq_refl).
  cbn [rest]. pose proof (drop_space_length cs).
  replace (List.length (c :: cs) - List.length (drop_space cs))%nat
    with (S (List.length cs - List.length (drop_space cs)))
    by (simpl; lia).
  cbn [app]. f_equal. apply replace_skips_run.
Qed.

Lemma squeeze_single_spaced (n : nat) (prev : option ascii) (cs : list ascii) :
  (List.length cs <= n)%nat ->
  single_spaced false
    (replace_from (Plus white_space) false [" "%char] prev 0 cs) = true.
Proof.
  revert prev cs. induction n as [|n IH]; intros prev cs Hn.
  - destruct cs; [reflexivity|simpl in Hn; lia].
  - destruct cs as [|c cs]; [reflexivity|]. simpl in Hn.
    rewrite squeeze_step. destruct (is_space c) eqn:Ec.
    + cbn [single_spaced]. change (is_space " ") with true. cbv iota.
      change (Ascii.eqb " " " " && negb false) with true. cbn [andb].
      pose proof (drop_space_length cs) as Hl.
      pose proof (drop_space_head cs) as Hh.
      destruct (drop_space cs) as [|c2 d]; [reflexivity|].
      rewrite squeeze_step, Hh. cbn [single_spaced]. rewrite Hh.
      apply IH. simpl in Hl. lia.
    + cbn [single_spaced]. rewrite Ec. apply IH. lia.
Qed.

Lemma single_spaced_drop_space (b : bool) (cs : list ascii) :
  single_spaced b cs = true -> single_spaced true (drop_space cs) = true.
Proof.
  revert b. induction cs as [|c cs IH]; intros b H; [reflexivity|].
  cbn [drop_space]. cbn [single_spaced] in H.
  destruct (is_space c) eqn:E.
  - apply andb_prop in H. destruct H as [_ H]. apply (IH true H).
  - cbn [single_spaced]. rewrite E. exact H.
Qed.

Lemma single_spaced_prefix (b : bool) (cs tail : list ascii) :
  single_spaced b (cs ++ tail) = true -> single_spaced b cs = true.
Proof.
  revert b. induction cs as [|c cs IH]; intros b H; [reflexivity|].
  cbn [app single_spaced] in *. destruct (is_space c).
  - apply andb_prop in H. destruct H as [H1 H2].
    rewrite H1, (IH true H2). reflexivity.
  - apply (IH false H).
Qed.

(** Dropping trailing white space leaves a prefix. *)
Lemma drop_space_suffix (cs : list ascii) :
  exists spaces, cs = spaces ++ drop_space cs.
Proof.
  induction cs as [|c cs IH]; [exists []; reflexivity|].
  cbn [drop_space]. destruct (is_space c).
  - destruct IH as [spaces IH]. exists (c :: spaces). simpl. f_equal. exact IH.
  - exists []. reflexivity.
Qed.

Lemma trim_end_prefix (cs : list ascii) :
  exists spaces, cs = rev (drop_space (rev cs)) ++ spaces.
Proof.
  destruct (drop_space_suffix (rev cs)) as [spaces H].
  exists (rev spaces). rewrite <- rev_app_distr, <- H, rev_involutive.
  reflexivity.
Qed.

Lemma trim_single_spaced (b : bool) (cs : list ascii) :
  single_spaced b cs = true -> single_spaced true (trim_chars cs) = true.
Proof.
  intros H. unfold trim_chars.
  destruct (trim_end_prefix (drop_space cs)) as [spaces E].
  apply (single_spaced_prefix true _ spaces). rewrite <- E.
  apply (single_spaced_drop_space b), H.
Qed.

Lemma trim_ends_with_space (cs : list ascii) :
  ends_with_space (trim_chars cs) = false.
Proof.
  unfold ends_with_space, trim_chars. rewrite rev_involutive.
  pose proof (drop_space_head (rev (drop_space cs))) as H.
  destruct (drop_space (rev (drop_space cs))); [reflexivity|exact H].
Qed.

Lemma substring_firstn (n : nat) (s : string) :
  list_ascii_of_string (substring 0 n s) = firstn n (list_ascii_of_string s).
Proof.
  revert n. induction s as [|c s IH]; intros [|n]; simpl; try reflexivity.
  rewrite IH. reflexivity.
Qed.

(** The text before the length limit is applied. *)
Definition cleaned_text (s : string) : string :=
  trim (replace_all (Plus white_space) false " "
          (fold_left (fun cleaned pattern =>
                        replace_all (fst pattern) (snd pattern) "" cleaned)
                     INJECTION_PATTERNS s)).

Lemma sanitizeInput_string (s : string) (maxLength : option nat) :
  sanitizeInput (VStr s) maxLength
  = if (default 200%nat maxLength <? String.length (cleaned_text s))%nat
    then substring 0 (default 200%nat maxLength) (cleaned_text s)
    else cleaned_text s.
Proof. reflexivity. Qed.

Lemma cleaned_text_single_spaced (s : string) :
  single_spaced true (list_ascii_of_string (cleaned_text s)) = true.
Proof.
  unfold cleaned_text, trim, replace_all.
  rewrite !list_ascii_of_string_of_list_ascii.
  apply (trim_single_spaced false).
  apply (squeeze_single_spaced _ _ _ (Nat.le_refl _)).
Qed.

Lemma string_length_list (s : string) :
  String.length s = List.length (list_ascii_of_string s).
Proof. induction s as [|c s IH]; simpl; [reflexivity|]. rewrite IH. reflexivity. Qed.

(** X29. The white space of the output is normalised.  In what
    [sanitizeInput] returns, every white-space character is a plain
    space, no two of them stand side by side and none stands first; and
    an output shorter than [maxLength] does not end with one either. *)
Theorem sanitized_white_space (input : value) (maxLength : option nat) :
  single_spaced true (list_ascii_of_string (sanitizeInput input maxLength))
  = true
  /\ ((String.length (sanitizeInput input maxLength)
       < default 200%nat maxLength)%nat ->
      ends_with_space (list_ascii_of_string (sanitizeInput input maxLength))
      = false).
Proof.
  destruct input as [| | | |s| |]; try (split; reflexivity).
  rewrite sanitizeInput_string.
  pose proof (cleaned_text_single_spaced s) as Hs.
  destruct (_ <? _)%nat eqn:E.
  - split.
    + rewrite substring_firstn.
      apply (single_spaced_prefix true _
               (skipn (default 200%nat maxLength)
                      (list_ascii_of_string (cleaned_text s)))).
      rewrite firstn_skipn. exact Hs.
    + intros Hlt. exfalso. apply Nat.ltb_lt in E.
      rewrite string_length_list, substring_firstn, length_firstn in Hlt.
      rewrite string_length_list in E. lia.
  - split; [exact Hs|]. intros _.
    unfold cleaned_text, trim. rewrite list_ascii_of_string_of_list_ascii.
    apply trim_ends_with_space.
Qed.

(** ** Tags in the output *)

(** The last of the injection patterns, [/<[^>]+>/g]. *)
Definition tag_pattern : regex :=
  Cat [Chr "<"; Plus (not_char ">"); Chr ">"].

Definition has_tag (s : string) : bool := test tag_pattern false s.

Lemma tag_pattern_is_last :
  exists earlier, INJECTION_PATTERNS = earlier ++ [(tag_pattern, false)].
Proof. eexists [_; _; _; _; _; _]. reflexivity. Qed.

(** What follows the first [>] of a text. *)
Fixpoint close (cs : list ascii) : option (list ascii) :=
  match cs with
  | [] => None
  | c :: rest => if Ascii.eqb c ">" then Some rest else close rest
  end.

(** What follows a tag that starts the text. *)
Definition after_tag (cs : list ascii) : option (list ascii) :=
  match cs with
  | c :: x :: rest =>
      if Ascii.eqb c "<" && negb (Ascii.eqb x ">") then close rest else None
  | _ => None
  end.

(** A tag somewhere in the text. *)
Fixpoint tag_inside (cs : list ascii) : bool :=
  match cs with
  | [] => false
  | c :: rest =>
      match after_tag cs with
      | Some _ => true
      | None => tag_inside rest
      end
  end.

Definition at_end (prev : ascii) (cs : list ascii) : position :=
  {| before := Some prev; rest := cs; group1 := None |}.

(** The greedy [[^>]+] followed by [>] ends behind the first [>]. *)
Lemma take_greedy_close (prev : option ascii) (cs : list ascii) :
  take_greedy (not_char ">") (matches (Chr ">") false Some) prev None cs
  = option_map (at_end ">") (close cs).
Proof.
  revert prev. induction cs as [|c cs IH]; intros prev; [reflexivity|].
  cbn [take_greedy close matches rest]. unfold not_char, char_matches.
  destruct (Ascii.eqb c ">") eqn:E; cbn [negb].
  - apply Ascii.eqb_eq in E. subst c. reflexivity.
  - rewrite IH. destruct (close cs); reflexivity.
Qed.

Lemma match_tag (prev : option ascii) (cs : list ascii) :
  match_here tag_pattern false prev cs = option_map (at_end ">") (after_tag cs).
Proof.
  unfold match_here, tag_pattern. cbn [Cat matches rest].
  destruct cs as [|c [|x cs]]; cbn [after_tag].
  - reflexivity.
  - unfold char_matches. destruct (Ascii.eqb c "<"); reflexivity.
  - unfold char_matches. destruct (Ascii.eqb c "<"); [|reflexivity].
    cbn [advance rest group1 andb]. unfold not_char.
    destruct (Ascii.eqb x ">"); [reflexivity|]. cbn [negb].
    apply take_greedy_close.
Qed.

Lemma test_tag (prev : option ascii) (cs : list ascii) :
  match exec_from tag_pattern false prev cs with
  | Some _ => true
  | None => false
  end = tag_inside cs.
Proof.
  revert prev. induction cs as [|c cs IH]; intros prev.
  - reflexivity.
  - cbn [exec_from tag_inside]. rewrite match_tag.
    destruct (after_tag (c :: cs)); [reflexivity|]. cbn [option_map].
    rewrite <- (IH (Some c)).
    destruct (exec_from tag_pattern false (Some c) cs) as [[pre st]|];
      reflexivity.
Qed.

Lemma has_tag_inside (s : string) :
  has_tag s = tag_inside (list_ascii_of_string s).
Proof. unfold has_tag, test, exec. apply test_tag. Qed.

(** *** Removing the tags *)

Lemma close_split (cs tail : list ascii) :
  close cs = Some tail -> exists u, cs = u ++ tail /\ u <> [].
Proof.
  revert tail. induction cs as [|c cs IH]; intros tail H; [discriminate H|].
  cbn [close] in H. destruct (Ascii.eqb c ">").
  - inversion H; subst. exists [c]. split; [reflexivity|discriminate].
  - destruct (IH tail H) as (u & -> & _). exists (c :: u).
    split; [reflexivity|discriminate].
Qed.

Lemma after_tag_split (cs tail : list ascii) :
  after_tag cs = Some tail ->
  exists c u, cs = c :: u ++ tail /\ u <> [].
Proof.
  destruct cs as [|c [|x cs]]; try discriminate. cbn [after_tag].
  destruct (Ascii.eqb c "<" && negb (Ascii.eqb x ">")); [|discriminate].
  intros H. destruct (close_split _ _ H) as (u & -> & _).
  exists c, (x :: u). split; [reflexivity|discriminate].
Qed.

(** Passing over the characters of a match. *)
Lemma replace_skips (r : regex) (ignoreCase : bool) (replacement : list ascii)
  (prev : option ascii) (u tail : list ascii) :
  replace_from r ignoreCase replacement prev (List.length u) (u ++ tail)
  = replace_from r ignoreCase replacement (ExtractionProps.before_after prev u)
      0 tail.
Proof.
  revert prev. induction u as [|c u IH]; intros prev; [reflexivity|].
  cbn [List.length app replace_from]. apply IH.
Qed.

(** The tag pattern does not look at the character before a position. *)
Lemma replace_tag_prev (prev prev' : option ascii) (skip : nat)
  (cs : list ascii) :
  replace_from tag_pattern false [] prev skip cs
  = replace_from tag_pattern false [] prev' skip cs.
Proof.
  destruct skip, cs; cbn [replace_from]; rewrite ?(match_tag prev),
    ?(match_tag prev'); reflexivity.
Qed.

Definition strip_tags (cs : list ascii) : list ascii :=
  replace_from tag_pattern false [] None 0 cs.

(** [cleaned.replace(/<[^>]+>/g, '')], one step at a time. *)
Lemma strip_tags_step (c : ascii) (cs : list ascii) :
  strip_tags (c :: cs)
  = match after_tag (c :: cs) with
    | Some tail => strip_tags tail
    | None => c :: strip_tags cs
    end.
Proof.
  unfold strip_tags. cbn [replace_from]. rewrite match_tag.
  destruct (after_tag (c :: cs)) as [tail|] eqn:E.
  - cbn [option_map at_end rest].
    destruct (after_tag_split _ _ E) as (c' & u & Hcs & Hu).
    inversion Hcs; subst c' cs. clear Hcs.
    replace (List.length (c :: u ++ tail) - List.length tail)%nat
      with (S (List.length u)) by (simpl; rewrite length_app; lia).
    cbn [app]. rewrite replace_skips. apply replace_tag_prev.
  - cbn [option_map app]. f_equal. apply replace_tag_prev.
Qed.

Lemma close_tail (c : ascii) (cs : list ascii) :
  close (c :: cs) = None -> close cs = None.
Proof. cbn [close]. destruct (Ascii.eqb c ">"); [discriminate|auto]. Qed.

Lemma after_tag_needs_close (c : ascii) (cs : list ascii) :
  close cs = None -> after_tag (c :: cs) = None.
Proof.
  destruct cs as [|x cs]; [reflexivity|]. cbn [after_tag]. intros H.
  destruct (Ascii.eqb c "<" && negb (Ascii.eqb x ">")); [|reflexivity].
  apply (close_tail x cs H).
Qed.

(** A text without [>] has no tag to remove. *)
Lemma strip_tags_without_close (cs : list ascii) :
  close cs = None -> strip_tags cs = cs.
Proof.
  induction cs as [|c cs IH]; intros H; [reflexivity|].
  rewrite strip_tags_step, (after_tag_needs_close c cs (close_tail c cs H)).
  rewrite (IH (close_tail c cs H)). reflexivity.
Qed.

(** Where no tag starts before the removal, none starts after it. *)
Lemma after_tag_strip (c : ascii) (cs : list ascii) :
  after_tag (c :: cs) = None -> after_tag (c :: strip_tags cs) = None.
Proof.
  destruct cs as [|x cs]; [reflexivity|].
  cbn [after_tag]. destruct (Ascii.eqb c "<") eqn:Ec; cbn [andb].
  2:{ intros _. destruct (strip_tags (x :: cs)); reflexivity. }
  destruct (Ascii.eqb x ">") eqn:Ex; cbn [negb].
  - intros _. rewrite strip_tags_step.
    assert (E : after_tag (x :: cs) = None).
    { destruct cs; cbn [after_tag]; [reflexivity|].
      apply Ascii.eqb_eq in Ex. subst x. reflexivity. }
    rewrite E. cbn [after_tag]. rewrite Ex. reflexivity.
  - intros H. rewrite strip_tags_step.
    rewrite (after_tag_needs_close x cs H).
    rewrite (strip_tags_without_close cs H).
    cbn [after_tag]. rewrite Ex. exact H.
Qed.

Lemma strip_tags_tag_free (n : nat) (cs : list ascii) :
  (List.length cs <= n)%nat -> tag_inside (strip_tags cs) = false.
Proof.
  revert cs. induction n as [|n IH]; intros cs Hn.
  - destruct cs; [reflexivity|simpl in Hn; lia].
  - destruct cs as [|c cs]; [reflexivity|]. simpl in Hn.
    rewrite strip_tags_step.
    destruct (after_tag (c :: cs)) as [tail|] eqn:E.
    + apply IH. destruct (after_tag_split _ _ E) as (c' & u & Hcs & Hu).
      inversion Hcs; subst. rewrite length_app in Hn. lia.
    + cbn [tag_inside]. rewrite (after_tag_strip c cs E). apply IH. lia.
Qed.

(** *** White space and the ends *)

Lemma close_drop_space (cs : list ascii) :
  close cs = None -> close (drop_space cs) = None.
Proof.
  induction cs as [|c cs IH]; intros H; [reflexivity|].
  cbn [drop_space]. destruct (is_space c); [|exact H].
  apply IH, (close_tail c cs H).
Qed.

Definition squeeze (prev : option ascii) (cs : list ascii) : list ascii :=
  replace_from (Plus white_space) false [" "%char] prev 0 cs.

Lemma close_squeeze (n : nat) (prev : option ascii) (cs : list ascii) :
  (List.length cs <= n)%nat -> close cs = None -> close (squeeze prev cs) = None.
Proof.
  revert prev cs. induction n as [|n IH]; intros prev cs Hn H.
  - destruct cs; [reflexivity|simpl in Hn; lia].
  - destruct cs as [|c cs]; [reflexivity|]. simpl in Hn.
    unfold squeeze. rewrite squeeze_step.
    pose proof (close_tail c cs H) as Ht.
    destruct (is_space c) eqn:Ec.
    + cbn [close]. change (Ascii.eqb " " ">") with false. cbv iota.
      apply IH; [pose proof (drop_space_length cs); lia|].
      apply close_drop_space, Ht.
    + cbn [close] in *. destruct (Ascii.eqb c ">"); [discriminate H|].
      apply IH; [lia|exact Ht].
Qed.

Lemma is_space_not_angle (c : ascii) :
  is_space c = true -> Ascii.eqb c "<" = false /\ Ascii.eqb c ">" = false.
Proof.
  intros H. split; apply Ascii.eqb_neq; intros ->; discriminate H.
Qed.

Lemma after_tag_squeeze (prev : option ascii) (c : ascii) (cs : list ascii) :
  after_tag (c :: cs) = None -> after_tag (c :: squeeze prev cs) = None.
Proof.
  destruct cs as [|x cs]; [reflexivity|].
  unfold squeeze. rewrite squeeze_step.
  cbn [after_tag]. destruct (Ascii.eqb c "<") eqn:Ec; cbn [andb].
  2:{ intros _. destruct (is_space x); reflexivity. }
  destruct (is_space x) eqn:Es.
  - destruct (is_space_not_angle x Es) as [_ Ex]. rewrite Ex. cbn [negb].
    intros H. cbn [after_tag].
    change (Ascii.eqb " " ">") with false. cbn [negb andb].
    apply (close_squeeze _ _ _ (Nat.le_refl _)), close_drop_space, H.
  - cbn [after_tag]. destruct (Ascii.eqb x ">"); cbn [negb andb];
      [reflexivity|].
    intros H. apply (close_squeeze _ _ _ (Nat.le_refl _)), H.
Qed.

Lemma tag_inside_tail (c : ascii) (cs : list ascii) :
  tag_inside (c :: cs) = false ->
  after_tag (c :: cs) = None /\ tag_inside cs = false.
Proof.
  cbn [tag_inside]. destruct (after_tag (c :: cs)); [discriminate|auto].
Qed.

Lemma tag_inside_drop_space (cs : list ascii) :
  tag_inside cs = false -> tag_inside (drop_space cs) = false.
Proof.
  induction cs as [|c cs IH]; intros H; [reflexivity|].
  cbn [drop_space]. destruct (is_space c); [|exact H].
  apply IH, (tag_inside_tail c cs H).
Qed.

Lemma squeeze_tag_free (n : nat) (prev : option ascii) (cs : list ascii) :
  (List.length cs <= n)%nat ->
  tag_inside cs = false -> tag_inside (squeeze prev cs) = false.
Proof.
  revert prev cs. induction n as [|n IH]; intros prev cs Hn H.
  - destruct cs; [reflexivity|simpl in Hn; lia].
  - destruct cs as [|c cs]; [reflexivity|]. simpl in Hn.
    destruct (tag_inside_tail c cs H) as [Ha Ht].
    pose proof (after_tag_squeeze (Some c) c cs Ha) as Hq.
    unfold squeeze in *. rewrite squeeze_step.
    destruct (is_space c) eqn:Ec.
    + clear Hq. cbn [tag_inside].
      replace (after_tag (" "%char :: _)) with (@None (list ascii)).
      2:{ symmetry. cbn [after_tag].
          destruct (replace_from _ _ _ _ _ _); reflexivity. }
      apply IH; [pose proof (drop_space_length cs); lia|].
      apply tag_inside_drop_space, Ht.
    + cbn [tag_inside]. rewrite Hq. apply IH; [lia|exact Ht].
Qed.

Lemma close_prefix (cs tail : list ascii) :
  close (cs ++ tail) = None -> close cs = None.
Proof.
  induction cs as [|c cs IH]; [reflexivity|].
  cbn [app close]. destruct (Ascii.eqb c ">"); [discriminate|exact IH].
Qed.

Lemma after_tag_prefix (cs tail : list ascii) :
  after_tag (cs ++ tail) = None -> after_tag cs = None.
Proof.
  destruct cs as [|c [|x cs]]; try reflexivity.
  cbn [app after_tag].
  destruct (Ascii.eqb c "<" && negb (Ascii.eqb x ">")); [|reflexivity].
  apply close_prefix.
Qed.

Lemma tag_inside_prefix (cs tail : list ascii) :
  tag_inside (cs ++ tail) = false -> tag_inside cs = false.
Proof.
  induction cs as [|c cs IH]; [reflexivity|].
  intros H. change ((c :: cs) ++ tail) with (c :: cs ++ tail) in H.
  destruct (tag_inside_tail _ _ H) as [Ha Ht].
  cbn [tag_inside].
  rewrite (after_tag_prefix (c :: cs) tail Ha). apply IH, Ht.
Qed.

Lemma trim_tag_free (cs : list ascii) :
  tag_inside cs = false -> tag_inside (trim_chars cs) = false.
Proof.
  intros H. unfold trim_chars.
  destruct (trim_end_prefix (drop_space cs)) as [spaces E].
  apply (tag_inside_prefix _ spaces). rewrite <- E.
  apply tag_inside_drop_space, H.
Qed.

Lemma cleaned_text_tag_free (s : string) :
  tag_inside (list_ascii_of_string (cleaned_text s)) = false.
Proof.
  unfold cleaned_text. destruct tag_pattern_is_last as [earlier ->].
  rewrite fold_left_app. cbn [fold_left fst snd].
  unfold trim, replace_all. rewrite !list_ascii_of_string_of_list_ascii.
  apply trim_tag_free.
  apply (squeeze_tag_free _ _ _ (Nat.le_refl _)).
  apply (strip_tags_tag_free _ _ (Nat.le_refl _)).
Qed.

(** X30. No tag survives.  What [sanitizeInput] returns holds no [<]
    followed, after one or more characters other than [>], by [>]: the
    tag pattern finds nothing in it. *)
Theorem sanitized_text_has_no_tag (input : value) (maxLength : option nat) :
  has_tag (sanitizeInput input maxLength) = false.
Proof.
  rewrite has_tag_inside.
  destruct input as [| | | |s| |]; try reflexivity.
  rewrite sanitizeInput_string.
  pose proof (cleaned_text_tag_free s) as H.
  destruct (_ <? _)%nat; [|exact H].
  rewrite substring_firstn.
  apply (tag_inside_prefix _
           (skipn (default 200%nat maxLength)
                  (list_ascii_of_string (cleaned_text s)))).
  rewrite firstn_skipn. exact H.
Qed.

End SanitizeOutput.
